(** * manhattan_generator: data preparation and axis layout

    A shallow embedding of the data-preparation core of
    [manhattan_generator.py] (chromosome encoding, table reading,
    sorting, p-value transform and the per-chromosome axis layout of
    [create_manhattan_plot]), followed by the properties proved of it.

    Conventions of the embedding.
    - Python [str] values are [string]s of bytes.
    - Python [int]s (chromosome codes, parsed base-pair positions) are
      unbounded integers [Z].
    - [float] values live in a carrier [F] supplied by a [PyFloat]
      structure that also provides the [float(..)] constructor, the
      arithmetic, the ordering and [numpy.log10].  Integer positions
      stored in the position column are injected with [of_Z].  The
      structures [real_float] and [RealFloat] interpret floats as real
      numbers: rounding, infinities and NaN are outside them.
    - A raised exception is an [Err] result; [ProgramError] carries the
      message built by the source.
    - A file is given by the lines obtained when iterating over it;
      [iter_lines] cuts the text of a file into these lines.
    - Of [create_manhattan_plot], the chromosome check, the opening
      of the figure (which fails or not as the environment decides),
      the range of the confidence values, the spacing and the loop
      that lays the chromosomes out are embedded, and so are the calls
      the loop makes on the axes, as a trace.
    - The instance [Binary64] interprets floats as the binary64 floats
      the program computes with; statements over the reals are
      statements in exact arithmetic. *)

From Stdlib Require Import ZArith String Ascii List Reals Lra Lia.
From Stdlib Require Import DecimalString DecimalZ.
From Corelib Require PrimFloat Uint63Axioms.
From stdpp Require Import base option list sorting gmap strings.

Local Open Scope Z_scope.

(** ** Exceptions *)

Inductive exception : Type :=
| ProgramError (message : string)   (* class ProgramError(Exception) *)
| ValueError                        (* built-in, e.g. max([]) *)
| IndexError                        (* sequence index out of range *)
| KeyError.                         (* missing dict key *)

Inductive result (A : Type) : Type :=
| Ok (a : A)
| Err (e : exception).
Arguments Ok {A} a.
Arguments Err {A} e.

#[global] Instance result_bind : MBind result :=
  λ A B k r, match r with Ok a => k a | Err e => Err e end.
#[global] Instance result_ret : MRet result := λ A a, Ok a.
#[global] Instance result_fmap : FMap result :=
  λ A B f r, match r with Ok a => Ok (f a) | Err e => Err e end.

Definition of_option {A} (o : option A) (e : exception) : result A :=
  match o with
  | Some a => Ok a
  | None => Err e
  end.

(** ** Python string primitives *)

Module PyStr.

Definition code (c : ascii) : nat := nat_of_ascii c.

(** One byte of [str.upper()]: a-z to A-Z. *)
Definition upper_char (c : ascii) : ascii :=
  if ((97 <=? code c) && (code c <=? 122))%nat
  then ascii_of_nat (code c - 32)
  else c.

Fixpoint upper (s : string) : string :=
  match s with
  | EmptyString => EmptyString
  | String c s' => String (upper_char c) (upper s')
  end.

(** C [isspace]: space, \t, \n, \v, \f, \r. *)
Definition isspace (c : ascii) : bool :=
  ((code c =? 32) || ((9 <=? code c) && (code c <=? 13)))%nat.

Fixpoint lstrip (s : string) : string :=
  match s with
  | EmptyString => EmptyString
  | String c s' => if isspace c then lstrip s' else s
  end.

(** [rstrip_with p s] removes the longest suffix of [s] whose bytes
    all satisfy [p]. *)
Fixpoint rstrip_with (p : ascii → bool) (s : string) : string :=
  match s with
  | EmptyString => EmptyString
  | String c s' =>
      match rstrip_with p s' with
      | EmptyString => if p c then EmptyString else String c EmptyString
      | t => String c t
      end
  end.

Definition strip (s : string) : string := rstrip_with isspace (lstrip s).

(** [line.rstrip("\r\n")]: drop trailing carriage returns and line
    feeds. *)
Definition is_cr_lf (c : ascii) : bool :=
  ((code c =? 13) || (code c =? 10))%nat.
Definition rstrip_crlf (s : string) : string := rstrip_with is_cr_lf s.

(** [s.split(sep)] for a one-byte separator; never returns []. *)
Fixpoint split (sep : ascii) (s : string) : list string :=
  match s with
  | EmptyString => [EmptyString]
  | String c s' =>
      if Ascii.eqb c sep then EmptyString :: split sep s'
      else match split sep s' with
           | [] => [String c EmptyString]
           | w :: ws => String c w :: ws
           end
  end.

Definition tab : ascii := ascii_of_nat 9.

(** [str(n)] for an integer. *)
Definition of_Z (z : Z) : string := NilZero.string_of_int (Z.to_int z).

End PyStr.

(** Character classes used to describe numerals. *)
Fixpoint all_chars (p : ascii → bool) (s : string) : bool :=
  match s with
  | EmptyString => true
  | String c s' => p c && all_chars p s'
  end.

Definition is_digit (c : ascii) : bool :=
  ((48 <=? PyStr.code c) && (PyStr.code c <=? 57))%nat.

(** ** The built-in [int(str)]

    Base-10 literal: optional surrounding whitespace, an optional sign,
    then at least one decimal digit. *)

Definition py_int (s : string) : option Z :=
  match PyStr.strip s with
  | String "+" digits => Z.of_uint <$> NilZero.uint_of_string digits
  | t => Z.of_int <$> NilZero.int_of_string t
  end.

(** ** [encode_chr] *)

Definition encode_chr (chromosome : string) : result Z :=
  let chromosome := PyStr.upper chromosome in
  if String.eqb chromosome "X" then Ok 23
  else if String.eqb chromosome "Y" then Ok 24
  else if String.eqb chromosome "XY" then Ok 25
  else if String.eqb chromosome "MT" then Ok 26
  else match py_int chromosome with
       | Some n => Ok n
       | None => Err (ProgramError (chromosome +:+ ": not a valid chromosome"))
       end.

(** ** Floats

    What the reader and the planner use of Python's [float] type and of
    numpy's float64 arrays. *)

Class PyFloat (F : Type) : Type := {
  py_float : string → option F;     (* float(s); None for ValueError *)
  of_Z : Z → F;                     (* an int used as a float *)
  fadd : F → F → F;
  fsub : F → F → F;
  fmul : F → F → F;
  fdiv : F → F → F;
  fle : F → F → Prop;               (* <= *)
  fle_dec :: RelDecision fle;
  flog10 : F → F;                   (* numpy.log10 *)
}.

(** ** Command-line options read by the core *)

Record options : Type := {
  col_chr : string;
  col_name : string;
  col_pos : string;
  col_cm : string;
  col_pvalue : string;
  col_lod : string;
  exclude_chr : gset Z;
}.

(** Defaults of [parseArgs] followed by [checkArgs]. *)
Definition default_options : options := {|
  col_chr := "chr"; col_name := "name"; col_pos := "pos"; col_cm := "cm";
  col_pvalue := "p_value"; col_lod := "lod"; exclude_chr := ∅ |}.

(** One element of the record array: fields [chr], [pos], [name],
    [conf]. *)
Record marker (F : Type) : Type := {
  chr : Z;
  pos : F;
  name : string;
  conf : F;
}.
Arguments chr {F} _.
Arguments pos {F} _.
Arguments name {F} _.
Arguments conf {F} _.

(** Lexicographic combination of two preorders: compare with [R1], and
    with [R2] where [R1] ties. *)
Definition lex {A} (R1 R2 : relation A) : relation A :=
  λ a b, R1 a b ∧ (R1 b a → R2 a b).

Definition str_le (s t : string) : Prop := String.leb s t = true.

#[global] Instance str_le_dec : RelDecision str_le.
Proof. intros s t. unfold str_le. apply _. Defined.

(** A relation on records through one of their fields. *)
Definition on {A B} (R : relation B) (f : A → B) : relation A :=
  λ a b, R (f a) (f b).

#[global] Instance on_dec {A B} (R : relation B) (f : A → B) :
  RelDecision R → RelDecision (on R f).
Proof. intros D a b. unfold on. apply D. Defined.

Section Reader.
Context {F : Type} `{!PyFloat F}.

(** *** [read_input_file] *)

(** [dict([(colName, i) for i, colName in enumerate(row)])]: a later
    duplicate overrides an earlier one. *)
Definition header_index (row : list string) : gmap string nat :=
  foldl (λ m p, <[p.1 := p.2]> m) ∅ (imap (λ i colName, (colName, i)) row).

Definition required_columns
    (use_physical_positions use_pvalues : bool) (o : options) : list string :=
  [col_chr o; col_name o]
    ++ [if use_physical_positions then col_pos o else col_cm o]
    ++ [if use_pvalues then col_pvalue o else col_lod o].

Fixpoint check_columns (inFileName : string) (headerIndex : gmap string nat)
    (colNames : list string) : result unit :=
  match colNames with
  | [] => Ok tt
  | colName :: rest =>
      match headerIndex !! colName with
      | None =>
          Err (ProgramError (inFileName +:+ ": no column named " +:+ colName))
      | Some _ => check_columns inFileName headerIndex rest
      end
  end.

(** [row[headerIndex[col]]] *)
Definition field (headerIndex : gmap string nat) (row : list string)
    (col : string) : result string :=
  i ← of_option (headerIndex !! col) KeyError;
  of_option (row !! i) IndexError.

Definition is_na (confidence : string) : bool :=
  String.eqb (PyStr.upper confidence) "NA"
  || String.eqb (PyStr.upper confidence) "NAN".

(** [[options.col_cm, options.col_pos][use_physical_positions]] and
    [[options.col_lod, options.col_pvalue][use_pvalues]] *)
Definition position_column (use_physical_positions : bool) (o : options) : string :=
  if use_physical_positions then col_pos o else col_cm o.
Definition confidence_column (use_pvalues : bool) (o : options) : string :=
  if use_pvalues then col_pvalue o else col_lod o.

(** [map([float, int][use_physical_positions], [raw])[0]];
    [None] for [ValueError]. *)
Definition parse_position (use_physical_positions : bool) (raw : string)
    : option F :=
  if use_physical_positions then of_Z <$> py_int raw else py_float raw.

(** The body of the loop for one data line.  [Ok None] is [continue];
    [Ok (Some m)] is the tuple appended to [data]. *)
Definition read_row (inFileName : string)
    (use_physical_positions use_pvalues : bool) (o : options)
    (headerIndex : gmap string nat) (row : list string)
    : result (option (marker F)) :=
  label ← field headerIndex row (col_chr o);
  chromosome ← encode_chr label;
  if decide (chromosome ∈ exclude_chr o) then Ok None else
  raw_pos ← field headerIndex row (position_column use_physical_positions o);
  position ← of_option (parse_position use_physical_positions raw_pos)
               (ProgramError (raw_pos +:+ ": invalid position in "
                                      +:+ inFileName));
  raw_conf ← field headerIndex row (confidence_column use_pvalues o);
  if is_na raw_conf then Ok None else
  confidence ← of_option (py_float raw_conf)
                 (ProgramError (raw_conf +:+ ": invalid confidence in "
                                         +:+ inFileName));
  name ← field headerIndex row (col_name o);
  Ok (Some {| chr := chromosome; pos := position;
              name := name; conf := confidence |}).

Definition parse_line (line : string) : list string :=
  PyStr.split PyStr.tab (PyStr.rstrip_crlf line).

(** The data lines, in file order; [data] is the list built so far. *)
Fixpoint read_rows (inFileName : string)
    (use_physical_positions use_pvalues : bool) (o : options)
    (headerIndex : gmap string nat) (lines : list string)
    (data : list (marker F)) : result (list (marker F)) :=
  match lines with
  | [] => Ok data
  | line :: rest =>
      r ← read_row inFileName use_physical_positions use_pvalues o
            headerIndex (parse_line line);
      read_rows inFileName use_physical_positions use_pvalues o
        headerIndex rest
        (match r with Some m => data ++ [m] | None => data end)
  end.

(** The whole [for line_nb, line in enumerate(inFile)] loop. *)
Definition read_lines (inFileName : string)
    (use_physical_positions use_pvalues : bool) (o : options)
    (lines : list string) : result (list (marker F)) :=
  match lines with
  | [] => Ok []
  | header :: rest =>
      let headerIndex := header_index (parse_line header) in
      _ ← check_columns inFileName headerIndex
            (required_columns use_physical_positions use_pvalues o);
      read_rows inFileName use_physical_positions use_pvalues o
        headerIndex rest []
  end.

(** The built-in [max] on a list of ints. *)
Definition py_max_Z (l : list Z) : result Z :=
  match l with
  | [] => Err ValueError
  | x :: l' => Ok (foldl Z.max x l')
  end.

(** Order used by [data.sort(order=["chr", "pos"])]: numpy compares
    the named fields first and breaks ties with the remaining fields
    in dtype order, here [name] then [conf]. *)
Definition marker_le : relation (marker F) :=
  lex (on Z.le chr) (lex (on fle pos) (lex (on str_le name) (on fle conf))).

#[global] Instance marker_le_dec : RelDecision marker_le.
Proof. unfold marker_le, lex, on, str_le. intros a b. apply _. Defined.

Definition np_sort (data : list (marker F)) : list (marker F) :=
  merge_sort marker_le data.

(** [data["conf"] = -1 * np.log10(data["conf"])] *)
Definition neg_log10 (c : F) : F := fmul (of_Z (-1)) (flog10 c).

Definition transform_conf (m : marker F) : marker F :=
  {| chr := chr m; pos := pos m; name := name m;
     conf := neg_log10 (conf m) |}.

(** [lines] are the lines obtained by iterating over the opened
    file. *)
Definition read_input_file (lines : list string) (inFileName : string)
    (use_physical_positions use_pvalues : bool) (o : options)
    : result (list (marker F)) :=
  data ← read_lines inFileName use_physical_positions use_pvalues o lines;
  _ ← py_max_Z ((λ i, Z.of_nat (String.length (name i))) <$> data);
  let data := np_sort data in
  Ok (if use_pvalues then transform_conf <$> data else data).

(** The rows a loop iteration adds to [data]. *)
Definition kept (r : option (marker F)) : list (marker F) :=
  match r with Some m => [m] | None => [] end.

(** A row that reaches the confidence field: its chromosome is valid
    and not excluded and its position parses. *)
Definition reaches_confidence (upp upv : bool) (o : options)
    (headerIndex : gmap string nat) (row : list string) (raw_conf : string)
    : Prop :=
  ∃ label c raw_pos p,
    field headerIndex row (col_chr o) = Ok label
    ∧ encode_chr label = Ok c
    ∧ (c ∉ exclude_chr o)
    ∧ field headerIndex row (position_column upp o) = Ok raw_pos
    ∧ parse_position upp raw_pos = Some p
    ∧ field headerIndex row (confidence_column upv o) = Ok raw_conf.

End Reader.

(** ** The axis layout of [create_manhattan_plot] *)

(** Values taken by the loop's locals while one chromosome is laid
    out: [startingPos] on entry, [xmin], [xmax] and the tick appended
    to [ticks]. *)
Record chromosome_layout (F : Type) : Type := {
  chromosome : Z;
  start_offset : F;
  box_min : F;
  box_max : F;
  tick : F;
}.
Arguments chromosome {F} _.
Arguments start_offset {F} _.
Arguments box_min {F} _.
Arguments box_max {F} _.
Arguments tick {F} _.

(** What the loop leaves behind: the per-chromosome values, the list
    [ticks] given to [set_xticks], the labels given to
    [set_xticklabels] and the two bounds given to [set_xlim]. *)
Record axis_layout (F : Type) : Type := {
  chromosomes : list (chromosome_layout F);
  ticks : list F;
  xticklabels : list Z;
  xlim : F * F;
}.
Arguments chromosomes {F} _.
Arguments ticks {F} _.
Arguments xticklabels {F} _.
Arguments xlim {F} _.

(** The values [create_manhattan_plot] derives from the data:
    [(conf_min, conf_max)] and the axis layout. *)
Record plot (F : Type) : Type := {
  conf_range : F * F;
  axis : axis_layout F;
}.
Arguments conf_range {F} _.
Arguments axis {F} _.

Definition missing_chromosome_msg : string :=
  "missing chromsoome in either twopoint or multipoint data".

Definition no_display_msg : string :=
  "There is no available display, but annotation has been asked for..."
  +:+ String (ascii_of_nat 10) "Try using the --no_annotation option.".

(** [np.unique]: the distinct values, ascending. *)
Definition np_unique (l : list Z) : list Z := merge_sort Z.le (remove_dups l).

(** The built-in [sorted] on a list of ints. *)
Definition sorted (l : list Z) : list Z := merge_sort Z.le l.

Section Planner.
Context {F : Type} `{!PyFloat F}.

(** The larger of two floats, keeping the first on a tie. *)
Definition fmax (a b : F) : F := if decide (fle b a) then a else b.

(** The smaller of two floats, keeping the first on a tie. *)
Definition fmin (a b : F) : F := if decide (fle a b) then a else b.

(** [np.max] of an array and the built-in [max] of a list; both raise
    [ValueError] on an empty argument.  Likewise [np.min] and [min]. *)
Definition np_max (l : list F) : result F :=
  match l with
  | [] => Err ValueError
  | x :: l' => Ok (foldl fmax x l')
  end.

Definition np_min (l : list F) : result F :=
  match l with
  | [] => Err ValueError
  | x :: l' => Ok (foldl fmin x l')
  end.

Definition dataset_chromosomes (d : list (marker F)) : list Z :=
  sorted (np_unique (chr <$> d)).

(** Lines 334-347: the chromosomes to draw. *)
Definition available_chromosomes (twopoint multipoint : option (list (marker F)))
    : result (list Z) :=
  let availableChr :=
    match twopoint with Some d => [dataset_chromosomes d] | None => [] end
    ++ match multipoint with Some d => [dataset_chromosomes d] | None => [] end in
  if decide (length availableChr = 1%nat)
  then of_option (availableChr !! 0%nat) IndexError
  else
    a0 ← of_option (availableChr !! 0%nat) IndexError;
    a1 ← of_option (availableChr !! 1%nat) IndexError;
    if decide (a0 ≠ a1) then Err (ProgramError missing_chromosome_msg)
    else Ok a0.

(** [np.max(d[np.where(d["chr"] == chromosome)]["pos"])] *)
Definition dataset_max_pos (d : list (marker F)) (chromosome : Z) : result F :=
  np_max (pos <$> filter (λ m, chr m = chromosome) d).

(** Lines 407-416: [maxPos] for one chromosome. *)
Definition max_position (twopoint multipoint : option (list (marker F)))
    (chromosome : Z) : result F :=
  m1 ← match twopoint with
       | Some d => x ← dataset_max_pos d chromosome; Ok [x]
       | None => Ok []
       end;
  m2 ← match multipoint with
       | Some d => x ← dataset_max_pos d chromosome; Ok [x]
       | None => Ok []
       end;
  np_max (m1 ++ m2).

(** Lines 400-485: the loop over [availableChr], threading
    [startingPos] and the lists built so far. *)
Fixpoint layout_loop (twopoint multipoint : option (list (marker F)))
    (chr_spacing : F) (availableChr : list Z) (startingPos : F)
    (done : list (chromosome_layout F))
    : result (F * list (chromosome_layout F)) :=
  match availableChr with
  | [] => Ok (startingPos, done)
  | chromosome :: rest =>
      maxPos ← max_position twopoint multipoint chromosome;
      let xmin := fsub startingPos (fdiv chr_spacing (of_Z 2)) in
      let xmax := fadd (fadd maxPos startingPos) (fdiv chr_spacing (of_Z 2)) in
      let entry := {| chromosome := chromosome; start_offset := startingPos;
                      box_min := xmin; box_max := xmax;
                      tick := fdiv (fadd xmin xmax) (of_Z 2) |} in
      layout_loop twopoint multipoint chr_spacing rest
        (fadd (fadd maxPos startingPos) chr_spacing) (done ++ [entry])
  end.

(** [chr_spacing = [25.0, 25000000][args.phys_pos_flag]] *)
Definition spacing_preset (phys_pos_flag : bool) : F :=
  if phys_pos_flag then of_Z 25000000 else of_Z 25.

(** Lines 359-369: [conf_min] and [conf_max] as computed from the
    data, before the command-line overrides of lines 370-375. *)
Definition dataset_conf_limits (d : list (marker F)) : result (F * F) :=
  lo ← np_min (conf <$> d);
  hi ← np_max (conf <$> d);
  Ok (lo, hi).

Definition conf_limits (twopoint multipoint : option (list (marker F)))
    : result (F * F) :=
  l1 ← match twopoint with
       | Some d => x ← dataset_conf_limits d; Ok [x]
       | None => Ok []
       end;
  l2 ← match multipoint with
       | Some d => x ← dataset_conf_limits d; Ok [x]
       | None => Ok []
       end;
  conf_min ← np_min (of_Z 0 :: (fst <$> l1 ++ l2));
  conf_max ← np_max (snd <$> l1 ++ l2);
  Ok (conf_min, conf_max).

(** Lines 400-502: the loop and what is handed to the axes, for a
    given spacing and list of chromosomes. *)
Definition plan_layout (twopoint multipoint : option (list (marker F)))
    (chr_spacing : F) (availableChr : list Z) : result (axis_layout F) :=
  '(startingPos, done) ← layout_loop twopoint multipoint chr_spacing
                            availableChr (of_Z 0) [];
  Ok {| chromosomes := done;
        ticks := tick <$> done;
        xticklabels := availableChr;
        xlim := (fsub (of_Z 0) chr_spacing, fadd startingPos chr_spacing) |}.

(** Lines 350-357: [plt.figure] either opens the figure or raises
    TclError, which is raised again as a ProgramError.  Whether it
    does is decided outside the program ([tcl_error]). *)
Definition open_figure (tcl_error : bool) : result unit :=
  if tcl_error then Err (ProgramError no_display_msg) else Ok tt.

(** [create_manhattan_plot] up to the values it derives from the data;
    the drawing calls are in [draw_manhattan_plot]. *)
Definition create_manhattan_plot (tcl_error : bool)
    (twopoint multipoint : option (list (marker F)))
    (phys_pos_flag : bool) : result (plot F) :=
  availableChr ← available_chromosomes twopoint multipoint;
  _ ← open_figure tcl_error;
  limits ← conf_limits twopoint multipoint;
  layout ← plan_layout twopoint multipoint (spacing_preset phys_pos_flag)
             availableChr;
  Ok {| conf_range := limits; axis := layout |}.

(** The datasets that were supplied. *)
Definition supplied twopoint multipoint : list (list (marker F)) :=
  option_list twopoint ++ option_list multipoint.

End Planner.

(** ** Floats as real numbers *)

Local Open Scope R_scope.

(** The exponent of a decimal literal: an optional sign and at least
    one digit. *)
Definition decimal_exponent (s : string) : option Z :=
  match s with
  | String "+" digits => Z.of_uint <$> NilZero.uint_of_string digits
  | t => Z.of_int <$> NilZero.int_of_string t
  end.

(** [x] times ten to the power [e]. *)
Definition scale10 (x : R) (e : Z) : R :=
  match e with
  | Z0 => x
  | Zpos _ => x * IZR (10 ^ e)
  | Zneg _ => x / IZR (10 ^ (- e))
  end.

(** [float(s)] on the decimal literals Python accepts: optional
    surrounding whitespace, an optional sign, digits with at most one
    point and at least one digit, and an optional exponent.  The
    literals inf, infinity and nan, which [float] accepts too, have
    no value among the reals: here they are rejected like a malformed
    literal, so a file that holds one is outside what is said of this
    instance. *)
Definition decimal_literal (s : string) : option R :=
  let t := PyStr.strip s in
  let '(negative, body) :=
    match t with
    | String "-" r => (true, r)
    | String "+" r => (false, r)
    | _ => (false, t)
    end in
  '(mantissa, e) ←
    match PyStr.split "E" (PyStr.upper body) with
    | [m] => Some (m, 0%Z)
    | [m; x] => e ← decimal_exponent x; Some (m, e)
    | _ => None
    end;
  match PyStr.split "." mantissa with
  | [ip] =>
      d ← NilZero.uint_of_string ip;
      Some (scale10 (if negative then - IZR (Z.of_uint d)
                     else IZR (Z.of_uint d)) e)
  | [ip; fp] =>
      d ← NilZero.uint_of_string (ip +:+ fp);
      let v := IZR (Z.of_uint d) / IZR (10 ^ Z.of_nat (String.length fp)) in
      Some (scale10 (if negative then - v else v) e)
  | _ => None
  end.

Definition log10 (x : R) : R := ln x / ln 10.

#[global] Instance Rle_rel_dec : RelDecision Rle := Rle_dec.

(** Floats read as real numbers: the arithmetic is exact, so what is
    proved of this reading holds of the program up to the rounding of
    binary64, and only for finite values.  [float(s)] and
    [numpy.log10] are parameters. *)
Definition real_float (parse : string → option R) (lg : R → R) : PyFloat R := {|
  py_float := parse;
  of_Z := IZR;
  fadd := Rplus;
  fsub := Rminus;
  fmul := Rmult;
  fdiv := Rdiv;
  fle := Rle;
  flog10 := lg;
|}.

(** The reading used in the examples: decimal literals, and the real
    logarithm, which is what [numpy.log10] approximates on the
    positive floats. *)
#[global] Instance RealFloat : PyFloat R := {|
  py_float := decimal_literal;
  of_Z := IZR;
  fadd := Rplus;
  fsub := Rminus;
  fmul := Rmult;
  fdiv := Rdiv;
  fle := Rle;
  flog10 := log10;
|}.

(** The composite key (chromosome, position) on real positions. *)
Definition key_le : relation (marker R) := lex (on Z.le chr) (on Rle pos).

(** The planner as the specification words it: a cursor that starts
    at the given value and, for each chromosome in turn, yields the
    start offset, the box and the tick before moving on by the
    chromosome's largest position plus the spacing. *)
Fixpoint planner_spec (max_position : Z → R) (spacing : R)
    (chromosome_ids : list Z) (cursor : R) : list (chromosome_layout R) :=
  match chromosome_ids with
  | [] => []
  | c :: rest =>
      let box_min := cursor - spacing / 2 in
      let box_max := cursor + max_position c + spacing / 2 in
      {| chromosome := c; start_offset := cursor;
         box_min := box_min; box_max := box_max;
         tick := (box_min + box_max) / 2 |}
      :: planner_spec max_position spacing rest
           (cursor + max_position c + spacing)
  end.

(** [maxPos] as a function of the chromosome. *)
Definition max_pos_of (twopoint multipoint : option (list (marker R)))
    (c : Z) : R :=
  match max_position twopoint multipoint c with
  | Ok m => m
  | Err _ => 0
  end.

(** [m] is the largest position recorded for chromosome [c] in the
    supplied datasets. *)
Definition largest_position (twopoint multipoint : option (list (marker R)))
    (c : Z) (m : R) : Prop :=
  (∃ d r, d ∈ supplied twopoint multipoint ∧ r ∈ d ∧ chr r = c ∧ pos r = m)
  ∧ (∀ d r, d ∈ supplied twopoint multipoint → r ∈ d → chr r = c → pos r <= m).

Local Close Scope R_scope.

(** ** Floats as binary64

    The floats the program computes with: IEEE 754 binary64 with
    rounding to nearest even, as the kernel's primitive floats.
    [float(s)] and [numpy.log10] are library code that the primitive
    operations do not cover: an instance takes them as parameters. *)

(** An [int] used as a float: exact below 2^53 in magnitude, rounded
    to nearest below 2^63. *)
Definition float_of_Z (z : Z) : PrimFloat.float :=
  match z with
  | Z0 => PrimFloat.zero
  | Zpos _ => PrimFloat.of_uint63 (Uint63Axioms.of_Z z)
  | Zneg p => PrimFloat.opp (PrimFloat.of_uint63 (Uint63Axioms.of_Z (Zpos p)))
  end.

Definition float_le (a b : PrimFloat.float) : Prop := PrimFloat.leb a b = true.

#[global] Instance float_le_dec : RelDecision float_le :=
  λ a b, decide (PrimFloat.leb a b = true).

Definition Binary64 (parse : string → option PrimFloat.float)
    (lg : PrimFloat.float → PrimFloat.float) : PyFloat PrimFloat.float := {|
  py_float := parse;
  of_Z := float_of_Z;
  fadd := PrimFloat.add;
  fsub := PrimFloat.sub;
  fmul := PrimFloat.mul;
  fdiv := PrimFloat.div;
  fle := float_le;
  flog10 := lg;
|}.

(** The float Python writes 7.3, and two records on chromosomes 1 and
    2 whose positions are 7.3 and 1.0. *)
Definition f7_3 : PrimFloat.float :=
  PrimFloat.div (float_of_Z 73) (float_of_Z 10).

Definition b1 : marker PrimFloat.float :=
  {| chr := 1; pos := f7_3; name := "rs1"; conf := float_of_Z 3 |}.
Definition b2 : marker PrimFloat.float :=
  {| chr := 2; pos := float_of_Z 1; name := "rs2"; conf := float_of_Z 1 |}.

(** ** Files as text *)

Definition line_feed : ascii := ascii_of_nat 10.
Definition carriage_return : ascii := ascii_of_nat 13.

(** [for line in inFile], the file opened by [open(inFileName, 'r')]
    (line 214; Python 2, which translates no line ending): the
    content is cut after every line feed, each line keeps its line
    feed, and a last line without one is yielded as it is. *)
Fixpoint iter_lines (content : string) : list string :=
  match content with
  | EmptyString => []
  | String c rest =>
      if Ascii.eqb c line_feed then String c EmptyString :: iter_lines rest
      else match iter_lines rest with
           | [] => [String c EmptyString]
           | line :: lines => String c line :: lines
           end
  end.

(** The same text with Windows line endings: a carriage return before
    every line feed. *)
Fixpoint to_crlf (content : string) : string :=
  match content with
  | EmptyString => EmptyString
  | String c rest =>
      if Ascii.eqb c line_feed
      then String carriage_return (String c (to_crlf rest))
      else String c (to_crlf rest)
  end.

(** ** Concrete files *)

(** One line of a tab-separated file, with its newline. *)
Definition tsv (fields : list string) : string :=
  match fields with
  | [] => String (ascii_of_nat 10) EmptyString
  | x :: xs =>
      foldl (λ acc y, acc +:+ String PyStr.tab y) x xs
        +:+ String (ascii_of_nat 10) EmptyString
  end.

Definition lod_header : string := tsv ["chr"; "name"; "cm"; "lod"].

Definition exclude_x : options := {|
  col_chr := "chr"; col_name := "name"; col_pos := "pos"; col_cm := "cm";
  col_pvalue := "p_value"; col_lod := "lod"; exclude_chr := {[ 23 ]} |}.


(** A two-point file of three data lines, not in order, one position
    written with an exponent. *)
Definition unordered_file : string :=
  lod_header +:+ tsv ["2"; "rs2"; "5"; "1.5"]
  +:+ tsv ["1"; "rs3"; "20"; "0.5"] +:+ tsv ["1"; "rs1"; "1e1"; "2.5"].

(** A header and the beginning of one data line, whose confidence
    still lacks its last digit. *)
Definition unended_file : string :=
  lod_header +:+ String.concat (String PyStr.tab "") ["1"; "rs1"; "10"; "2."].

Definition r1 : marker R := {| chr := 1; pos := 10%R; name := "rs1"; conf := 2.5%R |}.
Definition r2 : marker R := {| chr := 1; pos := 20%R; name := "rs2"; conf := 4%R |}.
Definition r5 : marker R := {| chr := 5; pos := 7%R; name := "rs5"; conf := 1%R |}.

(** ** Auxiliary notions for the reader *)

(** The records one data line contributes: none when the line is
    skipped or raises. *)
Definition row_records {F : Type} `{!PyFloat F} (inFileName : string)
    (use_physical_positions use_pvalues : bool) (o : options)
    (headerIndex : gmap string nat) (line : string) : list (marker F) :=
  match read_row inFileName use_physical_positions use_pvalues o headerIndex
          (parse_line line) with
  | Ok r => kept r
  | Err _ => []
  end.

(** A data line that does not raise. *)
Definition row_accepted {F : Type} `{!PyFloat F} (inFileName : string)
    (use_physical_positions use_pvalues : bool) (o : options)
    (headerIndex : gmap string nat) (line : string) : Prop :=
  ∃ r : option (marker F),
    read_row inFileName use_physical_positions use_pvalues o headerIndex
      (parse_line line) = Ok r.

(** ** The command line: [checkArgs] and [main] *)

(** The attributes of the namespace returned by [parseArgs] that the
    modelled code reads. *)
Record raw_args (F : Type) : Type := {
  arg_twopoint : option string;
  arg_multipoint : option string;
  arg_col_chr : string;
  arg_col_name : string;
  arg_col_pos : string;
  arg_col_cm : string;
  arg_col_pvalue : string;
  arg_col_lod : string;
  arg_phys_pos_flag : bool;
  arg_use_pvalues_flag : bool;
  arg_exclude_chr : option string;
  arg_no_negative_values : bool;
  arg_max_ylim : option F;
  arg_min_ylim : option F;
  arg_no_y_padding : bool;
  arg_point_size : F;
  arg_significant_point_size : F;
  arg_abline : string;
  arg_significant_threshold : F;
  arg_no_annotation : bool;
  arg_chromosome_box_color : string;
  arg_even_chromosome_color : string;
  arg_odd_chromosome_color : string;
  arg_multipoint_color : string;
  arg_significant_color : string;
}.
Arguments arg_twopoint {F} _.
Arguments arg_multipoint {F} _.
Arguments arg_col_chr {F} _.
Arguments arg_col_name {F} _.
Arguments arg_col_pos {F} _.
Arguments arg_col_cm {F} _.
Arguments arg_col_pvalue {F} _.
Arguments arg_col_lod {F} _.
Arguments arg_phys_pos_flag {F} _.
Arguments arg_use_pvalues_flag {F} _.
Arguments arg_exclude_chr {F} _.
Arguments arg_no_negative_values {F} _.
Arguments arg_max_ylim {F} _.
Arguments arg_min_ylim {F} _.
Arguments arg_no_y_padding {F} _.
Arguments arg_point_size {F} _.
Arguments arg_significant_point_size {F} _.
Arguments arg_abline {F} _.
Arguments arg_significant_threshold {F} _.
Arguments arg_no_annotation {F} _.
Arguments arg_chromosome_box_color {F} _.
Arguments arg_even_chromosome_color {F} _.
Arguments arg_odd_chromosome_color {F} _.
Arguments arg_multipoint_color {F} _.
Arguments arg_significant_color {F} _.

(** The namespace after [checkArgs]: [abline] has become a list of
    floats and [exclude_chr] a set of chromosome codes. *)
Record checked_args (F : Type) : Type := {
  raw : raw_args F;
  abline : list F;
  opts : options;
}.
Arguments raw {F} _.
Arguments abline {F} _.
Arguments opts {F} _.

(** The files the program can see: [os.path.isfile] and, for a file
    that exists, the lines obtained by iterating over it. *)
Record file_system : Type := {
  isfile : string → bool;
  file_lines : string → list string;
}.

Definition no_graph_type_msg : string :=
  "Meed to specify at least one graph type (option -t or -m)".

Section CommandLine.
Context {F : Type} `{!PyFloat F}.

(** The [%f] conversion of a float. *)
Variable format_f : F → string.

Definition check_file (fs : file_system) (name : option string) : result unit :=
  match name with
  | Some name =>
      if isfile fs name then Ok tt
      else Err (ProgramError (name +:+ ": no such file or directory"))
  | None => Ok tt
  end.

(** [{encode_chr(i) for i in args.exclude_chr.split(",")}] *)
Definition parse_exclude_chr (exclude_chr : option string) : result (gset Z) :=
  match exclude_chr with
  | None => Ok ∅
  | Some s => codes ← mapM encode_chr (PyStr.split "," s); Ok (list_to_set codes)
  end.

(** [[float(i) for i in args.abline.split(',')]], with the
    [ValueError] turned into a ProgramError. *)
Definition parse_abline (abline : string) : result (list F) :=
  of_option (mapM py_float (PyStr.split "," abline))
    (ProgramError (abline +:+ ": not a valid LOD score (must be float)")).

Definition checkArgs (fs : file_system) (a : raw_args F) : result (checked_args F) :=
  _ ← match arg_max_ylim a, arg_min_ylim a with
      | Some max_ylim, Some min_ylim =>
          if decide (fle max_ylim min_ylim)
          then Err (ProgramError ("Y max limit (" +:+ format_f max_ylim
                                  +:+ ") is <= Y min limit ("
                                  +:+ format_f min_ylim +:+ ")"))
          else Ok tt
      | _, _ => Ok tt
      end;
  _ ← match arg_twopoint a, arg_multipoint a with
      | None, None => Err (ProgramError no_graph_type_msg)
      | _, _ => Ok tt
      end;
  _ ← check_file fs (arg_twopoint a);
  _ ← check_file fs (arg_multipoint a);
  abline ← parse_abline (arg_abline a);
  exclude_chr ← parse_exclude_chr (arg_exclude_chr a);
  Ok {| raw := a;
        abline := abline;
        opts := {| col_chr := arg_col_chr a; col_name := arg_col_name a;
                   col_pos := arg_col_pos a; col_cm := arg_col_cm a;
                   col_pvalue := arg_col_pvalue a; col_lod := arg_col_lod a;
                   exclude_chr := exclude_chr |} |}.

(** [read_input_file] on a named file of the file system, when a name
    was given. *)
Definition read_dataset (fs : file_system) (args : checked_args F)
    (name : option string) : result (option (list (marker F))) :=
  match name with
  | None => Ok None
  | Some name =>
      d ← read_input_file (file_lines fs name) name
            (arg_phys_pos_flag (raw args)) (arg_use_pvalues_flag (raw args))
            (opts args);
      Ok (Some d)
  end.

(** [main], from the parsed command line on. *)
Definition main (fs : file_system) (tcl_error : bool) (a : raw_args F)
    : result (plot F) :=
  args ← checkArgs fs a;
  two_point ← read_dataset fs args (arg_twopoint a);
  multi_point ← read_dataset fs args (arg_multipoint a);
  create_manhattan_plot tcl_error two_point multi_point (arg_phys_pos_flag a).

End CommandLine.

(** ** A concrete command line *)

(** The examples never format a float: they take this rendering. *)
Definition format_any (x : R) : string := "<float>".

(** [parseArgs] defaults, with one two-point file named. *)
Definition two_point_args : raw_args R := {|
  arg_twopoint := Some "two.txt";
  arg_multipoint := None;
  arg_col_chr := "chr"; arg_col_name := "name"; arg_col_pos := "pos";
  arg_col_cm := "cm"; arg_col_pvalue := "p_value"; arg_col_lod := "lod";
  arg_phys_pos_flag := false;
  arg_use_pvalues_flag := false;
  arg_exclude_chr := Some "x";
  arg_no_negative_values := false;
  arg_max_ylim := None;
  arg_min_ylim := Some (-2)%R;
  arg_no_y_padding := false;
  arg_point_size := (21 / 10)%R;
  arg_significant_point_size := (45 / 10)%R;
  arg_abline := "3,-2";
  arg_significant_threshold := 3%R;
  arg_no_annotation := false;
  arg_chromosome_box_color := "#E5E5E5";
  arg_even_chromosome_color := "#1874CD";
  arg_odd_chromosome_color := "#4D4D4D";
  arg_multipoint_color := "#FF8C00";
  arg_significant_color := "#FF0000";
|}.

(** A file system holding the single file two.txt. *)
Definition one_file : file_system := {|
  isfile := String.eqb "two.txt";
  file_lines := λ _, [lod_header; tsv ["1"; "rs1"; "10"; "2.5"];
                      tsv ["X"; "rs2"; "4"; "3.5"]];
|}.


(** * Drawing

    The rest of [create_manhattan_plot]: the y limits, the calls made
    on the axes for every chromosome and the choice between saving and
    showing the figure. *)

(** The calls on the axes whose arguments depend on the data, one
    constructor per call site of the loop (lines 427, 434, 441, 447,
    449, 454 and 470). *)
Inductive draw_call (F : Type) : Type :=
| Axvspan (xmin xmax : F) (color : string)
| Plot_twopoint (xs ys : list F) (ms : F) (color : string)
| Plot_multipoint (xs ys : list F) (color : string)
| Axhline_abline (y : F)
| Axhline_zero
| Plot_significant (xs ys : list F) (ms : F) (color : string)
| Annotate (label : string) (xy xytext : F * F).
Arguments Axvspan {F} _ _ _.
Arguments Plot_twopoint {F} _ _ _ _.
Arguments Plot_multipoint {F} _ _ _.
Arguments Axhline_abline {F} _.
Arguments Axhline_zero {F}.
Arguments Plot_significant {F} _ _ _ _.
Arguments Annotate {F} _ _ _.

(** What [create_manhattan_plot] has done to the figure when it
    returns: the calls of the loop in the order they were made, the
    bounds given to [set_ylim], the x axis, and whether the figure was
    shown ([plt.show]) rather than saved ([plt.savefig]). *)
Record figure (F : Type) : Type := {
  fig_calls : list (draw_call F);
  fig_ylim : F * F;
  fig_axis : axis_layout F;
  fig_shown : bool;
}.
Arguments fig_calls {F} _.
Arguments fig_ylim {F} _.
Arguments fig_axis {F} _.
Arguments fig_shown {F} _.

Definition newline : string := String (Ascii.ascii_of_nat 10) EmptyString.

(** The points handed to [ax.plot] for the two-point data, for the
    multipoint data and for the significant markers, and the points
    the annotations point at. *)
Definition twopoint_points {F} (c : draw_call F) : list (F * F) :=
  match c with Plot_twopoint xs ys _ _ => zip xs ys | _ => [] end.

Definition multipoint_points {F} (c : draw_call F) : list (F * F) :=
  match c with Plot_multipoint xs ys _ => zip xs ys | _ => [] end.

Definition significant_points {F} (c : draw_call F) : list (F * F) :=
  match c with Plot_significant xs ys _ _ => zip xs ys | _ => [] end.

Definition annotated_points {F} (c : draw_call F) : list (F * F) :=
  match c with Annotate _ xy _ => [xy] | _ => [] end.

Definition abline_levels {F} (c : draw_call F) : list F :=
  match c with Axhline_abline y => [y] | _ => [] end.

Definition shaded_box {F} (c : draw_call F) : list (F * F) :=
  match c with Axvspan xmin xmax _ => [(xmin, xmax)] | _ => [] end.

Definition twopoint_color {F} (c : draw_call F) : list string :=
  match c with Plot_twopoint _ _ _ color => [color] | _ => [] end.

Definition multipoint_line_color {F} (c : draw_call F) : list string :=
  match c with Plot_multipoint _ _ color => [color] | _ => [] end.

Section Drawing.
Context {F : Type} `{!PyFloat F}.

(** ["%.3f" % x] and [str(10**(-1*x))]. *)
Variable format_3f : F → string.
Variable str_pow10_neg : F → string.

(** [[args.even_chromosome_color, args.odd_chromosome_color][i % 2 == 0]] *)
Definition chromosome_color (a : raw_args F) (i : nat) : string :=
  if decide (i mod 2 = 0)%nat then arg_odd_chromosome_color a
  else arg_even_chromosome_color a.

(** [a < b] *)
Definition flt (a b : F) : Prop := fle a b ∧ ¬ fle b a.

#[global] Instance flt_dec : RelDecision flt :=
  λ a b, and_dec (decide (fle a b)) (not_dec (decide (fle b a))).

(** [d[np.where(d["chr"] == chromosome)]] *)
Definition chr_rows (d : list (marker F)) (chromosome : Z) : list (marker F) :=
  filter (λ m, chr m = chromosome) d.

(** Lines 359-375: the limits of the data with the command-line
    overrides applied. *)
Definition y_limits (a : raw_args F) (limits : F * F) : F * F :=
  let conf_max := match arg_max_ylim a with
                  | Some max_ylim => max_ylim
                  | None => snd limits
                  end in
  let conf_min := match arg_min_ylim a with
                  | Some min_ylim => min_ylim
                  | None => fst limits
                  end in
  let conf_min := if arg_no_negative_values a || arg_use_pvalues_flag a
                  then of_Z 0 else conf_min in
  (conf_min, conf_max).

(** Lines 495-497; the literal 0.39 is the float nearest to 39/100. *)
Definition y_padding (a : raw_args F) : F :=
  if arg_no_y_padding a then of_Z 0 else fdiv (of_Z 39) (of_Z 100).

(** Lines 463-482: the annotation of one significant marker. *)
Definition annotate_marker (a : raw_args F) (startingPos conf_max : F)
    (m : marker F) : draw_call F :=
  let theConf := if arg_use_pvalues_flag a then str_pow10_neg (conf m)
                 else format_3f (conf m) in
  Annotate (name m +:+ newline +:+ theConf)
           (fadd (pos m) startingPos, conf m)
           (fadd (pos m) startingPos, conf_max).

(** [chr_twopoint["conf"] >= args.significant_threshold] *)
Definition significant (a : raw_args F) (m : marker F) : Prop :=
  fle (arg_significant_threshold a) (conf m).

#[global] Instance significant_dec a m : Decision (significant a m) :=
  decide (fle (arg_significant_threshold a) (conf m)).

(** Lines 418-482: the calls of one iteration, for the chromosome at
    index [i] whose offset and box are in [e]. *)
Definition draw_chromosome (args : checked_args F)
    (twopoint multipoint : option (list (marker F))) (conf_min conf_max : F)
    (i : nat) (e : chromosome_layout F) : list (draw_call F) :=
  let a := raw args in
  let startingPos := start_offset e in
  let color := chromosome_color a i in
  let multipoint_color :=
    match twopoint with
    | Some _ => arg_multipoint_color a
    | None => color
    end in
  (if decide (i mod 2 = 1)%nat
   then [Axvspan (box_min e) (box_max e) (arg_chromosome_box_color a)]
   else [])
  ++ match twopoint with
     | Some d =>
         let chr_twopoint := chr_rows d (chromosome e) in
         [Plot_twopoint ((λ m, fadd (pos m) startingPos) <$> chr_twopoint)
                        (conf <$> chr_twopoint) (arg_point_size a) color]
     | None => []
     end
  ++ match multipoint with
     | Some d =>
         let chr_multipoint := chr_rows d (chromosome e) in
         [Plot_multipoint ((λ m, fadd (pos m) startingPos) <$> chr_multipoint)
                          (conf <$> chr_multipoint) multipoint_color]
     | None => []
     end
  ++ (Axhline_abline <$> abline args)
  ++ (if decide (flt conf_min (of_Z 0)) then [Axhline_zero] else [])
  ++ match twopoint with
     | Some d =>
         let sig := filter (significant a) (chr_rows d (chromosome e)) in
         Plot_significant ((λ m, fadd (pos m) startingPos) <$> sig)
                          (conf <$> sig) (arg_significant_point_size a)
                          (arg_significant_color a)
         :: (if arg_no_annotation a then []
             else annotate_marker a startingPos conf_max <$> sig)
     | None => []
     end.

(** Lines 400-485: the loop, with its index, threading [startingPos],
    the values laid out so far and the calls made so far. *)
Fixpoint plot_loop (args : checked_args F)
    (twopoint multipoint : option (list (marker F)))
    (conf_min conf_max chr_spacing : F) (i : nat) (availableChr : list Z)
    (startingPos : F) (done : list (chromosome_layout F))
    (calls : list (draw_call F))
    : result (F * list (chromosome_layout F) * list (draw_call F)) :=
  match availableChr with
  | [] => Ok (startingPos, done, calls)
  | chromosome :: rest =>
      maxPos ← max_position twopoint multipoint chromosome;
      let xmin := fsub startingPos (fdiv chr_spacing (of_Z 2)) in
      let xmax := fadd (fadd maxPos startingPos) (fdiv chr_spacing (of_Z 2)) in
      let entry := {| chromosome := chromosome; start_offset := startingPos;
                      box_min := xmin; box_max := xmax;
                      tick := fdiv (fadd xmin xmax) (of_Z 2) |} in
      plot_loop args twopoint multipoint conf_min conf_max chr_spacing
        (S i) rest (fadd (fadd maxPos startingPos) chr_spacing)
        (done ++ [entry])
        (calls ++ draw_chromosome args twopoint multipoint conf_min conf_max
                    i entry)
  end.

(** [create_manhattan_plot] with its drawing.  The calls that only
    set texts and fonts are left out. *)
Definition draw_manhattan_plot (tcl_error : bool) (args : checked_args F)
    (twopoint multipoint : option (list (marker F))) : result (figure F) :=
  let a := raw args in
  availableChr ← available_chromosomes twopoint multipoint;
  _ ← open_figure tcl_error;
  limits ← conf_limits twopoint multipoint;
  let conf_min := fst (y_limits a limits) in
  let conf_max := snd (y_limits a limits) in
  let chr_spacing := spacing_preset (arg_phys_pos_flag a) in
  '(startingPos, done, calls) ←
    plot_loop args twopoint multipoint conf_min conf_max chr_spacing
      0 availableChr (of_Z 0) [] [];
  let padding := y_padding a in
  Ok {| fig_calls := calls;
        fig_ylim := (fsub conf_min padding, fadd conf_max padding);
        fig_axis := {| chromosomes := done;
                       ticks := tick <$> done;
                       xticklabels := availableChr;
                       xlim := (fsub (of_Z 0) chr_spacing,
                                fadd startingPos chr_spacing) |};
        fig_shown := negb (arg_no_annotation a
                           || match twopoint with None => true | _ => false end)
     |}.

(** The offset at which the records of a chromosome are drawn: the
    start offset of the chromosome's entry. *)
Definition offset_of (entries : list (chromosome_layout F)) (c : Z) : F :=
  match list_find (λ e, chromosome e = c) entries with
  | Some (_, e) => start_offset e
  | None => of_Z 0
  end.

(** The point at which a record is drawn. *)
Definition drawn_at (entries : list (chromosome_layout F)) (m : marker F)
    : F * F :=
  (fadd (pos m) (offset_of entries (chr m)), conf m).

End Drawing.
(** The command line above once checked, as the drawing takes it. *)
Definition two_point_checked : checked_args R := {|
  raw := two_point_args;
  abline := [3; -2]%R;
  opts := exclude_x;
|}.

(** * Draggable annotations

    [DraggableAnnotation]: the handlers of the three mouse events and
    the lock shared by all instances. *)

(** What the handlers read of a mouse event: the axes under the
    pointer, if any, and the pointer in data coordinates (which
    matplotlib sets whenever [inaxes] is set). *)
Record mouse_event (F : Type) : Type := {
  inaxes : option nat;
  xdata : F;
  ydata : F;
}.
Arguments inaxes {F} _.
Arguments xdata {F} _.
Arguments ydata {F} _.

(** One instance: the axes and the text position of its annotation
    ([self.annot.axes], [self.annot.xyann]), whether the annotation is
    animated, [self.press], and whether [self.background] holds a
    pixel buffer. *)
Record draggable (F : Type) : Type := {
  annot_axes : nat;
  xyann : F * F;
  animated : bool;
  press : option (F * F * F * F);
  background : bool;
}.
Arguments annot_axes {F} _.
Arguments xyann {F} _.
Arguments animated {F} _.
Arguments press {F} _.
Arguments background {F} _.

(** The instances in the order they were connected (the list [drs] of
    [create_manhattan_plot]) and the class attribute [lock], which
    names an instance by its index. *)
Record canvas (F : Type) : Type := {
  lock : option nat;
  drs : list (draggable F);
}.
Arguments lock {F} _.
Arguments drs {F} _.

Inductive gui_event (F : Type) : Type :=
| Button_press (event : mouse_event F)
| Motion_notify (event : mouse_event F)
| Button_release (event : mouse_event F).
Arguments Button_press {F} _.
Arguments Motion_notify {F} _.
Arguments Button_release {F} _.

Section Dragging.
Context {F : Type} `{!PyFloat F}.

(** [self.annot.contains(event)[0]]: the hit test of matplotlib, for
    the instance of the given index in its current state. *)
Variable contains : nat → draggable F → mouse_event F → bool.

(** The order in which the canvas calls the handlers connected for an
    event.  It is matplotlib's, not the program's: the properties
    below hold for any order, or say which order they mean. *)
Variable handler_order : gui_event F → canvas F → list nat.

(** Lines 54-84. *)
Definition on_press (self : nat) (event : mouse_event F) (st : canvas F)
    : canvas F :=
  match drs st !! self with
  | None => st
  | Some d =>
      if decide (inaxes event ≠ Some (annot_axes d)) then st
      else if decide (lock st ≠ None) then st
      else if negb (contains self d event) then st
      else
        let '(x0, y0) := xyann d in
        {| lock := Some self;
           drs := <[self := {| annot_axes := annot_axes d;
                               xyann := xyann d;
                               animated := true;
                               press := Some (x0, y0, xdata event, ydata event);
                               background := true |}]> (drs st) |}
  end.

(** Lines 86-110; unpacking [self.press] when it is [None] raises a
    TypeError, here [None]. *)
Definition on_motion (self : nat) (event : mouse_event F) (st : canvas F)
    : option (canvas F) :=
  match drs st !! self with
  | None => Some st
  | Some d =>
      if decide (lock st ≠ Some self) then Some st
      else if decide (inaxes event ≠ Some (annot_axes d)) then Some st
      else
        '(x0, y0, xpress, ypress) ← press d;
        let dx := fsub (xdata event) xpress in
        let dy := fsub (ydata event) ypress in
        Some {| lock := lock st;
                drs := <[self := {| annot_axes := annot_axes d;
                                    xyann := (fadd x0 dx, fadd y0 dy);
                                    animated := animated d;
                                    press := press d;
                                    background := background d |}]> (drs st) |}
  end.

(** Lines 112-125. *)
Definition on_release (self : nat) (event : mouse_event F) (st : canvas F)
    : canvas F :=
  match drs st !! self with
  | None => st
  | Some d =>
      if decide (lock st ≠ Some self) then st
      else
        {| lock := None;
           drs := <[self := {| annot_axes := annot_axes d;
                               xyann := xyann d;
                               animated := false;
                               press := None;
                               background := false |}]> (drs st) |}
  end.

(** The handler an instance connected for an event (lines 45-52). *)
Definition callback (ev : gui_event F) (self : nat) (st : canvas F)
    : option (canvas F) :=
  match ev with
  | Button_press event => Some (on_press self event st)
  | Motion_notify event => on_motion self event st
  | Button_release event => Some (on_release self event st)
  end.

(** The handlers of the instances listed, called one after the
    other. *)
Fixpoint process (ev : gui_event F) (selves : list nat) (st : canvas F)
    : option (canvas F) :=
  match selves with
  | [] => Some st
  | self :: rest => st' ← callback ev self st; process ev rest st'
  end.

(** One event, sent to the handlers in the order of the canvas. *)
Definition dispatch (ev : gui_event F) (st : canvas F) : option (canvas F) :=
  process ev (handler_order ev st) st.

Fixpoint run (evs : list (gui_event F)) (st : canvas F) : option (canvas F) :=
  match evs with
  | [] => Some st
  | ev :: rest => st' ← dispatch ev st; run rest st'
  end.

(** Lines 39-43 and 487-492: one instance per annotation, given by its
    axes and text position; nothing is held. *)
Definition connect_all (annots : list (nat * (F * F))) : canvas F :=
  {| lock := None;
     drs := (λ a, {| annot_axes := fst a; xyann := snd a; animated := false;
                     press := None; background := false |}) <$> annots |}.

(** An instance at rest. *)
Definition at_rest (d : draggable F) : Prop :=
  press d = None ∧ animated d = false ∧ background d = false.

(** An instance being dragged. *)
Definition held (d : draggable F) : Prop :=
  is_Some (press d) ∧ animated d = true ∧ background d = true.

(** The lock names the one instance being dragged; every other
    instance is at rest. *)
Definition consistent (st : canvas F) : Prop :=
  (∀ h, lock st = Some h → ∃ d, drs st !! h = Some d ∧ held d)
  ∧ (∀ i d, drs st !! i = Some d → lock st ≠ Some i → at_rest d).

(** The instance is on the axes of the event and under the pointer. *)
Definition hit (event : mouse_event F) (i : nat) (d : draggable F) : Prop :=
  inaxes event = Some (annot_axes d) ∧ contains i d event = true.

End Dragging.
(** ** A concrete canvas *)

(** A hit test that accepts every pointer. *)
Definition always_hit : nat → draggable R → mouse_event R → bool :=
  λ _ _ _, true.

(** A canvas that calls the handlers in the reverse of the order in
    which the instances were connected. *)
Definition last_connected_first : gui_event R → canvas R → list nat :=
  λ _ st, reverse (seq 0 (length (drs st))).

Definition pointer_at (x y : R) : mouse_event R :=
  {| inaxes := Some 0%nat; xdata := x; ydata := y |}.

Definition pointer_outside : mouse_event R :=
  {| inaxes := None; xdata := 0%R; ydata := 0%R |}.

Definition two_annotations : canvas R :=
  connect_all [(0%nat, (10, 4)%R); (0%nat, (20, 4)%R)].

(** The first of the two annotations, pressed at (11, 4). *)
Definition first_held : canvas R := {|
  lock := Some 0%nat;
  drs := [ {| annot_axes := 0; xyann := (10, 4)%R; animated := true;
              press := Some (10, 4, 11, 4)%R; background := true |};
           {| annot_axes := 0; xyann := (20, 4)%R; animated := false;
              press := None; background := false |} ];
|}.

(** * Properties *)

(** ** Examples *)

Example encode_chr_x : encode_chr "x" = Ok 23. Proof. reflexivity. Qed.
Example encode_chr_Mt : encode_chr "Mt" = Ok 26. Proof. reflexivity. Qed.
Example encode_chr_7 : encode_chr "7" = Ok 7. Proof. reflexivity. Qed.
Example encode_chr_neg : encode_chr " -12 " = Ok (-12). Proof. reflexivity. Qed.
Example encode_chr_bad :
  encode_chr "chr1" = Err (ProgramError "CHR1: not a valid chromosome").
Proof. reflexivity. Qed.
Example py_int_plus : py_int "+7" = Some 7. Proof. reflexivity. Qed.
Example py_int_plus_minus : py_int "+-7" = None. Proof. reflexivity. Qed.
Example py_int_float : py_int "12.5" = None. Proof. reflexivity. Qed.
Example py_int_empty : py_int "  " = None. Proof. reflexivity. Qed.

Example decimal_literal_neg :
  decimal_literal "-2.5" = Some (- (25 / 10))%R.
Proof. reflexivity. Qed.
Example decimal_literal_int : decimal_literal " 10 " = Some 10%R.
Proof. reflexivity. Qed.
Example decimal_literal_word : decimal_literal "abc" = None.
Proof. reflexivity. Qed.
Example decimal_literal_dot : decimal_literal "." = None.
Proof. reflexivity. Qed.
Example decimal_literal_exponent :
  decimal_literal "1.5e-3" = Some (15 / 10 / 1000)%R.
Proof. reflexivity. Qed.
Example decimal_literal_exponent_plus :
  decimal_literal "2E+2" = Some (2 * 100)%R.
Proof. reflexivity. Qed.
Example decimal_literal_exponent_bare : decimal_literal "1e" = None.
Proof. reflexivity. Qed.
Example decimal_literal_inf : decimal_literal "inf" = None.
Proof. reflexivity. Qed.

Example np_unique_ex : np_unique [5; 1; 5; 23; 1] = [1; 5; 23].
Proof. reflexivity. Qed.

(** ** Strings and [int] *)

Ltac by_ascii_cases c :=
  destruct c as [[|] [|] [|] [|] [|] [|] [|] [|]]; try reflexivity.

Lemma isspace_upper_char c : PyStr.isspace (PyStr.upper_char c) = PyStr.isspace c.
Proof. by_ascii_cases c. Qed.

Lemma uint_of_char_upper c d :
  uint_of_char (PyStr.upper_char c) d = uint_of_char c d.
Proof. destruct d; [| by destruct c]. by_ascii_cases c. Qed.

Lemma upper_char_sign c (sign : ascii) :
  sign = "-"%char ∨ sign = "+"%char →
  Ascii.eqb (PyStr.upper_char c) sign = Ascii.eqb c sign.
Proof. intros [-> | ->]; by_ascii_cases c. Qed.

Lemma lstrip_upper s : PyStr.lstrip (PyStr.upper s) = PyStr.upper (PyStr.lstrip s).
Proof.
  induction s as [|c s IH]; simpl; [done|].
  rewrite isspace_upper_char. by destruct (PyStr.isspace c).
Qed.

Lemma rstrip_upper s :
  PyStr.rstrip_with PyStr.isspace (PyStr.upper s)
  = PyStr.upper (PyStr.rstrip_with PyStr.isspace s).
Proof.
  induction s as [|c s IH]; simpl; [done|].
  rewrite IH, isspace_upper_char.
  destruct (PyStr.rstrip_with PyStr.isspace s); simpl; [|done].
  by destruct (PyStr.isspace c).
Qed.

Lemma strip_upper s : PyStr.strip (PyStr.upper s) = PyStr.upper (PyStr.strip s).
Proof. unfold PyStr.strip. by rewrite lstrip_upper, rstrip_upper. Qed.

Lemma uint_of_string_upper s :
  NilEmpty.uint_of_string (PyStr.upper s) = NilEmpty.uint_of_string s.
Proof.
  induction s as [|c s IH]; simpl; [done|].
  by rewrite IH, uint_of_char_upper.
Qed.

Lemma nz_uint_of_string_upper s :
  NilZero.uint_of_string (PyStr.upper s) = NilZero.uint_of_string s.
Proof.
  destruct s as [|c s]; [done|].
  change (NilEmpty.uint_of_string (PyStr.upper (String c s))
          = NilEmpty.uint_of_string (String c s)).
  apply uint_of_string_upper.
Qed.

Lemma nz_int_of_string_upper s :
  NilZero.int_of_string (PyStr.upper s) = NilZero.int_of_string s.
Proof.
  destruct s as [|c s]; [done|].
  unfold NilZero.int_of_string. cbn [PyStr.upper].
  rewrite upper_char_sign by auto.
  destruct (Ascii.eqb c "-").
  - by rewrite nz_uint_of_string_upper.
  - change (String (PyStr.upper_char c) (PyStr.upper s))
      with (PyStr.upper (String c s)).
    by rewrite nz_uint_of_string_upper.
Qed.

(** Upper-casing a label does not change its integer value. *)
Lemma py_int_upper s : py_int (PyStr.upper s) = py_int s.
Proof.
  unfold py_int. rewrite strip_upper.
  destruct (PyStr.strip s) as [|c t] eqn:E; [done|].
  cbn [PyStr.upper].
  destruct (Ascii.eqb_spec c "+") as [->|Hc].
  - cbn. by rewrite nz_uint_of_string_upper.
  - assert (Hu : PyStr.upper_char c ≠ "+"%char).
    { intros Hu. apply Hc. apply Ascii.eqb_eq.
      rewrite <- (upper_char_sign c "+") by auto. by apply Ascii.eqb_eq. }
    transitivity (Z.of_int <$> NilZero.int_of_string (PyStr.upper (String c t))).
    + cbn [PyStr.upper]. revert Hu. generalize (PyStr.upper_char c).
      intros a Ha. by_ascii_cases a. done.
    + rewrite nz_int_of_string_upper. revert Hc. clear.
      intros Hc. by_ascii_cases c. done.
Qed.

Lemma all_chars_impl (p q : ascii → bool) s :
  (∀ c, p c = true → q c = true) → all_chars p s = true → all_chars q s = true.
Proof.
  intros Hpq. induction s as [|c s IH]; simpl; [done|].
  intros [Hc Hs]%andb_true_iff. rewrite (Hpq _ Hc). simpl. auto.
Qed.

Lemma string_of_uint_digits d : all_chars is_digit (NilEmpty.string_of_uint d) = true.
Proof. induction d; simpl; auto. Qed.

Lemma upper_fixed s :
  all_chars (λ c, Ascii.eqb (PyStr.upper_char c) c) s = true → PyStr.upper s = s.
Proof.
  induction s as [|c s IH]; simpl; [done|].
  intros [Hc%Ascii.eqb_eq Hs]%andb_true_iff. by rewrite Hc, IH.
Qed.

Lemma rstrip_fixed p s :
  all_chars (λ c, negb (p c)) s = true → PyStr.rstrip_with p s = s.
Proof.
  induction s as [|c s IH]; simpl; [done|].
  intros [Hc%negb_true_iff Hs]%andb_true_iff. rewrite IH, Hc by done.
  by destruct s.
Qed.

Lemma digit_not_space c : is_digit c = true → negb (PyStr.isspace c) = true.
Proof. by_ascii_cases c; done. Qed.

Lemma digit_upper c : is_digit c = true → Ascii.eqb (PyStr.upper_char c) c = true.
Proof. by_ascii_cases c; done. Qed.

(** The decimal numeral of an integer: an optional minus sign followed
    by digits, the first of which exists. *)
Lemma of_Z_shape z :
  ∃ c t, PyStr.of_Z z = String c t
         ∧ (is_digit c = true ∨ (c = "-"%char ∧ ∃ c' t', t = String c' t'))
         ∧ all_chars is_digit t = true.
Proof.
  assert (Hu : ∀ d, d ≠ Decimal.Nil →
    ∃ c t, NilZero.string_of_uint d = String c t
           ∧ is_digit c = true ∧ all_chars is_digit t = true).
  { intros d Hd. pose proof (string_of_uint_digits d) as Hall.
    destruct d; try done; simpl in *; eauto. }
  unfold PyStr.of_Z.
  destruct z as [|p|p]; cbn [Z.to_int NilZero.string_of_int].
  - exists "0"%char, EmptyString. auto.
  - destruct (Hu (Pos.to_uint p)) as (c & t & -> & Hc & Ht);
      [apply DecimalPos.Unsigned.to_uint_nonnil|].
    exists c, t. auto.
  - destruct (Hu (Pos.to_uint p)) as (c & t & -> & Hc & Ht);
      [apply DecimalPos.Unsigned.to_uint_nonnil|].
    exists "-"%char, (String c t). split; [done|]. split; [eauto|].
    simpl. by rewrite Hc, Ht.
Qed.

Lemma strip_of_Z z : PyStr.strip (PyStr.of_Z z) = PyStr.of_Z z.
Proof.
  destruct (of_Z_shape z) as (c & t & E & Hc & Ht). rewrite E.
  assert (Hsp : PyStr.isspace c = false).
  { destruct Hc as [Hc | [-> _]]; [|done].
    by apply negb_true_iff, digit_not_space. }
  unfold PyStr.strip. cbn [PyStr.lstrip]. rewrite Hsp.
  apply rstrip_fixed. simpl. rewrite Hsp. simpl.
  eapply all_chars_impl; [apply digit_not_space | done].
Qed.

Lemma upper_of_Z z : PyStr.upper (PyStr.of_Z z) = PyStr.of_Z z.
Proof.
  destruct (of_Z_shape z) as (c & t & E & Hc & Ht). rewrite E.
  apply upper_fixed. simpl. apply andb_true_iff. split.
  - destruct Hc as [Hc | [-> _]]; [by apply digit_upper | done].
  - eapply all_chars_impl; [apply digit_upper | done].
Qed.

(** [int(str(z)) == z] *)
Lemma py_int_of_Z z : py_int (PyStr.of_Z z) = Some z.
Proof.
  unfold py_int. rewrite strip_of_Z.
  destruct (of_Z_shape z) as (c & t & E & Hc & _).
  assert (Hplus : c ≠ "+"%char).
  { destruct Hc as [Hc | [-> _]]; [|done]. intros ->. done. }
  transitivity (Z.of_int <$> NilZero.int_of_string (PyStr.of_Z z)).
  - rewrite E. revert Hplus. clear. intros Hc. by_ascii_cases c. done.
  - unfold PyStr.of_Z. rewrite NilZero.isi.
    + simpl. f_equal. apply DecimalZ.of_to.
    + destruct z; simpl; [done| |done].
      intros [= H]. by apply DecimalPos.Unsigned.to_uint_nonnil in H.
    + destruct z; simpl; [done|done|].
      intros [= H]. by apply DecimalPos.Unsigned.to_uint_nonnil in H.
Qed.

Lemma of_Z_not_letter z (w : string) :
  w ∈ ["X"; "Y"; "XY"; "MT"] → String.eqb (PyStr.of_Z z) w = false.
Proof.
  intros Hw. destruct (of_Z_shape z) as (c & t & -> & Hc & _).
  assert (Hne : ∀ x : ascii, x = "X"%char ∨ x = "Y"%char ∨ x = "M"%char →
                Ascii.eqb c x = false).
  { intros x Hx. apply Ascii.eqb_neq. intros ->.
    destruct Hc as [Hc | [Hc _]]; destruct Hx as [-> | [-> | ->]]; done. }
  rewrite !elem_of_cons, elem_of_nil in Hw.
  destruct Hw as [-> | [-> | [-> | [-> | []]]]]; simpl; rewrite Hne; auto.
Qed.

(** ** Chromosome encoder *)

(** C4. [encode_chr] matches X, Y, XY and MT without regard to case
    and returns 23, 24, 25 and 26 for them.  Any other label is given
    to [int]: when it is an integer literal that integer is returned,
    whatever its value (every integer [z], written in decimal, encodes
    to [z] itself); when it is not, [ProgramError] is raised with the
    upper-cased label in its message. *)
Theorem encode_chr_spec (label : string) :
  (PyStr.upper label = "X" → encode_chr label = Ok 23) ∧
  (PyStr.upper label = "Y" → encode_chr label = Ok 24) ∧
  (PyStr.upper label = "XY" → encode_chr label = Ok 25) ∧
  (PyStr.upper label = "MT" → encode_chr label = Ok 26) ∧
  (PyStr.upper label ∉ ["X"; "Y"; "XY"; "MT"] →
     (∀ n, py_int label = Some n → encode_chr label = Ok n) ∧
     (py_int label = None →
        encode_chr label
        = Err (ProgramError (PyStr.upper label +:+ ": not a valid chromosome")))) ∧
  (∀ z : Z, encode_chr (PyStr.of_Z z) = Ok z).
Proof.
  assert (Hother : PyStr.upper label ∉ ["X"; "Y"; "XY"; "MT"] →
    encode_chr label
    = match py_int label with
      | Some n => Ok n
      | None => Err (ProgramError (PyStr.upper label +:+ ": not a valid chromosome"))
      end).
  { intros Hnot. unfold encode_chr. rewrite py_int_upper.
    rewrite !elem_of_cons, elem_of_nil in Hnot.
    repeat match goal with
           | |- context [String.eqb ?a ?b] =>
               destruct (String.eqb_spec a b) as [E|_];
               [exfalso; apply Hnot; rewrite E; tauto|]
           end.
    done. }
  unfold encode_chr.
  split; [by intros ->|]. split; [by intros ->|].
  split; [by intros ->|]. split; [by intros ->|]. split.
  - intros Hnot. fold (encode_chr label). rewrite (Hother Hnot).
    split; [by intros n ->| by intros ->].
  - intros z. rewrite upper_of_Z, py_int_of_Z.
    rewrite !of_Z_not_letter; [done|..];
      rewrite !elem_of_cons; tauto.
Qed.

Lemma encode_chr_spec_witness :
  PyStr.upper "xy" = "XY" ∧ encode_chr "xy" = Ok 25.
Proof.
  split; [reflexivity|].
  apply (proj1 (proj2 (proj2 (encode_chr_spec "xy")))). reflexivity.
Defined.

(** ** Table reader *)

Section ReaderFacts.
Context {F : Type} `{!PyFloat F}.
Implicit Types (o : options) (headerIndex : gmap string nat).
Implicit Types (data : list (marker F)) (lines : list string).

Lemma read_rows_cons f upp upv o headerIndex line rest data :
  read_rows f upp upv o headerIndex (line :: rest) data
  = (r ← read_row f upp upv o headerIndex (parse_line line);
     read_rows f upp upv o headerIndex rest (data ++ kept r)).
Proof.
  cbn [read_rows]. destruct (read_row _ _ _ _ _ _) as [[m|]|e]; simpl; [done| |done].
  by rewrite app_nil_r.
Qed.

(** The rows already collected are only ever extended. *)
Lemma read_rows_acc f upp upv o headerIndex lines data :
  read_rows f upp upv o headerIndex lines data
  = (d ← read_rows f upp upv o headerIndex lines []; Ok (data ++ d)).
Proof.
  revert data. induction lines as [|line rest IH]; intros data.
  - simpl. by rewrite app_nil_r.
  - rewrite !read_rows_cons.
    destruct (read_row _ _ _ _ _ _) as [r|e]; simpl; [|done].
    rewrite (IH (data ++ kept r)), (IH (kept r)).
    destruct (read_rows _ _ _ _ _ rest []) as [d|e]; simpl; [|done].
    by rewrite app_assoc.
Qed.

Lemma read_rows_app f upp upv o headerIndex pre post data :
  read_rows f upp upv o headerIndex (pre ++ post) data
  = (d ← read_rows f upp upv o headerIndex pre data;
     read_rows f upp upv o headerIndex post d).
Proof.
  revert data. induction pre as [|line rest IH]; intros data; [done|].
  rewrite <- app_comm_cons, !read_rows_cons.
  destruct (read_row _ _ _ _ _ _) as [r|e]; simpl; [|done]. apply IH.
Qed.

(** A line whose row is skipped leaves no trace in the result. *)
Lemma read_rows_skip f upp upv o headerIndex pre line post data :
  read_row f upp upv o headerIndex (parse_line line) = Ok None →
  read_rows f upp upv o headerIndex (pre ++ line :: post) data
  = read_rows f upp upv o headerIndex (pre ++ post) data.
Proof.
  intros Hskip. rewrite !read_rows_app.
  destruct (read_rows _ _ _ _ _ pre data) as [d|e]; [|done].
  cbn [mbind result_bind].
  rewrite read_rows_cons, Hskip. cbn [mbind result_bind kept].
  by rewrite app_nil_r.
Qed.

(** A line whose row raises aborts the loop with that exception,
    provided the lines before it went through. *)
Lemma read_rows_abort f upp upv o headerIndex pre line post data d e :
  read_rows f upp upv o headerIndex pre data = Ok d →
  read_row f upp upv o headerIndex (parse_line line) = Err e →
  read_rows f upp upv o headerIndex (pre ++ line :: post) data = Err e.
Proof.
  intros Hpre Hrow. rewrite read_rows_app, Hpre. cbn [mbind result_bind].
  by rewrite read_rows_cons, Hrow.
Qed.

Lemma read_input_file_skip f upp upv o header pre line post :
  read_row f upp upv o (header_index (parse_line header)) (parse_line line)
    = Ok None →
  read_input_file (header :: pre ++ line :: post) f upp upv o
  = read_input_file (header :: pre ++ post) f upp upv o.
Proof.
  intros Hskip. unfold read_input_file, read_lines.
  destruct (check_columns _ _ _) as [[]|e]; simpl; [|done].
  by rewrite (read_rows_skip _ _ _ _ _ _ _ _ _ Hskip).
Qed.

(** Every record collected comes from a data line that [read_row]
    turned into that record. *)
Lemma read_rows_elem f upp upv o headerIndex lines d m :
  read_rows f upp upv o headerIndex lines [] = Ok d →
  m ∈ d →
  ∃ line, line ∈ lines
          ∧ read_row f upp upv o headerIndex (parse_line line) = Ok (Some m).
Proof.
  revert d. induction lines as [|line rest IH]; intros d.
  - intros [= <-] Hm. by apply elem_of_nil in Hm.
  - rewrite read_rows_cons.
    destruct (read_row _ _ _ _ _ _) as [r|e] eqn:Hrow; simpl; [|done].
    rewrite read_rows_acc.
    destruct (read_rows _ _ _ _ _ rest []) as [d'|e] eqn:Hrest; simpl; [|done].
    intros [= <-] [Hm|Hm]%elem_of_app.
    + destruct r as [m'|]; simpl in Hm; [|by apply elem_of_nil in Hm].
      apply list_elem_of_singleton in Hm as ->.
      exists line. split; [left|done].
    + destruct (IH d' eq_refl Hm) as (l & Hl & Hr).
      exists l. split; [by right|done].
Qed.

Lemma read_row_excluded f upp upv o headerIndex row label c :
  field headerIndex row (col_chr o) = Ok label →
  encode_chr label = Ok c →
  c ∈ exclude_chr o →
  read_row f upp upv o headerIndex row = Ok None.
Proof.
  intros Hf He Hc. unfold read_row. rewrite Hf. cbn [mbind result_bind].
  rewrite He. cbn [mbind result_bind]. by rewrite decide_True.
Qed.

(** What a row that raises, or is kept, says about its chromosome. *)
Lemma read_row_chromosome f upp upv o headerIndex row label c :
  field headerIndex row (col_chr o) = Ok label →
  encode_chr label = Ok c →
  (∀ e, read_row f upp upv o headerIndex row = Err e → c ∉ exclude_chr o)
  ∧ (∀ m, read_row f upp upv o headerIndex row = Ok (Some m) →
          chr m = c ∧ c ∉ exclude_chr o).
Proof.
  intros Hf He. unfold read_row. rewrite Hf. cbn [mbind result_bind].
  rewrite He. cbn [mbind result_bind].
  destruct (decide (c ∈ exclude_chr o)) as [Hin|Hout]; [by split|].
  split; [done|]. intros m Hm. split; [|done].
  destruct (field _ _ (position_column _ _)) as [rp|]; [|done].
  cbn [mbind result_bind] in Hm.
  destruct (parse_position upp rp) as [p|]; [|done].
  cbn [of_option mbind result_bind] in Hm.
  destruct (field _ _ (confidence_column _ _)) as [rc|]; [|done].
  cbn [mbind result_bind] in Hm.
  destruct (is_na rc); [done|].
  destruct (py_float rc) as [cf|]; [|done].
  cbn [of_option mbind result_bind] in Hm.
  destruct (field _ _ (col_name o)) as [nm|]; [|done].
  cbn [mbind result_bind] in Hm. by injection Hm as <-.
Qed.

Lemma read_row_kept_label f upp upv o headerIndex row m :
  read_row f upp upv o headerIndex row = Ok (Some m) →
  ∃ label, field headerIndex row (col_chr o) = Ok label
           ∧ encode_chr label = Ok (chr m)
           ∧ chr m ∉ exclude_chr o.
Proof.
  intros Hm.
  destruct (field headerIndex row (col_chr o)) as [label|e] eqn:Hf;
    [|by unfold read_row in Hm; rewrite Hf in Hm].
  destruct (encode_chr label) as [c|e] eqn:He;
    [|by unfold read_row in Hm; rewrite Hf in Hm;
         cbn [mbind result_bind] in Hm; rewrite He in Hm].
  destruct (read_row_chromosome f upp upv o _ _ _ _ Hf He) as [_ Hk].
  destruct (Hk m Hm) as [<- Hout]. eauto.
Qed.

Lemma read_row_confidence f upp upv o headerIndex row raw_conf :
  reaches_confidence upp upv o headerIndex row raw_conf →
  (is_na raw_conf = true → read_row f upp upv o headerIndex row = Ok None)
  ∧ (is_na raw_conf = false → py_float raw_conf = None →
     read_row f upp upv o headerIndex row
     = Err (ProgramError (raw_conf +:+ ": invalid confidence in " +:+ f))).
Proof.
  intros (label & c & rp & p & Hf & He & Hc & Hp & Hpp & Hcf).
  unfold read_row. rewrite Hf. cbn [mbind result_bind].
  rewrite He. cbn [mbind result_bind]. rewrite decide_False by done.
  rewrite Hp. cbn [mbind result_bind]. rewrite Hpp.
  cbn [of_option mbind result_bind]. rewrite Hcf. cbn [mbind result_bind].
  split; [by intros ->|]. intros -> ->. done.
Qed.

Lemma np_sort_perm data : np_sort data ≡ₚ data.
Proof. apply merge_sort_Permutation. Qed.

Lemma np_sort_elem data m : m ∈ np_sort data ↔ m ∈ data.
Proof. by rewrite np_sort_perm. Qed.

(** [read_input_file] returns exactly when the loop collected at
    least one row. *)
Lemma read_input_file_ok lines f upp upv o ds :
  read_input_file lines f upp upv o = Ok ds ↔
  ∃ data, read_lines f upp upv o lines = Ok data ∧ data ≠ []
          ∧ ds = if upv then transform_conf <$> np_sort data else np_sort data.
Proof.
  unfold read_input_file.
  destruct (read_lines f upp upv o lines) as [data|e]; cbn [mbind result_bind].
  - destruct data as [|m data]; cbn [fmap list_fmap py_max_Z mbind result_bind].
    + split; [done|]. by intros (? & [= <-] & ? & _).
    + split.
      * intros [= <-]. by exists (m :: data).
      * by intros (? & [= <-] & _ & ->).
  - split; [done|]. by intros (? & ? & _).
Qed.

Lemma read_input_file_empty lines f upp upv o :
  read_lines f upp upv o lines = Ok [] →
  read_input_file lines f upp upv o = Err ValueError.
Proof. intros H. unfold read_input_file. by rewrite H. Qed.

(** C10. A row whose chromosome is excluded is dropped as soon as its
    chromosome has been encoded: whatever its other fields hold, the
    row yields [continue], and the file read with or without that line
    gives the same result.  Hence a row that raises once its chromosome
    has been encoded is on a chromosome that is not excluded. *)
Theorem excluded_row_never_parsed f upp upv o header line label c :
  let headerIndex := header_index (parse_line header) in
  field headerIndex (parse_line line) (col_chr o) = Ok label →
  encode_chr label = Ok c →
  (c ∈ exclude_chr o →
     read_row f upp upv o headerIndex (parse_line line) = Ok None
     ∧ ∀ pre post,
         read_input_file (header :: pre ++ line :: post) f upp upv o
         = read_input_file (header :: pre ++ post) f upp upv o)
  ∧ (∀ e, read_row f upp upv o headerIndex (parse_line line) = Err e →
          c ∉ exclude_chr o).
Proof.
  intros headerIndex Hf He. split.
  - intros Hc.
    assert (Hskip := read_row_excluded f upp upv o _ _ _ _ Hf He Hc).
    split; [done|]. intros pre post. by apply read_input_file_skip.
  - apply (read_row_chromosome f upp upv o _ _ _ _ Hf He).
Qed.

(** C5 (amended). For a row that reaches the confidence field (valid
    chromosome that is not excluded, position that parses): when the
    confidence text is NA or NAN in any letter case the row is skipped
    and reading the file with or without that line gives the same
    result; when it is any other text that [float] rejects, and the
    header and the earlier lines went through, the read aborts with
    the ProgramError naming the raw text and the file. *)
Theorem confidence_field_handling f upp upv o header line raw_conf :
  let headerIndex := header_index (parse_line header) in
  reaches_confidence upp upv o headerIndex (parse_line line) raw_conf →
  (is_na raw_conf = true ↔
     PyStr.upper raw_conf = "NA" ∨ PyStr.upper raw_conf = "NAN")
  ∧ (is_na raw_conf = true →
     ∀ pre post,
       read_input_file (header :: pre ++ line :: post) f upp upv o
       = read_input_file (header :: pre ++ post) f upp upv o)
  ∧ (is_na raw_conf = false → py_float raw_conf = None →
     ∀ pre post data,
       check_columns f headerIndex (required_columns upp upv o) = Ok tt →
       read_rows f upp upv o headerIndex pre [] = Ok data →
       read_input_file (header :: pre ++ line :: post) f upp upv o
       = Err (ProgramError (raw_conf +:+ ": invalid confidence in " +:+ f))).
Proof.
  intros headerIndex Hreach.
  destruct (read_row_confidence f upp upv o _ _ _ Hreach) as [Hna Hbad].
  split; [|split].
  - unfold is_na. rewrite orb_true_iff, !String.eqb_eq. done.
  - intros E pre post. apply read_input_file_skip. auto.
  - intros E Hnone pre post data Hcols Hpre.
    unfold read_input_file, read_lines. fold headerIndex.
    rewrite Hcols. cbn [mbind result_bind].
    by rewrite (read_rows_abort _ _ _ _ _ _ _ _ _ _ _ Hpre (Hbad E Hnone)).
Qed.

(** C8 (amended). Every record of a dataset returned by
    [read_input_file] carries the code that [encode_chr] gives to the
    chromosome label of one of the data lines, and that code is not an
    excluded one.  The code need not be positive. *)
Theorem dataset_chromosome_codes lines f upp upv o ds m :
  read_input_file lines f upp upv o = Ok ds →
  m ∈ ds →
  ∃ header rest line label,
    lines = header :: rest
    ∧ line ∈ rest
    ∧ field (header_index (parse_line header)) (parse_line line) (col_chr o)
      = Ok label
    ∧ encode_chr label = Ok (chr m)
    ∧ chr m ∉ exclude_chr o.
Proof.
  intros (data & Hlines & Hne & ->)%read_input_file_ok Hm.
  assert (∃ m0, m0 ∈ data ∧ chr m0 = chr m) as (m0 & Hm0 & <-).
  { destruct upv.
    - apply list_elem_of_fmap in Hm as (m0 & -> & Hm0).
      exists m0. by rewrite <- np_sort_elem.
    - exists m. by rewrite <- np_sort_elem. }
  destruct lines as [|header rest]; [by injection Hlines as <-|].
  unfold read_lines in Hlines.
  destruct (check_columns _ _ _) as [[]|e]; [|done].
  cbn [mbind result_bind] in Hlines.
  destruct (read_rows_elem _ _ _ _ _ _ _ _ Hlines Hm0) as (line & Hline & Hrow).
  destruct (read_row_kept_label _ _ _ _ _ _ _ Hrow) as (label & Hf & He & Hout).
  by exists header, rest, line, label.
Qed.

End ReaderFacts.

Example parse_line_tsv : parse_line (tsv ["1"; "rs1"; "10"; "2.5"]) = ["1"; "rs1"; "10"; "2.5"].
Proof. reflexivity. Qed.

Lemma excluded_row_never_parsed_witness :
  field (header_index (parse_line lod_header))
    (parse_line (tsv ["x"; "rs9"; "oops"; "bad"])) (col_chr exclude_x) = Ok "x"
  ∧ encode_chr "x" = Ok 23
  ∧ 23 ∈ exclude_chr exclude_x
  ∧ read_row (F:=R) "f.txt" false false exclude_x
      (header_index (parse_line lod_header))
      (parse_line (tsv ["x"; "rs9"; "oops"; "bad"])) = Ok None.
Proof.
  assert (H23 : 23 ∈ exclude_chr exclude_x).
  { change (23 ∈ ({[ 23 ]} : gset Z)). apply elem_of_singleton. reflexivity. }
  split; [vm_compute; reflexivity|]. split; [reflexivity|]. split; [exact H23|].
  apply (excluded_row_never_parsed (F:=R) "f.txt" false false exclude_x
           lod_header (tsv ["x"; "rs9"; "oops"; "bad"]) "x" 23);
    [vm_compute; reflexivity | reflexivity | exact H23].
Defined.

(** A row with confidence NA whose position does not parse is not
    skipped: it aborts the read, while the same file without that line
    is read without error.  A row with an unparsable confidence on an
    excluded chromosome does not abort the read: it is skipped. *)
Lemma na_row_aborts_on_position :
  (field (header_index (parse_line lod_header))
     (parse_line (tsv ["1"; "rs2"; "xyz"; "NA"])) "lod" = Ok "NA"
   ∧ read_input_file (F:=R)
       [lod_header; tsv ["1"; "rs1"; "10"; "2.5"]; tsv ["1"; "rs2"; "xyz"; "NA"]]
       "f.txt" false false default_options
     = Err (ProgramError "xyz: invalid position in f.txt")
   ∧ ∃ ds, read_input_file (F:=R)
             [lod_header; tsv ["1"; "rs1"; "10"; "2.5"]]
             "f.txt" false false default_options = Ok ds)
  ∧ (field (header_index (parse_line lod_header))
       (parse_line (tsv ["x"; "rs9"; "10"; "bad"])) "lod" = Ok "bad"
     ∧ is_na "bad" = false
     ∧ py_float (F:=R) "bad" = None
     ∧ ∃ ds, read_input_file (F:=R)
               [lod_header; tsv ["1"; "rs1"; "10"; "2.5"];
                tsv ["x"; "rs9"; "10"; "bad"]]
               "f.txt" false false exclude_x = Ok ds).
Proof.
  split.
  - split; [vm_compute; reflexivity|]. split; [vm_compute; reflexivity|].
    eexists. vm_compute. reflexivity.
  - split; [vm_compute; reflexivity|]. split; [reflexivity|].
    split; [vm_compute; reflexivity|]. eexists. vm_compute. reflexivity.
Qed.

Lemma confidence_field_handling_witness :
  reaches_confidence (F:=R) false false default_options
    (header_index (parse_line lod_header))
    (parse_line (tsv ["1"; "rs2"; "10"; "NaN"])) "NaN"
  ∧ is_na "NaN" = true
  ∧ read_input_file (F:=R)
      [lod_header; tsv ["1"; "rs1"; "10"; "2.5"]; tsv ["1"; "rs2"; "10"; "NaN"]]
      "f.txt" false false default_options
    = read_input_file (F:=R)
        [lod_header; tsv ["1"; "rs1"; "10"; "2.5"]]
        "f.txt" false false default_options.
Proof.
  assert (Hreach : reaches_confidence (F:=R) false false default_options
    (header_index (parse_line lod_header))
    (parse_line (tsv ["1"; "rs2"; "10"; "NaN"])) "NaN").
  { exists "1", 1, "10", (IZR 10).
    repeat split; try (vm_compute; reflexivity).
    apply not_elem_of_empty. }
  split; [exact Hreach|]. split; [reflexivity|].
  apply (proj1 (proj2 (confidence_field_handling (F:=R) "f.txt" false false
           default_options lod_header (tsv ["1"; "rs2"; "10"; "NaN"]) "NaN" Hreach))
           eq_refl [tsv ["1"; "rs1"; "10"; "2.5"]] []).
Defined.

(** A label that is the literal 0 reads as chromosome 0. *)
Lemma chromosome_zero_is_read :
  ∃ m, read_input_file (F:=R) [lod_header; tsv ["0"; "rs1"; "10"; "2.5"]]
         "f.txt" false false default_options = Ok [m]
       ∧ chr m = 0 ∧ ¬ (0 < chr m).
Proof. eexists. split; [vm_compute; reflexivity|]. simpl. lia. Qed.

Lemma dataset_chromosome_codes_witness :
  ∃ m, read_input_file (F:=R) [lod_header; tsv ["Y"; "rs1"; "10"; "2.5"]]
         "f.txt" false false default_options = Ok [m]
       ∧ ∃ line label,
           line ∈ [tsv ["Y"; "rs1"; "10"; "2.5"]]
           ∧ field (header_index (parse_line lod_header)) (parse_line line) "chr"
             = Ok label
           ∧ encode_chr label = Ok (chr m).
Proof.
  eexists. split; [vm_compute; reflexivity|].
  edestruct (dataset_chromosome_codes (F:=R)
               [lod_header; tsv ["Y"; "rs1"; "10"; "2.5"]]
               "f.txt" false false default_options)
    as (header & rest & line & label & Hl & Hin & Hf & He & _);
    [vm_compute; reflexivity | left |].
  injection Hl as <- <-. eauto.
Defined.

(** No empty dataset is ever returned. *)
Lemma read_input_file_nonempty {F : Type} `{!PyFloat F}
    lines f upp upv o (ds : list (marker F)) :
  read_input_file lines f upp upv o = Ok ds → ds ≠ [].
Proof.
  intros (data & _ & Hne & ->)%read_input_file_ok.
  assert (Hs : np_sort data ≠ []).
  { intros E. apply Hne. apply Permutation_nil_r. rewrite <- E.
    symmetry. apply np_sort_perm. }
  destruct upv; [|done]. by destruct (np_sort data).
Qed.

(** C9. A file that has no data line, or whose data lines are all
    filtered out, makes [read_input_file] raise the built-in
    ValueError (from [max] of an empty list), which is not a
    ProgramError and carries no message of the program.  A data line
    with fewer fields than the header needs raises the built-in
    IndexError. *)
Theorem empty_dataset_raises_value_error :
  read_input_file (F:=R) [lod_header] "f.txt" false false default_options
    = Err ValueError
  ∧ read_input_file (F:=R) [lod_header; tsv ["1"; "rs1"; "10"; "NA"]]
      "f.txt" false false default_options = Err ValueError
  ∧ read_input_file (F:=R) [lod_header; tsv ["x"; "rs1"; "10"; "2.5"]]
      "f.txt" false false exclude_x = Err ValueError
  ∧ read_input_file (F:=R) [lod_header; tsv ["1"; "rs1"]]
      "f.txt" false false default_options = Err IndexError
  ∧ ∀ msg, read_input_file (F:=R) [lod_header] "f.txt" false false
             default_options ≠ Err (ProgramError msg).
Proof.
  split; [vm_compute; reflexivity|]. split; [vm_compute; reflexivity|].
  split; [vm_compute; reflexivity|]. split; [vm_compute; reflexivity|].
  intros msg. vm_compute. discriminate.
Qed.

(** ** Ordering of records *)

Lemma string_compare_trans s t u :
  String.compare s t ≠ Gt → String.compare t u ≠ Gt → String.compare s u ≠ Gt.
Proof.
  revert t u. induction s as [|a s IH]; intros [|b t] [|c u]; simpl; try congruence.
  unfold Ascii.compare.
  destruct (N.compare_spec (N_of_ascii a) (N_of_ascii b)) as [E1|L1|G1],
           (N.compare_spec (N_of_ascii b) (N_of_ascii c)) as [E2|L2|G2],
           (N.compare_spec (N_of_ascii a) (N_of_ascii c)) as [E3|L3|G3];
    try congruence; try lia.
  apply IH.
Qed.

Lemma str_le_alt s t : str_le s t ↔ String.compare s t ≠ Gt.
Proof. unfold str_le, String.leb. by destruct (String.compare s t). Qed.

#[global] Instance str_le_transitive : Transitive str_le.
Proof. intros s t u. rewrite !str_le_alt. apply string_compare_trans. Qed.

#[global] Instance str_le_total : Total str_le.
Proof. intros s t. apply String.leb_total. Qed.

#[global] Instance str_le_antisymm : AntiSymm (=) str_le.
Proof. intros s t. apply String.leb_antisym. Qed.

#[global] Instance Rle_transitive : Transitive Rle.
Proof. intros x y z. apply Rle_trans. Qed.

#[global] Instance Rle_total : Total Rle.
Proof. intros x y. destruct (Rle_or_lt x y); [by left|right; lra]. Qed.

#[global] Instance Rle_antisymm : AntiSymm (=) Rle.
Proof. intros x y. apply Rle_antisym. Qed.

Section Lex.
Context {A : Type} (R1 R2 : relation A).

#[global] Instance lex_transitive :
  Transitive R1 → Transitive R2 → Transitive (lex R1 R2).
Proof.
  intros T1 T2 a b c [Hab Hab'] [Hbc Hbc']. split; [by etrans|].
  intros Hca. etrans; [apply Hab'|apply Hbc']; by etrans.
Qed.

#[global] Instance lex_total `{!RelDecision R1} :
  Total R1 → Total R2 → Total (lex R1 R2).
Proof.
  intros T1 T2 a b. unfold lex.
  destruct (decide (R1 a b)) as [Hab|Hab], (decide (R1 b a)) as [Hba|Hba].
  - destruct (T2 a b); [left|right]; done.
  - left. done.
  - right. done.
  - destruct (T1 a b); done.
Qed.

End Lex.

#[global] Instance on_transitive {A B} (R : relation B) (f : A → B) :
  Transitive R → Transitive (on R f).
Proof. intros T a b c. unfold on. apply T. Qed.

#[global] Instance on_total {A B} (R : relation B) (f : A → B) :
  Total R → Total (on R f).
Proof. intros T a b. unfold on. apply T. Qed.

#[global] Instance fle_real_transitive : Transitive (fle (F:=R)) := Rle_transitive.
#[global] Instance fle_real_total : Total (fle (F:=R)) := Rle_total.

#[global] Instance Zle_transitive : Transitive Z.le := Z.le_trans.
#[global] Instance Zle_total : Total Z.le.
Proof. intros x y. lia. Qed.

#[global] Instance marker_le_transitive : Transitive (marker_le (F:=R)).
Proof. unfold marker_le. apply _. Qed.

#[global] Instance marker_le_total : Total (marker_le (F:=R)).
Proof. unfold marker_le. apply _. Qed.

#[global] Instance marker_le_antisymm : AntiSymm (=) (marker_le (F:=R)).
Proof.
  intros [c1 p1 n1 f1] [c2 p2 n2 f2]. unfold marker_le, lex, on; simpl.
  intros (Hc & Hr) (Hc' & Hr').
  destruct (Hr Hc') as (Hp & Hr2), (Hr' Hc) as (Hp' & Hr2').
  destruct (Hr2 Hp') as (Hn & Hr3), (Hr2' Hp) as (Hn' & Hr3').
  assert (c1 = c2) as -> by lia.
  assert (p1 = p2) as -> by (by apply Rle_antisym).
  assert (n1 = n2) as -> by (by apply String.leb_antisym).
  assert (f1 = f2) as -> by (apply Rle_antisym; auto).
  done.
Qed.

Lemma string_compare_refl s : String.compare s s = Eq.
Proof.
  pose proof (String.compare_antisym s s) as H.
  by destruct (String.compare s s).
Qed.

Lemma str_le_lt_eq s t : str_le s t ↔ String.ltb s t = true ∨ s = t.
Proof.
  unfold str_le, String.leb, String.ltb. split.
  - destruct (String.compare s t) eqn:E; [|by left|done].
    right. by apply String.compare_eq_iff.
  - intros [H| ->]; [by destruct (String.compare s t)|].
    by rewrite string_compare_refl.
Qed.

Lemma str_lt_not_ge s t : String.ltb s t = true → ¬ str_le t s.
Proof.
  unfold str_le, String.leb, String.ltb. rewrite (String.compare_antisym t s).
  by destruct (String.compare s t).
Qed.

(** [marker_le] is the lexicographic order on
    (chr, pos, name, conf). *)
Lemma marker_le_lexicographic (a b : marker R) :
  marker_le a b ↔
  chr a < chr b
  ∨ (chr a = chr b
     ∧ ((pos a < pos b)%R
        ∨ (pos a = pos b
           ∧ (String.ltb (name a) (name b) = true
              ∨ (name a = name b ∧ (conf a <= conf b)%R))))).
Proof.
  unfold marker_le, lex, on; simpl. split.
  - intros (Hc & H).
    destruct (decide (chr a < chr b)) as [|Hc']; [by left|right].
    destruct H as (Hp & H); [lia|]. split; [lia|].
    destruct (Rlt_le_dec (pos a) (pos b)) as [|Hp']; [by left|right].
    destruct (H Hp') as (Hn & H'). split; [by apply Rle_antisym|].
    apply str_le_lt_eq in Hn as [Hn| Hn]; [by left|right].
    split; [done|]. apply H'. rewrite Hn. apply str_le_lt_eq. by right.
  - intros [Hc|(Hc & [Hp|(Hp & [Hn|(Hn & Hf)])])].
    + split; [lia|]. intros. lia.
    + split; [lia|]. intros _. split; [lra|]. intros. lra.
    + split; [lia|]. intros _. split; [lra|]. intros _.
      split; [apply str_le_lt_eq; by left|].
      intros Hge. by apply str_lt_not_ge in Hn.
    + split; [lia|]. intros _. split; [lra|]. intros _.
      split; [apply str_le_lt_eq; by right|]. done.
Qed.

Lemma marker_le_key (a b : marker R) : marker_le a b → key_le a b.
Proof. intros [Hc Hr]. split; [done|]. intros Hc'. by apply Hr. Qed.

Lemma StronglySorted_impl {A} (R S : relation A) l :
  (∀ a b, R a b → S a b) → StronglySorted R l → StronglySorted S l.
Proof.
  intros HRS. induction 1 as [|a l Hl IH Ha]; constructor; [done|].
  eapply Forall_impl; [done|]. auto.
Qed.

(** C7 (amended). [data.sort(order=["chr", "pos"])] returns a
    rearrangement of the records that ascends on (chromosome,
    position); records that tie on that key are placed by name and then
    by confidence, not by their input order.  The result depends on the
    records only, and a dataset already in that order is returned
    unchanged. *)
Theorem np_sort_spec (data : list (marker R)) :
  np_sort data ≡ₚ data
  ∧ StronglySorted key_le (np_sort data)
  ∧ (∀ i j a b,
       (i < j)%nat → np_sort data !! i = Some a → np_sort data !! j = Some b →
       chr a = chr b → pos a = pos b →
       str_le (name a) (name b) ∧ (name a = name b → (conf a <= conf b)%R))
  ∧ (∀ data', data' ≡ₚ data → np_sort data' = np_sort data)
  ∧ (Sorted marker_le data → np_sort data = data).
Proof.
  assert (Hs : ∀ l : list (marker R), StronglySorted marker_le (np_sort l)).
  { intros l. apply StronglySorted_merge_sort; apply _. }
  assert (Hu : ∀ l l' : list (marker R),
            l' ≡ₚ l → Sorted marker_le l' → np_sort l = l').
  { intros l l' Hp Hl'. apply (Sorted_unique marker_le).
    - apply StronglySorted_Sorted, Hs.
    - done.
    - by rewrite np_sort_perm. }
  split; [apply np_sort_perm|]. split; [|split; [|split]].
  - eapply StronglySorted_impl; [apply marker_le_key | apply Hs].
  - intros i j a b Hij Ha Hb Hc Hp.
    assert (Hab : marker_le a b).
    { pose proof (Hs data) as Hss.
      apply (StronglySorted_app_1_elem_of marker_le
               (take j (np_sort data)) (drop j (np_sort data))).
      - by rewrite take_drop.
      - apply list_elem_of_lookup. exists i.
        rewrite lookup_take_lt by done. done.
      - apply list_elem_of_lookup. exists 0%nat.
        rewrite lookup_drop, Nat.add_0_r. done. }
    destruct Hab as (_ & Hr). destruct Hr as (_ & Hr); [unfold on; lia|].
    destruct Hr as (Hn & Hr); [unfold on; rewrite Hp; apply Rle_refl|].
    split; [done|]. intros E. apply Hr. unfold on, str_le. rewrite E.
    destruct (String.leb_total (name b) (name b)); done.
  - intros data' Hp. apply Hu.
    + by rewrite np_sort_perm.
    + apply StronglySorted_Sorted, Hs.
  - intros Hd. by apply Hu.
Qed.

Lemma np_sort_spec_witness :
  let ra := {| chr := 1; pos := 10%R; name := "a"; conf := 2%R |} in
  let rb := {| chr := 1; pos := 10%R; name := "b"; conf := 1%R |} in
  let rc := {| chr := 1; pos := 10%R; name := "b"; conf := 3%R |} in
  let rd := {| chr := 2; pos := 5%R; name := "c"; conf := 0%R |} in
  Sorted (marker_le (F:=R)) [ra; rb; rc; rd]
  ∧ np_sort [ra; rb; rc; rd] = [ra; rb; rc; rd]
  ∧ np_sort [rd; rc; rb; ra] = [ra; rb; rc; rd].
Proof.
  intros ra rb rc rd.
  assert (Hab : marker_le ra rb).
  { split; [unfold on; simpl; lia|]. intros _.
    split; [apply Rle_refl|]. intros _.
    split; [reflexivity|]. intros H. discriminate H. }
  assert (Hbc : marker_le rb rc).
  { split; [unfold on; simpl; lia|]. intros _.
    split; [apply Rle_refl|]. intros _.
    split; [reflexivity|]. intros _. unfold on. simpl. lra. }
  assert (Hcd : marker_le rc rd).
  { split; [unfold on; simpl; lia|]. unfold on. simpl. lia. }
  assert (Hd : Sorted (marker_le (F:=R)) [ra; rb; rc; rd]).
  { repeat first [apply Sorted_cons | apply Sorted_nil
                 | apply HdRel_cons | apply HdRel_nil
                 | exact Hab | exact Hbc | exact Hcd]. }
  destruct (np_sort_spec [ra; rb; rc; rd]) as (_ & _ & _ & Hperm & Hsorted).
  split; [exact Hd|]. split; [exact (Hsorted Hd)|].
  rewrite (Hperm [rd; rc; rb; ra]); [exact (Hsorted Hd)|].
  change [rd; rc; rb; ra] with (reverse [ra; rb; rc; rd]).
  apply reverse_Permutation.
Defined.

(** Two records with the same chromosome and position leave the sort
    in the order of their names, the reverse of their input order. *)
Lemma np_sort_reorders_ties :
  let rb := {| chr := 1; pos := 10%R; name := "b"; conf := 1%R |} in
  let ra := {| chr := 1; pos := 10%R; name := "a"; conf := 2%R |} in
  chr rb = chr ra ∧ pos rb = pos ra
  ∧ StronglySorted key_le [rb; ra]
  ∧ np_sort [rb; ra] = [ra; rb]
  ∧ np_sort [rb; ra] ≠ [rb; ra].
Proof.
  intros rb ra.
  assert (Hs : np_sort [rb; ra] = [ra; rb]).
  { apply (Sorted_unique marker_le).
    - apply StronglySorted_Sorted, StronglySorted_merge_sort; apply _.
    - assert (Hab : marker_le ra rb).
      { split; [unfold on; simpl; lia|]. intros _.
        split; [apply Rle_refl|]. intros _.
        split; [reflexivity|]. intros H. discriminate H. }
      repeat first [apply Sorted_cons | apply Sorted_nil
                   | apply HdRel_cons | apply HdRel_nil | exact Hab].
    - rewrite np_sort_perm. apply Permutation_swap. }
  split; [done|]. split; [done|]. split.
  - assert (Hba : key_le rb ra).
    { split; [unfold on; simpl; lia|]. intros _. apply Rle_refl. }
    repeat first [apply SSorted_cons | apply SSorted_nil
                 | apply Forall_cons_2 | apply Forall_nil_2 | exact Hba].
  - split; [done|]. rewrite Hs. intros E. by inversion E.
Qed.

(** ** Confidence transform *)







(** ** Chromosomes to draw *)

Lemma np_unique_elem l c : c ∈ np_unique l ↔ c ∈ l.
Proof. unfold np_unique. by rewrite merge_sort_Permutation, elem_of_remove_dups. Qed.

Lemma np_unique_sorted l : Sorted Z.le (np_unique l).
Proof. apply Sorted_merge_sort. apply _. Qed.

Lemma np_unique_NoDup l : NoDup (np_unique l).
Proof.
  unfold np_unique. rewrite merge_sort_Permutation. apply NoDup_remove_dups.
Qed.

(** [np.unique] depends only on the set of values. *)
Lemma np_unique_eq l1 l2 : np_unique l1 = np_unique l2 ↔ ∀ c, c ∈ l1 ↔ c ∈ l2.
Proof.
  split.
  - intros E c. by rewrite <- (np_unique_elem l1), <- (np_unique_elem l2), E.
  - intros H. apply (Sorted_unique Z.le); [apply np_unique_sorted..|].
    apply NoDup_Permutation; [apply np_unique_NoDup..|].
    intros c. by rewrite !np_unique_elem.
Qed.

Lemma sorted_np_unique l : sorted (np_unique l) = np_unique l.
Proof.
  apply (Sorted_unique Z.le).
  - apply Sorted_merge_sort. apply _.
  - apply np_unique_sorted.
  - apply merge_sort_Permutation.
Qed.

Lemma StronglySorted_le_lt (l : list Z) :
  StronglySorted Z.le l → NoDup l → StronglySorted Z.lt l.
Proof.
  induction 1 as [|a l Hl IH Ha]; intros Hnd; [constructor|].
  apply NoDup_cons in Hnd as [Hnotin Hnd]. constructor; [auto|].
  apply Forall_forall. intros x Hx.
  assert (a ≤ x) by (by eapply Forall_forall in Ha).
  assert (a ≠ x) by (by intros ->). lia.
Qed.

Lemma np_unique_ascending l : StronglySorted Z.lt (np_unique l).
Proof.
  apply StronglySorted_le_lt; [|apply np_unique_NoDup].
  apply Sorted_StronglySorted; [apply _ | apply np_unique_sorted].
Qed.

Section PlannerFacts.
Context {F : Type} `{!PyFloat F}.
Implicit Types (d : list (marker F)) (twopoint multipoint : option (list (marker F))).

Lemma dataset_chromosomes_unique d : dataset_chromosomes d = np_unique (chr <$> d).
Proof. apply sorted_np_unique. Qed.

Lemma dataset_chromosomes_elem d c :
  c ∈ dataset_chromosomes d ↔ ∃ m, m ∈ d ∧ chr m = c.
Proof.
  rewrite dataset_chromosomes_unique, np_unique_elem, list_elem_of_fmap.
  split; intros (m & H1 & H2); exists m; by split.
Qed.

Lemma available_chromosomes_both d1 d2 :
  available_chromosomes (Some d1) (Some d2)
  = if decide (dataset_chromosomes d1 ≠ dataset_chromosomes d2)
    then Err (ProgramError missing_chromosome_msg)
    else Ok (dataset_chromosomes d1).
Proof. reflexivity. Qed.

(** When the chromosomes are returned, they are those of every
    supplied dataset, and at least one dataset was supplied. *)
Lemma available_chromosomes_ok twopoint multipoint cs :
  available_chromosomes twopoint multipoint = Ok cs →
  supplied twopoint multipoint ≠ []
  ∧ ∀ d, d ∈ supplied twopoint multipoint → dataset_chromosomes d = cs.
Proof.
  destruct twopoint as [d1|], multipoint as [d2|]; unfold supplied; simpl.
  - rewrite available_chromosomes_both. case_decide as E; [done|].
    intros [= <-]. split; [done|].
    intros d. rewrite !elem_of_cons, elem_of_nil. intros [->|[->|[]]]; done.
  - intros [= <-]. split; [done|].
    intros d. rewrite !elem_of_cons, elem_of_nil. intros [->|[]]; done.
  - intros [= <-]. split; [done|].
    intros d. rewrite !elem_of_cons, elem_of_nil. intros [->|[]]; done.
  - done.
Qed.

Lemma np_max_ok (l : list F) : l ≠ [] → ∃ m, np_max l = Ok m.
Proof. destruct l; [done|]. simpl. eauto. Qed.

Lemma dataset_max_pos_ok d c :
  c ∈ dataset_chromosomes d → ∃ m, dataset_max_pos d c = Ok m.
Proof.
  intros (r & Hr & Hc)%dataset_chromosomes_elem. apply np_max_ok.
  intros E%fmap_nil_inv.
  assert (Hin : r ∈ filter (λ m, chr m = c) d) by (by apply list_elem_of_filter).
  rewrite E in Hin. by apply elem_of_nil in Hin.
Qed.

Lemma max_position_ok twopoint multipoint cs c :
  available_chromosomes twopoint multipoint = Ok cs →
  c ∈ cs →
  ∃ m, max_position twopoint multipoint c = Ok m.
Proof.
  intros [Hne Hall]%available_chromosomes_ok Hc. unfold max_position.
  assert (Hd : ∀ d, d ∈ supplied twopoint multipoint →
                 ∃ m, dataset_max_pos d c = Ok m).
  { intros d Hin. apply dataset_max_pos_ok. by rewrite (Hall d Hin). }
  unfold supplied in *.
  destruct twopoint as [d1|], multipoint as [d2|]; simpl in *.
  - destruct (Hd d1) as [m1 ->]; [left|].
    destruct (Hd d2) as [m2 ->]; [right; left|]. simpl. eauto.
  - destruct (Hd d1) as [m1 ->]; [left|]. simpl. eauto.
  - destruct (Hd d2) as [m2 ->]; [left|]. simpl. eauto.
  - done.
Qed.

(** The loop goes through when every chromosome has a maximum, and
    lays out one entry per chromosome, in order. *)
Lemma layout_loop_ok twopoint multipoint chr_spacing cs startingPos done :
  (∀ c, c ∈ cs → ∃ m, max_position twopoint multipoint c = Ok m) →
  ∃ final L,
    layout_loop twopoint multipoint chr_spacing cs startingPos done
    = Ok (final, done ++ L)
    ∧ chromosome <$> L = cs.
Proof.
  revert startingPos done.
  induction cs as [|c cs IH]; intros startingPos done Hmax.
  - exists startingPos, []. by rewrite app_nil_r.
  - destruct (Hmax c) as [m Hm]; [left|].
    cbn [layout_loop]. rewrite Hm. cbn [mbind result_bind].
    edestruct IH as (final & L & -> & HL).
    { intros c' Hc'. apply Hmax. by right. }
    eexists final, (_ :: L). rewrite <- app_assoc. split; [done|].
    by rewrite fmap_cons, HL.
Qed.

Lemma plan_layout_ok twopoint multipoint chr_spacing cs :
  (∀ c, c ∈ cs → ∃ m, max_position twopoint multipoint c = Ok m) →
  ∃ layout, plan_layout twopoint multipoint chr_spacing cs = Ok layout
            ∧ xticklabels layout = cs
            ∧ chromosome <$> chromosomes layout = cs.
Proof.
  intros Hmax. unfold plan_layout.
  edestruct (layout_loop_ok twopoint multipoint chr_spacing cs (of_Z 0) [])
    as (final & L & -> & HL); [done|].
  cbn [mbind result_bind]. eexists. split; [done|]. simpl. done.
Qed.

(** A loop that went through found a maximum for every chromosome. *)
Lemma layout_loop_inv twopoint multipoint chr_spacing cs startingPos done res :
  layout_loop twopoint multipoint chr_spacing cs startingPos done = Ok res →
  ∀ c, c ∈ cs → ∃ m, max_position twopoint multipoint c = Ok m.
Proof.
  revert startingPos done.
  induction cs as [|c cs IH]; intros startingPos done Hloop c' Hc'.
  - by apply elem_of_nil in Hc'.
  - cbn [layout_loop] in Hloop.
    destruct (max_position twopoint multipoint c) as [m|e] eqn:Hm; [|done].
    cbn [mbind result_bind] in Hloop.
    apply elem_of_cons in Hc' as [->|Hc']; [eauto|]. by eapply IH.
Qed.

Lemma plan_layout_inv twopoint multipoint chr_spacing cs layout :
  plan_layout twopoint multipoint chr_spacing cs = Ok layout →
  ∀ c, c ∈ cs → ∃ m, max_position twopoint multipoint c = Ok m.
Proof.
  unfold plan_layout. intros Hplan.
  destruct (layout_loop _ _ _ _ _ _) as [res|e] eqn:Hloop; [|done].
  by eapply layout_loop_inv.
Qed.

Lemma layout_loop_nil_acc twopoint multipoint chr_spacing cs startingPos done :
  layout_loop twopoint multipoint chr_spacing cs startingPos done
  = '(final, L) ← layout_loop twopoint multipoint chr_spacing cs startingPos [];
    Ok (final, done ++ L).
Proof.
  revert startingPos done. induction cs as [|c cs IH]; intros s done.
  - simpl. by rewrite app_nil_r.
  - cbn [layout_loop].
    destruct (max_position twopoint multipoint c) as [m|e];
      cbn [mbind result_bind]; [|done].
    rewrite (IH _ (done ++ _)), (IH _ ([] ++ _)).
    destruct (layout_loop _ _ _ cs _ []) as [[final L]|e];
      cbn [mbind result_bind]; [|done].
    by rewrite <- app_assoc.
Qed.

(** Consecutive entries of the loop: where an entry starts, and what
    the next one is computed from. *)
Lemma layout_loop_adjacent twopoint multipoint chr_spacing cs :
  ∀ startingPos final L,
    layout_loop twopoint multipoint chr_spacing cs startingPos [] = Ok (final, L) →
    (∀ a, L !! 0%nat = Some a →
          start_offset a = startingPos
          ∧ box_min a = fsub startingPos (fdiv chr_spacing (of_Z 2)))
    ∧ ∀ i a b,
        L !! i = Some a → L !! S i = Some b →
        ∃ maxPos,
          max_position twopoint multipoint (chromosome a) = Ok maxPos
          ∧ start_offset b = fadd (fadd maxPos (start_offset a)) chr_spacing
          ∧ box_max a
            = fadd (fadd maxPos (start_offset a)) (fdiv chr_spacing (of_Z 2))
          ∧ box_min b = fsub (start_offset b) (fdiv chr_spacing (of_Z 2)).
Proof.
  induction cs as [|c cs IH]; intros s final L Hloop.
  - simpl in Hloop. injection Hloop as <- <-. by split.
  - cbn [layout_loop] in Hloop.
    destruct (max_position twopoint multipoint c) as [m|] eqn:Hm;
      cbn [mbind result_bind] in Hloop; [|done].
    rewrite layout_loop_nil_acc in Hloop.
    destruct (layout_loop _ _ _ cs _ []) as [[f L']|] eqn:Hl';
      cbn [mbind result_bind] in Hloop; [|done].
    injection Hloop as <- <-.
    destruct (IH _ _ _ Hl') as [Hfirst Hadj]. split.
    + intros a [= <-]. done.
    + intros [|i] a b Ha Hb.
      * injection Ha as <-. destruct (Hfirst b Hb) as [Hs Hb'].
        exists m. simpl. rewrite Hs, Hb'. done.
      * by apply (Hadj i).
Qed.

Lemma np_min_ok (l : list F) : l ≠ [] → ∃ m, np_min l = Ok m.
Proof. destruct l; [done|]. simpl. eauto. Qed.

Lemma dataset_conf_limits_ok d : d ≠ [] → ∃ x, dataset_conf_limits d = Ok x.
Proof.
  intros Hd. unfold dataset_conf_limits.
  assert (Hc : conf <$> d ≠ []) by (by intros ?%fmap_nil_inv).
  destruct (np_min_ok _ Hc) as [lo ->], (np_max_ok _ Hc) as [hi ->].
  simpl. eauto.
Qed.

(** The limits are computed when a dataset was supplied and every
    supplied dataset has a row. *)
Lemma conf_limits_ok twopoint multipoint :
  supplied twopoint multipoint ≠ [] →
  (∀ d, d ∈ supplied twopoint multipoint → d ≠ []) →
  ∃ limits, conf_limits twopoint multipoint = Ok limits.
Proof.
  unfold supplied, conf_limits. intros Hne Hall.
  destruct twopoint as [d1|], multipoint as [d2|]; simpl in *.
  - destruct (dataset_conf_limits_ok d1) as [x1 ->]; [apply Hall; left|].
    destruct (dataset_conf_limits_ok d2) as [x2 ->]; [apply Hall; right; left|].
    simpl. eauto.
  - destruct (dataset_conf_limits_ok d1) as [x1 ->]; [apply Hall; left|].
    simpl. eauto.
  - destruct (dataset_conf_limits_ok d2) as [x2 ->]; [apply Hall; left|].
    simpl. eauto.
  - done.
Qed.

Lemma create_manhattan_plot_ok twopoint multipoint phys_pos_flag cs :
  available_chromosomes twopoint multipoint = Ok cs →
  (∀ d, d ∈ supplied twopoint multipoint → d ≠ []) →
  ∃ p, create_manhattan_plot false twopoint multipoint phys_pos_flag = Ok p
       ∧ plan_layout twopoint multipoint (spacing_preset phys_pos_flag) cs
         = Ok (axis p)
       ∧ xticklabels (axis p) = cs
       ∧ chromosome <$> chromosomes (axis p) = cs.
Proof.
  intros Hcs Hall. unfold create_manhattan_plot. rewrite Hcs.
  cbn [mbind result_bind open_figure].
  destruct (available_chromosomes_ok _ _ _ Hcs) as [Hne _].
  destruct (conf_limits_ok _ _ Hne Hall) as [limits ->].
  cbn [mbind result_bind].
  destruct (plan_layout_ok twopoint multipoint (spacing_preset phys_pos_flag) cs)
    as (layout & Hplan & Hx & Hc).
  { intros c Hc. by eapply max_position_ok. }
  rewrite Hplan. cbn [mbind result_bind]. eexists. split; [done|]. done.
Qed.

(** C3. With both datasets supplied: when their chromosome sets
    differ, the chromosome check raises the ProgramError about a
    missing chromosome, before the figure is opened, and nothing is
    laid out; when the sets are the same (and the datasets have rows,
    as every dataset that was read has), the check passes and, the
    figure once opened, a layout with one entry per chromosome is
    produced. *)
Theorem chromosome_sets_must_match (d1 d2 : list (marker F))
    (phys_pos_flag tcl_error : bool) :
  (¬ (∀ c, c ∈ chr <$> d1 ↔ c ∈ chr <$> d2) →
     available_chromosomes (Some d1) (Some d2)
       = Err (ProgramError missing_chromosome_msg)
     ∧ create_manhattan_plot tcl_error (Some d1) (Some d2) phys_pos_flag
       = Err (ProgramError missing_chromosome_msg))
  ∧ ((∀ c, c ∈ chr <$> d1 ↔ c ∈ chr <$> d2) →
     available_chromosomes (Some d1) (Some d2) = Ok (dataset_chromosomes d1)
     ∧ (d1 ≠ [] →
        ∃ p,
          create_manhattan_plot false (Some d1) (Some d2) phys_pos_flag = Ok p
          ∧ xticklabels (axis p) = dataset_chromosomes d1
          ∧ chromosome <$> chromosomes (axis p) = dataset_chromosomes d1)).
Proof.
  assert (Heq : dataset_chromosomes d1 = dataset_chromosomes d2
                ↔ ∀ c, c ∈ chr <$> d1 ↔ c ∈ chr <$> d2).
  { rewrite !dataset_chromosomes_unique. apply np_unique_eq. }
  split.
  - intros Hdiff.
    assert (Hav : available_chromosomes (Some d1) (Some d2)
                  = Err (ProgramError missing_chromosome_msg)).
    { rewrite available_chromosomes_both. rewrite decide_True; [done|].
      by rewrite Heq. }
    split; [done|]. unfold create_manhattan_plot. by rewrite Hav.
  - intros Hsame.
    assert (Hav : available_chromosomes (Some d1) (Some d2)
                  = Ok (dataset_chromosomes d1)).
    { rewrite available_chromosomes_both. rewrite decide_False; [done|].
      intros Hne. apply Hne. by apply Heq. }
    split; [done|]. intros Hd1.
    assert (Hd2 : d2 ≠ []).
    { destruct d1 as [|m d1]; [done|]. intros ->.
      assert (Hin : chr m ∈ chr <$> []) by (apply Hsame; left).
      by apply elem_of_nil in Hin. }
    destruct (create_manhattan_plot_ok (Some d1) (Some d2) phys_pos_flag _ Hav)
      as (p & Hp & _ & Hx & Hc).
    { unfold supplied. simpl. intros d.
      rewrite !elem_of_cons, elem_of_nil. intros [->|[->|[]]]; done. }
    by exists p.
Qed.

End PlannerFacts.

Lemma chromosome_sets_must_match_witness :
  ¬ (∀ c, c ∈ chr <$> [r1; r5] ↔ c ∈ chr <$> [r2])
  ∧ create_manhattan_plot false (Some [r1; r5]) (Some [r2]) false
    = Err (ProgramError missing_chromosome_msg).
Proof.
  assert (Hdiff : ¬ (∀ c, c ∈ chr <$> [r1; r5] ↔ c ∈ chr <$> [r2])).
  { intros H. assert (H5 : 5 ∈ chr <$> [r2]) by (apply H; simpl; right; left).
    simpl in H5. apply list_elem_of_singleton in H5. discriminate H5. }
  split; [exact Hdiff|].
  exact (proj2 (proj1 (chromosome_sets_must_match [r1; r5] [r2] false false)
                  Hdiff)).
Defined.

(** ** Axis layout over the reals *)

Local Open Scope R_scope.

Lemma fmax_real (a b : R) :
  (fmax a b = a ∨ fmax a b = b) ∧ a <= fmax a b ∧ b <= fmax a b.
Proof.
  unfold fmax. destruct (decide (fle b a)) as [H|H]; simpl in H; lra.
Qed.

Lemma foldl_fmax_real (l : list R) (x : R) :
  foldl fmax x l ∈ x :: l ∧ ∀ y, y ∈ x :: l → y <= foldl fmax x l.
Proof.
  revert x. induction l as [|a l IH]; intros x; simpl.
  - split; [left|]. intros y ->%list_elem_of_singleton. lra.
  - destruct (IH (fmax x a)) as [Hin Hub].
    destruct (fmax_real x a) as (Hor & Hx & Ha). split.
    + apply elem_of_cons in Hin as [E|Hin]; [|by do 2 right].
      rewrite E. destruct Hor as [-> | ->]; [left | right; left].
    + intros y [->|[->|Hy]%elem_of_cons]%elem_of_cons.
      * etrans; [exact Hx|]. apply Hub. left.
      * etrans; [exact Ha|]. apply Hub. left.
      * apply Hub. by right.
Qed.

Lemma np_max_real (l : list R) (m : R) :
  np_max l = Ok m → m ∈ l ∧ ∀ y, y ∈ l → y <= m.
Proof.
  destruct l as [|x l]; [done|]. intros [= <-]. apply foldl_fmax_real.
Qed.

Lemma dataset_max_pos_real (d : list (marker R)) (c : Z) (m : R) :
  dataset_max_pos d c = Ok m →
  (∃ r, r ∈ d ∧ chr r = c ∧ pos r = m)
  ∧ (∀ r, r ∈ d → chr r = c → pos r <= m).
Proof.
  intros [Hin Hub]%np_max_real. split.
  - apply list_elem_of_fmap in Hin as (r & -> & [Hc Hr]%list_elem_of_filter).
    by exists r.
  - intros r Hr Hc. apply Hub. apply list_elem_of_fmap. exists r.
    split; [done|]. by apply list_elem_of_filter.
Qed.

Lemma max_position_real twopoint multipoint (c : Z) (m : R) :
  max_position twopoint multipoint c = Ok m →
  largest_position twopoint multipoint c m.
Proof.
  unfold max_position, largest_position, supplied.
  destruct twopoint as [d1|], multipoint as [d2|]; simpl.
  - destruct (dataset_max_pos d1 c) as [m1|] eqn:H1; [|done].
    destruct (dataset_max_pos d2 c) as [m2|] eqn:H2; [|done]. simpl.
    intros [= <-].
    apply dataset_max_pos_real in H1 as ((x1 & Hx1 & Hc1 & Hp1) & Hub1).
    apply dataset_max_pos_real in H2 as ((x2 & Hx2 & Hc2 & Hp2) & Hub2).
    destruct (fmax_real m1 m2) as (Hor & Hm1 & Hm2). split.
    + destruct Hor as [-> | ->].
      * exists d1, x1. split; [left|done].
      * exists d2, x2. split; [right; left|done].
    + intros d r [->|[->|[]%elem_of_nil]%elem_of_cons]%elem_of_cons Hr Hc.
      * etrans; [by apply Hub1|done].
      * etrans; [by apply Hub2|done].
  - destruct (dataset_max_pos d1 c) as [m1|] eqn:H1; [|done]. simpl.
    intros [= <-].
    apply dataset_max_pos_real in H1 as ((x1 & Hx1 & Hc1 & Hp1) & Hub1). split.
    + exists d1, x1. split; [left|done].
    + intros d r [->|[]%elem_of_nil]%elem_of_cons Hr Hc. by apply Hub1.
  - destruct (dataset_max_pos d2 c) as [m2|] eqn:H2; [|done]. simpl.
    intros [= <-].
    apply dataset_max_pos_real in H2 as ((x2 & Hx2 & Hc2 & Hp2) & Hub2). split.
    + exists d2, x2. split; [left|done].
    + intros d r [->|[]%elem_of_nil]%elem_of_cons Hr Hc. by apply Hub2.
  - done.
Qed.

(** The loop computes what [planner_spec] describes. *)
Lemma layout_loop_spec twopoint multipoint (spacing : R) (cs : list Z)
    (cursor : R) (done : list (chromosome_layout R)) :
  (∀ c, c ∈ cs → ∃ m, max_position twopoint multipoint c = Ok m) →
  ∃ final,
    layout_loop twopoint multipoint spacing cs cursor done
    = Ok (final,
          done ++ planner_spec (max_pos_of twopoint multipoint) spacing cs cursor).
Proof.
  revert cursor done.
  induction cs as [|c cs IH]; intros cursor done Hmax.
  - exists cursor. simpl. by rewrite app_nil_r.
  - destruct (Hmax c) as [m Hm]; [left|].
    cbn [layout_loop planner_spec]. rewrite Hm. cbn [mbind result_bind].
    assert (Hof : max_pos_of twopoint multipoint c = m)
      by (unfold max_pos_of; by rewrite Hm).
    rewrite Hof. cbn [fadd fsub fdiv of_Z RealFloat].
    replace (m + cursor + spacing) with (cursor + m + spacing) by lra.
    replace (m + cursor + spacing / 2) with (cursor + m + spacing / 2) by lra.
    edestruct IH as (final & ->).
    { intros c' Hc'. apply Hmax. by right. }
    exists final. by rewrite <- app_assoc.
Qed.

Lemma plan_layout_spec twopoint multipoint (spacing : R) (cs : list Z) :
  (∀ c, c ∈ cs → ∃ m, max_position twopoint multipoint c = Ok m) →
  ∃ layout,
    plan_layout twopoint multipoint spacing cs = Ok layout
    ∧ chromosomes layout
      = planner_spec (max_pos_of twopoint multipoint) spacing cs 0
    ∧ ticks layout = tick <$> chromosomes layout
    ∧ xticklabels layout = cs.
Proof.
  intros Hmax. unfold plan_layout.
  edestruct (layout_loop_spec twopoint multipoint spacing cs 0 [])
    as (final & Hloop); [done|].
  cbn [of_Z RealFloat]. rewrite Hloop. cbn [mbind result_bind].
  eexists. split; [done|]. done.
Qed.

Lemma available_chromosomes_ascending
    (twopoint multipoint : option (list (marker R))) cs :
  available_chromosomes twopoint multipoint = Ok cs →
  StronglySorted Z.lt cs
  ∧ ∀ c, c ∈ cs ↔ ∃ d r, d ∈ supplied twopoint multipoint ∧ r ∈ d ∧ chr r = c.
Proof.
  intros [Hne Hall]%available_chromosomes_ok.
  destruct (supplied twopoint multipoint) as [|d0 ds] eqn:Hsup; [done|].
  assert (H0 : dataset_chromosomes d0 = cs) by (apply Hall; left).
  split.
  - rewrite <- H0, dataset_chromosomes_unique. apply np_unique_ascending.
  - intros c. split.
    + rewrite <- H0. intros (r & Hr & Hc)%dataset_chromosomes_elem.
      exists d0, r. split; [left|done].
    + intros (d & r & Hd & Hr & Hc). rewrite <- (Hall d Hd).
      apply dataset_chromosomes_elem. by exists r.
Qed.

Lemma max_pos_of_largest twopoint multipoint c m :
  max_position twopoint multipoint c = Ok m →
  max_pos_of twopoint multipoint c = m
  ∧ largest_position twopoint multipoint c (max_pos_of twopoint multipoint c).
Proof.
  intros Hm. unfold max_pos_of. rewrite Hm. split; [done|].
  by apply max_position_real.
Qed.

Lemma planner_spec_monotone (maxp : Z → R) (spacing : R) (cs : list Z) :
  0 < spacing →
  (∀ c, c ∈ cs → 0 <= maxp c) →
  ∀ cursor i a b,
    planner_spec maxp spacing cs cursor !! i = Some a →
    planner_spec maxp spacing cs cursor !! S i = Some b →
    start_offset a < start_offset b ∧ box_max a <= box_min b.
Proof.
  intros Hs. induction cs as [|c cs IH]; intros Hpos cursor i a b; [done|].
  assert (Hc : 0 <= maxp c) by (apply Hpos; left).
  destruct i as [|i]; cbn [planner_spec lookup list_lookup].
  - intros [= <-]. destruct cs as [|c' cs]; [done|].
    cbn [planner_spec lookup list_lookup]. intros [= <-]. simpl. lra.
  - apply IH. intros c' Hc'. apply Hpos. by right.
Qed.

(** C1. The chromosomes are visited in ascending order with a cursor
    starting at 0; each gets start offset = cursor, box from
    cursor - spacing/2 to cursor + largest position + spacing/2, tick
    at the middle of the box, and the cursor then moves on by largest
    position + spacing.  For the two-point dataset with positions 10
    and 20 on chromosome 1 the single entry starts at 0 and its box
    ends at 20 + spacing/2. *)
Theorem axis_layout_algorithm :
  (∀ (twopoint multipoint : option (list (marker R))) (spacing : R) (cs : list Z),
     available_chromosomes twopoint multipoint = Ok cs →
     StronglySorted Z.lt cs
     ∧ (∀ c, c ∈ cs →
          largest_position twopoint multipoint c
            (max_pos_of twopoint multipoint c))
     ∧ ∃ layout,
         plan_layout twopoint multipoint spacing cs = Ok layout
         ∧ chromosomes layout
           = planner_spec (max_pos_of twopoint multipoint) spacing cs 0
         ∧ ticks layout = tick <$> chromosomes layout
         ∧ xticklabels layout = cs)
  ∧ (∀ phys_pos_flag : bool,
     ∃ p entry,
       create_manhattan_plot false (Some [r1; r2]) None phys_pos_flag = Ok p
       ∧ chromosomes (axis p) = [entry]
       ∧ chromosome entry = 1%Z
       ∧ start_offset entry = 0
       ∧ box_max entry = 20 + spacing_preset phys_pos_flag / 2).
Proof.
  split.
  - intros twopoint multipoint spacing cs Hcs.
    split; [by apply available_chromosomes_ascending in Hcs as [? _]|].
    split.
    + intros c Hc. destruct (max_position_ok _ _ _ _ Hcs Hc) as [m Hm].
      by apply max_pos_of_largest in Hm as [_ ?].
    + apply plan_layout_spec. intros c Hc. by eapply max_position_ok.
  - intros flag.
    assert (Hcs : available_chromosomes (Some [r1; r2]) None = Ok [1%Z])
      by (vm_compute; reflexivity).
    destruct (create_manhattan_plot_ok (Some [r1; r2]) None flag _ Hcs)
      as (p & Hp & Hplan & _).
    { unfold supplied. simpl. intros d ->%list_elem_of_singleton. done. }
    destruct (plan_layout_spec (Some [r1; r2]) None (spacing_preset flag) [1%Z])
      as (layout & Hplan' & Hchrs & _).
    { intros c Hc. by eapply max_position_ok. }
    rewrite Hplan in Hplan'. injection Hplan' as <-.
    destruct (max_position_ok _ _ _ 1%Z Hcs) as [m Hm]; [left|].
    apply max_pos_of_largest in Hm as [_ [Hat Hub]].
    assert (Hmax : max_pos_of (Some [r1; r2]) None 1 = 20).
    { destruct Hat as (d & r & Hd & Hr & _ & Hpos).
      assert (H20 : pos r2 <= max_pos_of (Some [r1; r2]) None 1).
      { apply (Hub [r1; r2]); [left | right; left | done]. }
      apply list_elem_of_singleton in Hd as ->.
      rewrite !elem_of_cons, elem_of_nil in Hr.
      destruct Hr as [-> | [-> | []]]; simpl in *; lra. }
    eexists p, _. split; [exact Hp|]. rewrite Hchrs.
    cbn [planner_spec]. split; [reflexivity|]. rewrite Hmax. simpl.
    repeat split; lra.
Qed.

Lemma axis_layout_algorithm_witness :
  available_chromosomes (Some [r1; r2]) None = Ok [1%Z]
  ∧ ∃ layout,
      plan_layout (Some [r1; r2]) None 25 [1%Z] = Ok layout
      ∧ chromosomes layout
        = planner_spec (max_pos_of (Some [r1; r2]) None) 25 [1%Z] 0.
Proof.
  assert (Hcs : available_chromosomes (Some [r1; r2]) None = Ok [1%Z])
    by (vm_compute; reflexivity).
  split; [exact Hcs|].
  destruct (proj1 axis_layout_algorithm (Some [r1; r2]) None 25 [1%Z] Hcs)
    as (_ & _ & layout & Hplan & Hchrs & _).
  exists layout. by split.
Defined.

(** C2 (amended). Each entry of the layout starts at the previous
    start plus the previous chromosome's largest position plus the
    spacing, and the end of a box and the beginning of the next are
    two computations of one point: start + largest position +
    spacing/2 and next start - spacing/2.  In exact arithmetic, with a
    positive spacing and non-negative largest positions, the starts
    increase strictly and no box begins before the previous one ends;
    the floats of the program round the two bounds separately. *)
Theorem axis_layout_monotone :
  (∀ (F : Type) (HF : PyFloat F)
     (twopoint multipoint : option (list (marker F))) (spacing : F)
     (cs : list Z) (layout : axis_layout F),
     plan_layout twopoint multipoint spacing cs = Ok layout →
     ∀ i a b,
       chromosomes layout !! i = Some a →
       chromosomes layout !! S i = Some b →
       ∃ maxPos,
         max_position twopoint multipoint (chromosome a) = Ok maxPos
         ∧ start_offset b = fadd (fadd maxPos (start_offset a)) spacing
         ∧ box_max a = fadd (fadd maxPos (start_offset a)) (fdiv spacing (of_Z 2))
         ∧ box_min b = fsub (start_offset b) (fdiv spacing (of_Z 2)))
  ∧ (∀ (twopoint multipoint : option (list (marker R))) (spacing : R)
       (cs : list Z) (layout : axis_layout R),
       plan_layout twopoint multipoint spacing cs = Ok layout →
       0 < spacing →
       (∀ c m, c ∈ cs → max_position twopoint multipoint c = Ok m → 0 <= m) →
       ∀ i a b,
         chromosomes layout !! i = Some a →
         chromosomes layout !! S i = Some b →
         start_offset a < start_offset b ∧ box_max a <= box_min b).
Proof.
  split.
  - intros F HF twopoint multipoint spacing cs layout Hplan.
    unfold plan_layout in Hplan.
    destruct (layout_loop _ _ _ cs _ []) as [[final L]|] eqn:Hloop;
      cbn [mbind result_bind] in Hplan; [|done].
    injection Hplan as <-. simpl.
    by apply (layout_loop_adjacent _ _ _ _ _ _ _ Hloop).
  - intros twopoint multipoint spacing cs layout Hplan Hs Hpos.
    pose proof (plan_layout_inv _ _ _ _ _ Hplan) as Hmax.
    destruct (plan_layout_spec _ _ spacing _ Hmax)
      as (layout' & Hplan' & Hchrs & _).
    rewrite Hplan in Hplan'. injection Hplan' as <-.
    rewrite Hchrs. apply planner_spec_monotone; [done|].
    intros c Hc. destruct (Hmax c Hc) as [m Hm].
    destruct (max_pos_of_largest _ _ _ _ Hm) as [-> _]. by apply (Hpos c).
Qed.

Lemma axis_layout_monotone_witness :
  ∃ layout,
    plan_layout (Some [r1; r5]) None 25 [1%Z; 5%Z] = Ok layout
    ∧ 0 < 25
    ∧ ∀ i a b,
        chromosomes layout !! i = Some a →
        chromosomes layout !! S i = Some b →
        start_offset a < start_offset b ∧ box_max a <= box_min b.
Proof.
  assert (Hcs : available_chromosomes (Some [r1; r5]) None = Ok [1%Z; 5%Z])
    by (vm_compute; reflexivity).
  destruct (plan_layout_spec (Some [r1; r5]) None 25 [1%Z; 5%Z])
    as (layout & Hplan & _).
  { intros c Hc. by eapply max_position_ok. }
  exists layout. split; [exact Hplan|]. split; [lra|].
  apply (proj2 axis_layout_monotone (Some [r1; r5]) None 25 _ layout Hplan); [lra|].
  intros c m _ Hm. apply max_position_real in Hm as [(d & r & Hd & Hr & _ & <-) _].
  apply list_elem_of_singleton in Hd as ->.
  rewrite !elem_of_cons, elem_of_nil in Hr.
  destruct Hr as [-> | [-> | []]]; simpl; lra.
Defined.

Local Close Scope R_scope.

(** ** Axis layout on binary64 *)

(** The floats of the program round the end of a box and the
    beginning of the next one apart.  With the largest position 7.3 on
    chromosome 1 and the spacing 25.0, the box of chromosome 1 ends at
    (7.3 + 0) + 12.5 = 19.800000000000001 and the box of chromosome 2
    begins at ((7.3 + 0) + 25.0) - 12.5 = 19.799999999999997. *)
Lemma binary64_boxes_overlap :
  ∃ a b : chromosome_layout PrimFloat.float,
    (∀ parse lg,
       available_chromosomes (Some [b1; b2]) None = Ok [1; 2]
       ∧ ∃ layout,
           @plan_layout _ (Binary64 parse lg) (Some [b1; b2]) None
             (float_of_Z 25) [1; 2] = Ok layout
           ∧ chromosomes layout = [a; b])
    ∧ PrimFloat.ltb PrimFloat.zero (float_of_Z 25) = true
    ∧ PrimFloat.leb PrimFloat.zero (pos b1) = true
    ∧ PrimFloat.leb PrimFloat.zero (pos b2) = true
    ∧ box_max a = PrimFloat.add (PrimFloat.add f7_3 (float_of_Z 0))
                    (PrimFloat.div (float_of_Z 25) (float_of_Z 2))
    ∧ box_min b = PrimFloat.sub
                    (PrimFloat.add (PrimFloat.add f7_3 (float_of_Z 0))
                       (float_of_Z 25))
                    (PrimFloat.div (float_of_Z 25) (float_of_Z 2))
    ∧ PrimFloat.leb (box_max a) (box_min b) = false
    ∧ PrimFloat.ltb (box_min b) (box_max a) = true.
Proof.
  eexists _, _. split.
  - intros parse lg. split; [vm_compute; reflexivity|].
    eexists. split; [vm_compute; reflexivity|]. reflexivity.
  - vm_compute. repeat split.
Qed.

(** * Further properties of the reader *)

(** ** The header dictionary *)

Lemma header_index_from (row : list string) (m : gmap string nat)
    (k : nat) (col : string) (v : nat) :
  foldl (λ m p, <[p.1 := p.2]> m) m (imap (λ i c, (c, (k + i)%nat)) row) !! col
    = Some v ↔
  (∃ i, v = (k + i)%nat ∧ row !! i = Some col
        ∧ ∀ j, (i < j)%nat → row !! j ≠ Some col)
  ∨ ((col ∉ row) ∧ m !! col = Some v).
Proof.
  revert m k. induction row as [|c row IH]; intros m k.
  - simpl. split.
    + intros H. right. split; [apply not_elem_of_nil | done].
    + intros [(i & _ & H & _) | [_ H]]; done.
  - rewrite imap_cons. cbn [foldl].
    rewrite (imap_ext _ (λ i c, (c, (S k + i)%nat))); last first.
    { intros i x _. simpl. f_equal. lia. }
    rewrite IH. cbn [fst snd]. split.
    + intros [(i & -> & Hi & Hlast) | [Hnin Hm]].
      * left. exists (S i). split; [lia|]. split; [done|].
        intros [|j] Hj; [lia|]. simpl. apply Hlast. lia.
      * destruct (decide (c = col)) as [->|Hne].
        -- rewrite lookup_insert_eq in Hm. injection Hm as <-.
           left. exists 0%nat. split; [lia|]. split; [done|].
           intros [|j] Hj; [lia|]. simpl. intros Hc. apply Hnin.
           by eapply list_elem_of_lookup_2.
        -- rewrite lookup_insert_ne in Hm by done. right. split; [|done].
           apply not_elem_of_cons. split; [congruence|done].
    + intros [(i & -> & Hi & Hlast) | [Hnin Hm]].
      * destruct i as [|i].
        -- simpl in Hi. injection Hi as ->. right. split.
           ++ intros [j Hj]%list_elem_of_lookup. by apply (Hlast (S j)); [lia|].
           ++ by rewrite lookup_insert_eq.
        -- left. exists i. split; [lia|]. split; [done|].
           intros j Hj. apply (Hlast (S j)). lia.
      * apply not_elem_of_cons in Hnin as [Hne Hnin]. right. split; [done|].
        by rewrite lookup_insert_ne.
Qed.

Lemma header_index_Some (row : list string) (col : string) (i : nat) :
  header_index row !! col = Some i ↔
  row !! i = Some col ∧ ∀ j, (i < j)%nat → row !! j ≠ Some col.
Proof.
  unfold header_index.
  rewrite (header_index_from row ∅ 0 col i). split.
  - intros [(i' & -> & Hi & Hlast) | [_ H]]; [done|].
    by rewrite lookup_empty in H.
  - intros [Hi Hlast]. left. by exists i.
Qed.

Lemma header_index_None (row : list string) (col : string) :
  header_index row !! col = None ↔ col ∉ row.
Proof.
  split.
  - intros Hnone Hin.
    assert (∃ i, row !! i = Some col ∧ ∀ j, (i < j)%nat → row !! j ≠ Some col)
      as (i & Hi).
    { clear Hnone. induction row as [|c row IH]; [by apply elem_of_nil in Hin|].
      destruct (decide (col ∈ row)) as [Hr|Hr].
      - destruct (IH Hr) as (i & Hi & Hlast). exists (S i). split; [done|].
        intros [|j] Hj; [lia|]. apply Hlast. lia.
      - apply elem_of_cons in Hin as [->|Hin]; [|done]. exists 0%nat.
        split; [done|]. intros [|j] Hj; [lia|]. simpl. intros Hc.
        apply Hr. by eapply list_elem_of_lookup_2. }
    apply header_index_Some in Hi. by rewrite Hnone in Hi.
  - intros Hnin. destruct (header_index row !! col) as [i|] eqn:E; [|done].
    apply header_index_Some in E as [Hi _]. exfalso. apply Hnin.
    by eapply list_elem_of_lookup_2.
Qed.

(** X2. A cell is fetched by the name of its column, wherever the
    column stands: it is the cell under the last header cell with that
    name.  A name absent from the header is a missing key, and a row
    too short for the column is an index out of range. *)
Theorem field_by_column_name (header row : list string) (col : string) :
  (col ∉ header → field (header_index header) row col = Err KeyError)
  ∧ (∀ i, header !! i = Some col →
          (∀ j, (i < j)%nat → header !! j ≠ Some col) →
          field (header_index header) row col = of_option (row !! i) IndexError).
Proof.
  split.
  - intros Hnin%header_index_None. unfold field. by rewrite Hnin.
  - intros i Hi Hlast.
    assert (H : header_index header !! col = Some i)
      by (by apply header_index_Some).
    unfold field. by rewrite H.
Qed.

Lemma field_by_column_name_witness :
  ["name"; "lod"; "chr"; "cm"] !! 2%nat = Some "chr"
  ∧ field (header_index ["name"; "lod"; "chr"; "cm"])
      ["rs1"; "2.5"; "7"; "10"] "chr" = Ok "7".
Proof.
  split; [reflexivity|].
  apply (proj2 (field_by_column_name ["name"; "lod"; "chr"; "cm"]
                  ["rs1"; "2.5"; "7"; "10"] "chr") 2%nat); [reflexivity|].
  intros [|[|[|[|j]]]] Hj; try lia; simpl; discriminate.
Defined.

(** ** The header check *)

Lemma check_columns_ok f (headerIndex : gmap string nat) cols :
  check_columns f headerIndex cols = Ok tt ↔
  ∀ c, c ∈ cols → is_Some (headerIndex !! c).
Proof.
  induction cols as [|c cols IH]; simpl.
  - split; [|done]. intros _ c Hc. by apply elem_of_nil in Hc.
  - destruct (headerIndex !! c) as [i|] eqn:E.
    + rewrite IH. split.
      * intros H c' [->|Hc']%elem_of_cons; [by rewrite E|auto].
      * intros H c' Hc'. apply H. by right.
    + split; [done|]. intros H. destruct (H c) as [? Hc]; [left|].
      by rewrite E in Hc.
Qed.

Lemma check_columns_first_missing f (headerIndex : gmap string nat) pre col post :
  (∀ c, c ∈ pre → is_Some (headerIndex !! c)) →
  headerIndex !! col = None →
  check_columns f headerIndex (pre ++ col :: post)
  = Err (ProgramError (f +:+ ": no column named " +:+ col)).
Proof.
  induction pre as [|c pre IH]; intros Hpre Hcol; simpl.
  - by rewrite Hcol.
  - destruct (Hpre c) as [i ->]; [left|]. apply IH; [|done].
    intros c' Hc'. apply Hpre. by right.
Qed.

Lemma parse_line_tsv_header :
  parse_line (tsv ["chr"; "name"; "cm"; "p_value"]) = ["chr"; "name"; "cm"; "p_value"].
Proof. reflexivity. Qed.

Section ReaderMore.
Context {F : Type} `{!PyFloat F}.

(** X1. When a required column is absent from the header line, the
    read aborts with the ProgramError naming the file and the first
    absent column (in the order chromosome, name, position,
    confidence), whatever the data lines hold. *)
Theorem missing_column_aborts f upp upv o header rest pre col post :
  required_columns upp upv o = pre ++ col :: post →
  (∀ c, c ∈ pre → c ∈ parse_line header) →
  col ∉ parse_line header →
  read_input_file (F:=F) (header :: rest) f upp upv o
  = Err (ProgramError (f +:+ ": no column named " +:+ col)).
Proof.
  intros Hreq Hpre Hcol. unfold read_input_file, read_lines. rewrite Hreq.
  rewrite check_columns_first_missing; [done| |by apply header_index_None].
  intros c Hc. destruct (header_index (parse_line header) !! c) eqn:E; [eauto|].
  apply header_index_None in E. exfalso. by apply E, Hpre.
Qed.

Lemma encode_chr_error label e :
  encode_chr label = Err e → ∃ msg, e = ProgramError msg.
Proof.
  unfold encode_chr.
  repeat match goal with
         | |- context [String.eqb ?a ?b] => destruct (String.eqb a b); [done|]
         end.
  destruct (py_int _); [done|]. intros [= <-]. eauto.
Qed.

Lemma field_present (headerIndex : gmap string nat) row col e :
  is_Some (headerIndex !! col) →
  field headerIndex row col = Err e → e = IndexError.
Proof.
  intros [i Hi]. unfold field. rewrite Hi. cbn [of_option mbind result_bind].
  destruct (row !! i); [done|]. by intros [= <-].
Qed.

(** The exceptions one data line can raise once the header has been
    accepted. *)
Lemma read_row_error f upp upv o headerIndex row e :
  check_columns f headerIndex (required_columns upp upv o) = Ok tt →
  read_row (F:=F) f upp upv o headerIndex row = Err e →
  e = IndexError ∨ ∃ msg, e = ProgramError msg.
Proof.
  intros Hcols0. pose proof (proj1 (check_columns_ok _ _ _) Hcols0) as Hcols.
  assert (Hchr : is_Some (headerIndex !! col_chr o))
    by (apply Hcols; unfold required_columns; set_solver).
  assert (Hname : is_Some (headerIndex !! col_name o))
    by (apply Hcols; unfold required_columns; set_solver).
  assert (Hpos : is_Some (headerIndex !! position_column upp o))
    by (apply Hcols; unfold required_columns, position_column; set_solver).
  assert (Hconf : is_Some (headerIndex !! confidence_column upv o))
    by (apply Hcols; unfold required_columns, confidence_column; set_solver).
  unfold read_row.
  destruct (field headerIndex row (col_chr o)) as [label|e1] eqn:E1;
    cbn [mbind result_bind].
  2:{ intros [= <-]. left. exact (field_present _ _ _ _ Hchr E1). }
  destruct (encode_chr label) as [c|e2] eqn:E2; cbn [mbind result_bind].
  2:{ intros [= <-]. right. by eapply encode_chr_error. }
  destruct (decide (c ∈ exclude_chr o)); [done|].
  destruct (field headerIndex row (position_column upp o)) as [rp|e3] eqn:E3;
    cbn [mbind result_bind].
  2:{ intros [= <-]. left. exact (field_present _ _ _ _ Hpos E3). }
  destruct (parse_position upp rp) as [p|]; cbn [of_option mbind result_bind].
  2:{ intros [= <-]. right. eauto. }
  destruct (field headerIndex row (confidence_column upv o)) as [rc|e4] eqn:E4;
    cbn [mbind result_bind].
  2:{ intros [= <-]. left. exact (field_present _ _ _ _ Hconf E4). }
  destruct (is_na rc); [done|].
  destruct (py_float rc) as [cf|]; cbn [of_option mbind result_bind].
  2:{ intros [= <-]. right. eauto. }
  destruct (field headerIndex row (col_name o)) as [nm|e5] eqn:E5;
    cbn [mbind result_bind]; [done|].
  intros [= <-]. left. exact (field_present _ _ _ _ Hname E5).
Qed.

(** An exception of the loop is the exception of one of its lines. *)
Lemma read_rows_error f upp upv o headerIndex lines data e :
  read_rows (F:=F) f upp upv o headerIndex lines data = Err e →
  ∃ line, line ∈ lines
          ∧ read_row (F:=F) f upp upv o headerIndex (parse_line line) = Err e.
Proof.
  revert data. induction lines as [|line rest IH]; intros data; [done|].
  rewrite read_rows_cons.
  destruct (read_row _ _ _ _ _ _) as [r|e'] eqn:Hrow; cbn [mbind result_bind].
  - intros (l & Hl & Hr)%IH. exists l. split; [by right|done].
  - intros [= <-]. exists line. split; [left|done].
Qed.

(** X3. The exceptions of [read_input_file]: a missing key is never
    raised; the built-in ValueError arises exactly when the loop ends
    with no row kept; an index out of range comes from a data line
    with too few cells for a column it needs; everything else is a
    ProgramError. *)
Theorem read_failures lines f upp upv o e :
  read_input_file (F:=F) lines f upp upv o = Err e →
  e ≠ KeyError
  ∧ (e = ValueError ↔ read_lines (F:=F) f upp upv o lines = Ok [])
  ∧ (e = IndexError →
     ∃ header rest line,
       lines = header :: rest ∧ line ∈ rest
       ∧ read_row (F:=F) f upp upv o (header_index (parse_line header))
           (parse_line line) = Err IndexError).
Proof.
  unfold read_input_file.
  destruct (read_lines f upp upv o lines) as [data|e'] eqn:Hlines;
    cbn [mbind result_bind].
  - destruct data as [|m data]; [|done].
    cbn [fmap list_fmap py_max_Z mbind result_bind]. intros [= <-].
    split; [done|]. split; [done|]. done.
  - intros [= <-].
    assert (Hcls : (e' = IndexError ∨ ∃ msg, e' = ProgramError msg)
                   ∧ (e' = IndexError →
                      ∃ header rest line,
                        lines = header :: rest ∧ line ∈ rest
                        ∧ read_row (F:=F) f upp upv o
                            (header_index (parse_line header)) (parse_line line)
                          = Err IndexError)).
    { destruct lines as [|header rest]; [done|]. unfold read_lines in Hlines.
      destruct (check_columns f _ _) as [[]|e''] eqn:Hcols;
        cbn [mbind result_bind] in Hlines.
      - apply read_rows_error in Hlines as (line & Hline & Hrow). split.
        + by eapply read_row_error.
        + intros ->. by exists header, rest, line.
      - injection Hlines as <-.
        assert (∃ msg, e'' = ProgramError msg) as [msg ->].
        { clear -Hcols. induction (required_columns upp upv o) as [|c cols IH];
            [done|]. simpl in Hcols.
          destruct (_ !! c); [auto|]. injection Hcols as <-. eauto. }
        split; [eauto|done]. }
    destruct Hcls as [[->|[msg ->]] Hidx]; (split; [done|]); (split; [|done]);
      split; done.
Qed.

End ReaderMore.

Lemma read_failures_witness :
  read_input_file (F:=R) [lod_header; tsv ["1"; "rs1"]]
    "f.txt" false false default_options = Err IndexError
  ∧ ∃ line, line ∈ [tsv ["1"; "rs1"]]
            ∧ read_row (F:=R) "f.txt" false false default_options
                (header_index (parse_line lod_header)) (parse_line line)
              = Err IndexError.
Proof.
  assert (H : read_input_file (F:=R) [lod_header; tsv ["1"; "rs1"]]
                "f.txt" false false default_options = Err IndexError)
    by (vm_compute; reflexivity).
  split; [exact H|].
  destruct (read_failures (F:=R) _ _ _ _ _ _ H) as (_ & _ & Hidx).
  destruct (Hidx eq_refl) as (header & rest & line & Hl & Hin & Hrow).
  injection Hl as <- <-. by exists line.
Defined.

Lemma missing_column_aborts_witness :
  required_columns false false default_options = ["chr"; "name"; "cm"] ++ "lod" :: []
  ∧ ("lod" ∉ parse_line (tsv ["chr"; "name"; "cm"; "p_value"]))
  ∧ read_input_file (F:=R)
      [tsv ["chr"; "name"; "cm"; "p_value"]; tsv ["oops"]]
      "f.txt" false false default_options
    = Err (ProgramError "f.txt: no column named lod").
Proof.
  assert (Hlod : "lod" ∉ parse_line (tsv ["chr"; "name"; "cm"; "p_value"])).
  { rewrite parse_line_tsv_header. rewrite !not_elem_of_cons.
    repeat split; try discriminate. apply not_elem_of_nil. }
  split; [reflexivity|]. split; [exact Hlod|].
  apply (missing_column_aborts (F:=R) "f.txt" false false default_options
           (tsv ["chr"; "name"; "cm"; "p_value"]) [tsv ["oops"]]
           ["chr"; "name"; "cm"] "lod" []); [reflexivity| |exact Hlod].
  intros c. rewrite parse_line_tsv_header, !elem_of_cons. tauto.
Defined.

(** ** Line endings *)

Lemma rstrip_with_all p t : all_chars p t = true → PyStr.rstrip_with p t = EmptyString.
Proof.
  induction t as [|c t IH]; simpl; [done|].
  intros [Hc Ht]%andb_true_iff. by rewrite IH, Hc.
Qed.

Lemma rstrip_with_app p s t :
  all_chars p t = true → PyStr.rstrip_with p (s +:+ t) = PyStr.rstrip_with p s.
Proof.
  intros Ht. induction s as [|c s IH]; simpl.
  - by apply rstrip_with_all.
  - by rewrite IH.
Qed.

Lemma parse_line_ending line ending :
  all_chars PyStr.is_cr_lf ending = true →
  parse_line (line +:+ ending) = parse_line line.
Proof.
  intros H. unfold parse_line, PyStr.rstrip_crlf. by rewrite rstrip_with_app.
Qed.

Section ReaderOrder.
Context {F : Type} `{!PyFloat F}.

Lemma read_rows_parse_ext f upp upv o headerIndex lines lines' data :
  parse_line <$> lines = parse_line <$> lines' →
  read_rows (F:=F) f upp upv o headerIndex lines data
  = read_rows f upp upv o headerIndex lines' data.
Proof.
  revert lines' data. induction lines as [|l lines IH]; intros [|l' lines'] data;
    try done.
  rewrite !fmap_cons. intros [= Hl Hrest].
  rewrite !read_rows_cons, Hl.
  destruct (read_row _ _ _ _ _ _); cbn [mbind result_bind]; [|done]. by apply IH.
Qed.

(** Only the cells of the lines matter. *)
Lemma read_input_file_parse_ext lines lines' f upp upv o :
  parse_line <$> lines = parse_line <$> lines' →
  read_input_file (F:=F) lines f upp upv o = read_input_file lines' f upp upv o.
Proof.
  intros Hparse. unfold read_input_file, read_lines.
  destruct lines as [|h lines], lines' as [|h' lines']; try done.
  rewrite !fmap_cons in Hparse. injection Hparse as Hh Hrest.
  rewrite Hh. by rewrite (read_rows_parse_ext _ _ _ _ _ lines lines' _ Hrest).
Qed.

(** The loop succeeds exactly when every line is accepted, and then
    collects the records of the lines in order. *)
Lemma read_rows_ok f upp upv o headerIndex lines d :
  read_rows (F:=F) f upp upv o headerIndex lines [] = Ok d ↔
  Forall (row_accepted (F:=F) f upp upv o headerIndex) lines
  ∧ d = lines ≫= row_records f upp upv o headerIndex.
Proof.
  revert d. induction lines as [|line rest IH]; intros d.
  - simpl. split; [intros [= <-]; by split|]. by intros [_ ->].
  - rewrite read_rows_cons, bind_cons, Forall_cons.
    unfold row_accepted at 1, row_records at 1.
    destruct (read_row _ _ _ _ _ _) as [r|e] eqn:Hrow; cbn [mbind result_bind].
    + rewrite read_rows_acc.
      destruct (read_rows _ _ _ _ _ rest []) as [d'|e] eqn:Hrest;
        cbn [mbind result_bind].
      * destruct (proj1 (IH d') eq_refl) as [Hall ->]. split.
        -- intros [= <-]. split; [|done]. split; [eauto|done].
        -- by intros [_ ->].
      * split; [done|]. intros [[_ Hall] _].
        by pose proof (proj2 (IH _) (conj Hall eq_refl)).
    + split; [done|]. by intros [[[r Hr] _] _].
Qed.

(** The rows collected from the data lines taken in another order are
    the same rows in another order. *)
Lemma read_lines_permuted header rows rows' f upp upv o data :
  read_lines (F:=F) f upp upv o (header :: rows) = Ok data →
  rows' ≡ₚ rows →
  ∃ data', read_lines (F:=F) f upp upv o (header :: rows') = Ok data'
           ∧ data' ≡ₚ data.
Proof.
  intros Hlines Hperm. unfold read_lines in *.
  destruct (check_columns f _ _) as [[]|e] eqn:Hcols; [|done].
  cbn [mbind result_bind] in *.
  apply read_rows_ok in Hlines as [Hall ->].
  set (hi := header_index (parse_line header)) in *.
  exists (rows' ≫= row_records f upp upv o hi). split.
  - apply read_rows_ok. split; [|done]. by rewrite Hperm.
  - by rewrite Hperm.
Qed.

End ReaderOrder.

(** Cutting a text into lines and dropping the line endings. *)
Lemma rstrip_crlf_cons c line line' :
  PyStr.rstrip_crlf line' = PyStr.rstrip_crlf line →
  PyStr.rstrip_crlf (String c line') = PyStr.rstrip_crlf (String c line).
Proof. unfold PyStr.rstrip_crlf. simpl. by intros ->. Qed.

Lemma rstrip_crlf_first c (lines lines' : list string) :
  PyStr.rstrip_crlf <$> lines' = PyStr.rstrip_crlf <$> lines →
  PyStr.rstrip_crlf <$> match lines' with
                        | [] => [String c EmptyString]
                        | l :: ls => String c l :: ls
                        end
  = PyStr.rstrip_crlf <$> match lines with
                          | [] => [String c EmptyString]
                          | l :: ls => String c l :: ls
                          end.
Proof.
  destruct lines' as [|l' ls'], lines as [|l ls]; try done.
  rewrite !fmap_cons. intros [= Hl Hls].
  by rewrite (rstrip_crlf_cons c l l' Hl), Hls.
Qed.

Lemma iter_lines_to_crlf content :
  PyStr.rstrip_crlf <$> iter_lines (to_crlf content)
  = PyStr.rstrip_crlf <$> iter_lines content.
Proof.
  induction content as [|c rest IH]; [done|].
  cbn [to_crlf iter_lines].
  destruct (Ascii.eqb c line_feed) eqn:E.
  - apply Ascii.eqb_eq in E as ->. cbn [iter_lines].
    change (Ascii.eqb carriage_return line_feed) with false.
    change (Ascii.eqb line_feed line_feed) with true.
    cbv iota. rewrite !fmap_cons, IH. done.
  - cbn [iter_lines]. rewrite E. by apply rstrip_crlf_first.
Qed.

Lemma iter_lines_final_line_feed content c :
  c ≠ line_feed →
  PyStr.rstrip_crlf
    <$> iter_lines (content +:+ String c (String line_feed EmptyString))
  = PyStr.rstrip_crlf <$> iter_lines (content +:+ String c EmptyString).
Proof.
  intros Hc. apply Ascii.eqb_neq in Hc.
  induction content as [|a rest IH].
  - change ("" +:+ String c (String line_feed ""))
      with (String c (String line_feed "")).
    change ("" +:+ String c "") with (String c "").
    cbn [iter_lines]. rewrite Hc.
    change (Ascii.eqb line_feed line_feed) with true. cbv iota.
    rewrite !fmap_cons. by f_equal.
  - change (String a rest +:+ String c (String line_feed ""))
      with (String a (rest +:+ String c (String line_feed ""))).
    change (String a rest +:+ String c "")
      with (String a (rest +:+ String c "")).
    cbn [iter_lines]. destruct (Ascii.eqb a line_feed).
    + by rewrite !fmap_cons, IH.
    + by apply rstrip_crlf_first.
Qed.

Lemma parse_line_rstrip (lines lines' : list string) :
  PyStr.rstrip_crlf <$> lines' = PyStr.rstrip_crlf <$> lines →
  parse_line <$> lines' = parse_line <$> lines.
Proof.
  intros H.
  change parse_line with (PyStr.split PyStr.tab ∘ PyStr.rstrip_crlf).
  by rewrite !list_fmap_compose, H.
Qed.

(** X6. The line endings of a file do not matter: the same text with
    Windows line endings (a carriage return before every line feed)
    reads the same, and so does a text whose last line has no line
    feed once the line feed is added. *)
Theorem line_endings_ignored {F : Type} `{!PyFloat F}
    (content : string) f upp upv o :
  read_input_file (F:=F) (iter_lines (to_crlf content)) f upp upv o
  = read_input_file (iter_lines content) f upp upv o
  ∧ ∀ c, c ≠ line_feed →
      read_input_file (F:=F)
        (iter_lines (content +:+ String c (String line_feed EmptyString)))
        f upp upv o
      = read_input_file (iter_lines (content +:+ String c EmptyString))
          f upp upv o.
Proof.
  split.
  - apply read_input_file_parse_ext, parse_line_rstrip, iter_lines_to_crlf.
  - intros c Hc.
    by apply read_input_file_parse_ext, parse_line_rstrip,
      iter_lines_final_line_feed.
Qed.

Lemma line_endings_ignored_witness :
  (read_input_file (F:=R) (iter_lines (to_crlf unordered_file))
     "f.txt" false false default_options
   = read_input_file (F:=R) (iter_lines unordered_file)
       "f.txt" false false default_options
   ∧ ∃ a b c,
       read_lines (F:=R) "f.txt" false false default_options
         (iter_lines (to_crlf unordered_file)) = Ok [a; b; c])
  ∧ ("5"%char ≠ line_feed
     ∧ read_input_file (F:=R)
         (iter_lines (unended_file +:+ String "5" (String line_feed "")))
         "f.txt" false false default_options
       = read_input_file (F:=R)
           (iter_lines (unended_file +:+ String "5" ""))
           "f.txt" false false default_options
     ∧ ∃ a,
         read_lines (F:=R) "f.txt" false false default_options
           (iter_lines (unended_file +:+ String "5" "")) = Ok [a]).
Proof.
  split; [split|].
  - exact (proj1 (line_endings_ignored unordered_file
                    "f.txt" false false default_options)).
  - do 3 eexists. vm_compute. reflexivity.
  - assert (Hc : "5"%char ≠ line_feed) by discriminate.
    split; [exact Hc|]. split.
    + exact (proj2 (line_endings_ignored unended_file
                      "f.txt" false false default_options) "5"%char Hc).
    + eexists. vm_compute. reflexivity.
Defined.

(** ** Order of the data lines, order of the records *)

Lemma np_sort_strongly_sorted (data : list (marker R)) :
  StronglySorted marker_le (np_sort data).
Proof. apply StronglySorted_merge_sort; apply _. Qed.

Lemma np_sort_permutation_eq (data data' : list (marker R)) :
  data' ≡ₚ data → np_sort data' = np_sort data.
Proof.
  intros Hp. apply (Sorted_unique marker_le).
  - apply StronglySorted_Sorted, np_sort_strongly_sorted.
  - apply StronglySorted_Sorted, np_sort_strongly_sorted.
  - by rewrite !np_sort_perm.
Qed.

(** The same, whatever [float(s)] and [numpy.log10] are. *)
Lemma np_sort_key_sorted parse lg (data : list (marker R)) :
  StronglySorted key_le (@np_sort R (real_float parse lg) data).
Proof.
  eapply StronglySorted_impl; [apply marker_le_key|].
  exact (np_sort_strongly_sorted data).
Qed.

Lemma np_sort_permutation_real parse lg (data data' : list (marker R)) :
  data' ≡ₚ data →
  @np_sort R (real_float parse lg) data' = @np_sort R (real_float parse lg) data.
Proof. exact (np_sort_permutation_eq data data'). Qed.

Lemma read_input_file_key_sorted parse lg lines f upp upv o ds :
  @read_input_file R (real_float parse lg) lines f upp upv o = Ok ds →
  StronglySorted key_le ds.
Proof.
  intros (data & _ & _ & ->)%read_input_file_ok.
  pose proof (np_sort_key_sorted parse lg data) as Hk.
  destruct upv; [|done].
  apply (StronglySorted_fmap transform_conf key_le key_le); [|done].
  intros a b. done.
Qed.

(** X4. The records do not depend on the order of the data lines:
    when a file is read without error, the same header followed by
    the same data lines in any other order is read without error and
    gives the same records, up to their order, in every float
    arithmetic; and when the positions and confidences are read as
    real numbers, whatever [float] makes of their text, it gives the
    same dataset. *)
Theorem read_order_independent :
  (∀ (F : Type) (HF : PyFloat F) header rows rows' f upp upv o ds,
     @read_input_file F HF (header :: rows) f upp upv o = Ok ds →
     rows' ≡ₚ rows →
     ∃ ds', @read_input_file F HF (header :: rows') f upp upv o = Ok ds'
            ∧ ds' ≡ₚ ds)
  ∧ (∀ parse lg header rows rows' f upp upv o ds,
       @read_input_file R (real_float parse lg) (header :: rows) f upp upv o
       = Ok ds →
       rows' ≡ₚ rows →
       @read_input_file R (real_float parse lg) (header :: rows') f upp upv o
       = Ok ds).
Proof.
  split.
  - intros F HF header rows rows' f upp upv o ds
      (data & Hlines & Hne & ->)%read_input_file_ok Hperm.
    destruct (read_lines_permuted _ _ _ _ _ _ _ _ Hlines Hperm)
      as (data' & Hlines' & Hdata).
    exists (if upv then transform_conf <$> np_sort data' else np_sort data').
    split.
    + apply read_input_file_ok. exists data'. split; [done|]. split; [|done].
      intros ->. apply Hne. symmetry. by apply Permutation_nil_l.
    + assert (Hs : np_sort data' ≡ₚ np_sort data)
        by (by rewrite !np_sort_perm).
      destruct upv; [by rewrite Hs|done].
  - intros parse lg header rows rows' f upp upv o ds
      (data & Hlines & Hne & ->)%read_input_file_ok Hperm.
    destruct (read_lines_permuted _ _ _ _ _ _ _ _ Hlines Hperm)
      as (data' & Hlines' & Hdata).
    apply read_input_file_ok. exists data'. split; [done|]. split.
    + intros ->. apply Hne. symmetry. by apply Permutation_nil_l.
    + by rewrite (np_sort_permutation_real parse lg _ _ Hdata).
Qed.

Lemma read_order_independent_witness :
  ∃ ds,
    @read_input_file R (real_float decimal_literal log10)
      [lod_header; tsv ["2"; "rs2"; "5"; "1.5"]; tsv ["1"; "rs1"; "1e1"; "2.5"]]
      "f.txt" false false default_options = Ok ds
    ∧ @read_input_file R (real_float decimal_literal log10)
        [lod_header; tsv ["1"; "rs1"; "1e1"; "2.5"]; tsv ["2"; "rs2"; "5"; "1.5"]]
        "f.txt" false false default_options = Ok ds.
Proof.
  destruct (@read_input_file R (real_float decimal_literal log10)
      [lod_header; tsv ["2"; "rs2"; "5"; "1.5"]; tsv ["1"; "rs1"; "1e1"; "2.5"]]
      "f.txt" false false default_options) as [ds|e] eqn:Hread.
  - exists ds. split; [done|].
    apply (proj2 read_order_independent _ _ _ _ _ _ _ _ _ _ Hread).
    apply Permutation_swap.
  - exfalso. revert Hread. unfold read_input_file.
    set (data := read_lines _ _ _ _ _).
    assert (Hd : ∃ a b, data = Ok [a; b]) by (do 2 eexists; vm_compute; reflexivity).
    destruct Hd as (a & b & ->). done.
Defined.

(** X5. When the positions and confidences of a file are read as real
    numbers, whatever [float] makes of their text, the dataset
    returned by [read_input_file] ascends on (chromosome, position),
    in LOD mode and in p-value mode: of two records the earlier one
    has the smaller chromosome or, on the same chromosome, a position
    that is not larger. *)
Theorem read_output_sorted (parse : string → option R) (lg : R → R)
    lines f upp upv o ds :
  @read_input_file R (real_float parse lg) lines f upp upv o = Ok ds →
  StronglySorted key_le ds
  ∧ ∀ i j a b,
      (i < j)%nat → ds !! i = Some a → ds !! j = Some b →
      chr a ≤ chr b ∧ (chr a = chr b → (pos a <= pos b)%R).
Proof.
  intros Hs%read_input_file_key_sorted.
  split; [done|]. intros i j a b Hij Ha Hb.
  assert (Hab : key_le a b).
  { apply (StronglySorted_app_1_elem_of key_le (take j ds) (drop j ds)).
    - by rewrite take_drop.
    - apply list_elem_of_lookup. exists i. by rewrite lookup_take_lt.
    - apply list_elem_of_lookup. exists 0%nat. by rewrite lookup_drop, Nat.add_0_r. }
  destruct Hab as [Hc Hp]. split; [done|]. intros E. apply Hp. unfold on. lia.
Qed.

(** The three records of [unordered_file] are read and sorted. *)
Lemma unordered_file_read :
  ∃ a b c,
    @read_input_file R (real_float decimal_literal log10)
      (iter_lines unordered_file) "f.txt" false false default_options
    = Ok (@np_sort R (real_float decimal_literal log10) [a; b; c])
    ∧ chr a = 2 ∧ chr b = 1 ∧ chr c = 1.
Proof.
  assert (Hlines : ∃ a b c,
            @read_lines R (real_float decimal_literal log10)
              "f.txt" false false default_options (iter_lines unordered_file)
            = Ok [a; b; c] ∧ chr a = 2 ∧ chr b = 1 ∧ chr c = 1).
  { do 3 eexists. split; [vm_compute; reflexivity|]. by repeat split. }
  destruct Hlines as (a & b & c & Hlines & Ha & Hb & Hc).
  exists a, b, c. split; [|done].
  apply read_input_file_ok. exists [a; b; c]. by split.
Qed.

Lemma read_output_sorted_witness :
  ∃ ds,
    @read_input_file R (real_float decimal_literal log10)
      (iter_lines unordered_file) "f.txt" false false default_options = Ok ds
    ∧ length ds = 3%nat
    ∧ StronglySorted key_le ds.
Proof.
  destruct unordered_file_read as (a & b & c & Hread & _).
  eexists. split; [exact Hread|]. split.
  - apply (Permutation_length (np_sort_perm [a; b; c])).
  - exact (proj1 (read_output_sorted _ _ _ _ _ _ _ _ Hread)).
Defined.

(** * The command line *)

Lemma mapM_result_ok {A B} (f : A → result B) (l : list A) (k : list B) :
  mapM f l = Ok k ↔ Forall2 (λ x y, f x = Ok y) l k.
Proof.
  revert k. induction l as [|x l IH]; intros k; simpl.
  - split; [intros [= <-]; constructor | by inversion 1].
  - destruct (f x) as [y|e] eqn:Hx; cbn [mbind result_bind].
    + destruct (mapM f l) as [k'|e] eqn:Hl; cbn [mbind result_bind mret result_ret].
      * split.
        -- intros [= <-]. constructor; [done|]. by apply IH.
        -- inversion 1 as [|? y' ? k'' Hy Hk]; subst.
           rewrite Hx in Hy. injection Hy as <-.
           apply IH in Hk. by injection Hk as <-.
      * split; [done|]. inversion 1 as [|? y' ? k'' Hy Hk]; subst.
        by apply IH in Hk.
    + split; [done|]. inversion 1 as [|? y' ? k'' Hy Hk]; subst.
      by rewrite Hx in Hy.
Qed.

(** The exception of a comprehension is that of its first failing
    item. *)
Lemma mapM_result_err {A B} (f : A → result B) (l : list A) (e : exception) :
  mapM f l = Err e ↔
  ∃ pre x post, l = pre ++ x :: post
                ∧ Forall (λ y, ∃ b, f y = Ok b) pre ∧ f x = Err e.
Proof.
  induction l as [|x l IH]; simpl.
  - split; [done|]. intros (pre & y & post & E & _). by destruct pre.
  - destruct (f x) as [y|e'] eqn:Hx; cbn [mbind result_bind].
    + destruct (mapM f l) as [k'|e'] eqn:Hl; cbn [mbind result_bind mret result_ret].
      * split; [done|]. intros (pre & z & post & E & Hpre & Hz).
        destruct pre as [|p pre]; simpl in E; injection E as -> ->.
        -- by rewrite Hx in Hz.
        -- apply Forall_cons in Hpre as [_ Hpre].
           assert (Hk : Ok k' = Err e) by (apply IH; by exists pre, z, post).
           done.
      * split.
        -- intros [= ->]. destruct (proj1 IH eq_refl) as (pre & z & post & -> & Hpre & Hz).
           exists (x :: pre), z, post. split; [done|]. split; [|done].
           constructor; eauto.
        -- intros (pre & z & post & E & Hpre & Hz).
           destruct pre as [|p pre]; simpl in E; injection E as -> ->.
           ++ by rewrite Hx in Hz.
           ++ apply Forall_cons in Hpre as [_ Hpre]. 
              apply IH. by exists pre, z, post.
    + split.
      * intros [= ->]. exists [], x, l. split; [done|]. split; [constructor|done].
      * intros (pre & z & post & E & Hpre & Hz).
        destruct pre as [|p pre]; simpl in E; injection E as -> ->.
        -- congruence.
        -- apply Forall_cons in Hpre as [[b Hb] _]. congruence.
Qed.

(** X8. The excluded chromosomes given on the command line: the set
    holds exactly the codes of the comma-separated labels, and one
    label that [encode_chr] rejects (an empty item between two commas,
    for instance) rejects the whole option with a ProgramError. *)
Theorem exclude_chr_parsing (s : string) :
  (∀ excluded, parse_exclude_chr (Some s) = Ok excluded →
     ∀ c, c ∈ excluded ↔
          ∃ label, label ∈ PyStr.split "," s ∧ encode_chr label = Ok c)
  ∧ ((∃ label e, label ∈ PyStr.split "," s ∧ encode_chr label = Err e) →
     ∃ msg, parse_exclude_chr (Some s) = Err (ProgramError msg))
  ∧ (EmptyString ∈ PyStr.split "," s →
     ∃ msg, parse_exclude_chr (Some s) = Err (ProgramError msg)).
Proof.
  assert (Hbad : (∃ label e, label ∈ PyStr.split "," s ∧ encode_chr label = Err e) →
                 ∃ msg, parse_exclude_chr (Some s) = Err (ProgramError msg)).
  { intros (label & e & [i Hi]%list_elem_of_lookup & He).
    unfold parse_exclude_chr.
    destruct (mapM encode_chr (PyStr.split "," s)) as [codes|e'] eqn:Hm.
    - apply mapM_result_ok in Hm.
      destruct (Forall2_lookup_l _ _ _ _ _ Hm Hi) as (c & _ & Hc).
      by rewrite He in Hc.
    - cbn [mbind result_bind].
      apply mapM_result_err in Hm as (pre & x & post & _ & _ & Hx).
      apply encode_chr_error in Hx as [msg ->]. eauto. }
  split; [|split; [exact Hbad|]].
  - intros excluded. unfold parse_exclude_chr.
    destruct (mapM encode_chr (PyStr.split "," s)) as [codes|e] eqn:Hm;
      cbn [mbind result_bind]; [|done].
    intros [= <-] c. apply mapM_result_ok in Hm.
    rewrite elem_of_list_to_set. split.
    + intros [i Hi]%list_elem_of_lookup.
      destruct (Forall2_lookup_r _ _ _ _ _ Hm Hi) as (label & Hl & Hc).
      exists label. split; [by eapply list_elem_of_lookup_2|done].
    + intros (label & [i Hi]%list_elem_of_lookup & Hc).
      destruct (Forall2_lookup_l _ _ _ _ _ Hm Hi) as (c' & Hc' & Hl).
      rewrite Hc in Hl. injection Hl as <-. by eapply list_elem_of_lookup_2.
  - intros Hin. apply Hbad. exists EmptyString. eexists. split; [done|].
    reflexivity.
Qed.

Lemma exclude_chr_parsing_witness :
  ∃ excluded,
    parse_exclude_chr (Some "x,7") = Ok excluded
    ∧ (23 ∈ excluded ↔
       ∃ label, label ∈ PyStr.split "," "x,7" ∧ encode_chr label = Ok 23).
Proof.
  eexists.
  assert (H : parse_exclude_chr (Some "x,7") = Ok _) by reflexivity.
  split; [exact H|].
  exact (proj1 (exclude_chr_parsing "x,7") _ H 23).
Defined.

Section CommandLineFacts.
Context {F : Type} `{!PyFloat F}.
Variable format_f : F → string.

Lemma check_file_ok fs name :
  check_file fs name = Ok tt ↔ ∀ n, name = Some n → isfile fs n = true.
Proof.
  destruct name as [n|]; simpl.
  - destruct (isfile fs n) eqn:E.
    + split; [|done]. by intros _ ? [= <-].
    + split; [done|]. intros H. specialize (H n eq_refl). congruence.
  - split; [|done]. by intros _ ?.
Qed.

(** What [checkArgs] has checked when it returns. *)
Lemma checkArgs_inv fs a args :
  checkArgs format_f fs a = Ok args →
  raw args = a
  ∧ (∀ mx mn, arg_max_ylim a = Some mx → arg_min_ylim a = Some mn → ¬ fle mx mn)
  ∧ (is_Some (arg_twopoint a) ∨ is_Some (arg_multipoint a))
  ∧ (∀ n, arg_twopoint a = Some n ∨ arg_multipoint a = Some n →
          isfile fs n = true)
  ∧ Forall2 (λ item v, py_float item = Some v)
      (PyStr.split "," (arg_abline a)) (abline args)
  ∧ parse_exclude_chr (arg_exclude_chr a) = Ok (exclude_chr (opts args))
  ∧ required_columns (arg_phys_pos_flag a) (arg_use_pvalues_flag a) (opts args)
    = [arg_col_chr a; arg_col_name a;
       if arg_phys_pos_flag a then arg_col_pos a else arg_col_cm a;
       if arg_use_pvalues_flag a then arg_col_pvalue a else arg_col_lod a].
Proof.
  unfold checkArgs. intros H.
  destruct (match arg_max_ylim a, arg_min_ylim a with
            | Some mx, Some mn => _ | _, _ => _ end) as [[]|] eqn:Hlim;
    cbn [mbind result_bind] in H; [|done].
  destruct (match arg_twopoint a, arg_multipoint a with
            | None, None => _ | _, _ => _ end) as [[]|] eqn:Hany;
    cbn [mbind result_bind] in H; [|done].
  destruct (check_file fs (arg_twopoint a)) as [[]|] eqn:Htp;
    cbn [mbind result_bind] in H; [|done].
  destruct (check_file fs (arg_multipoint a)) as [[]|] eqn:Hmp;
    cbn [mbind result_bind] in H; [|done].
  destruct (parse_abline (arg_abline a)) as [ab|] eqn:Hab;
    cbn [mbind result_bind] in H; [|done].
  destruct (parse_exclude_chr (arg_exclude_chr a)) as [ex|] eqn:Hex;
    cbn [mbind result_bind] in H; [|done].
  injection H as <-. cbn [raw abline opts exclude_chr].
  split; [done|]. split; [|split; [|split; [|split; [|split; [done|done]]]]].
  - intros mx mn Hmx Hmn. rewrite Hmx, Hmn in Hlim.
    by destruct (decide (fle mx mn)).
  - destruct (arg_twopoint a), (arg_multipoint a); eauto. done.
  - intros n [Hn|Hn].
    + by apply (proj1 (check_file_ok _ _) Htp).
    + by apply (proj1 (check_file_ok _ _) Hmp).
  - unfold parse_abline in Hab.
    destruct (mapM py_float _) as [k|] eqn:Hk; [|done].
    injection Hab as <-. by apply mapM_Some.
Qed.

(** X7. What an accepted command line guarantees: the upper y-limit
    is not below or at the lower one when both are given, at least
    one input file is named, every named file exists, [abline] holds
    one float per comma-separated item, the excluded set is the parsed
    one and the column names are carried over. *)
Theorem checkArgs_accepted fs a args :
  checkArgs format_f fs a = Ok args →
  raw args = a
  ∧ (∀ mx mn, arg_max_ylim a = Some mx → arg_min_ylim a = Some mn → ¬ fle mx mn)
  ∧ (is_Some (arg_twopoint a) ∨ is_Some (arg_multipoint a))
  ∧ (∀ n, arg_twopoint a = Some n ∨ arg_multipoint a = Some n →
          isfile fs n = true)
  ∧ Forall2 (λ item v, py_float item = Some v)
      (PyStr.split "," (arg_abline a)) (abline args)
  ∧ parse_exclude_chr (arg_exclude_chr a) = Ok (exclude_chr (opts args))
  ∧ required_columns (arg_phys_pos_flag a) (arg_use_pvalues_flag a) (opts args)
    = [arg_col_chr a; arg_col_name a;
       if arg_phys_pos_flag a then arg_col_pos a else arg_col_cm a;
       if arg_use_pvalues_flag a then arg_col_pvalue a else arg_col_lod a].
Proof. apply checkArgs_inv. Qed.

(** The chromosomes of a dataset that was read are not excluded
    ones. *)
Lemma read_chromosomes_not_excluded lines f upp upv o (ds : list (marker F)) c :
  read_input_file lines f upp upv o = Ok ds →
  c ∈ dataset_chromosomes ds →
  c ∉ exclude_chr o.
Proof.
  intros (data & Hlines & Hne & ->)%read_input_file_ok
         (m & Hm & <-)%dataset_chromosomes_elem.
  assert (∃ m0, m0 ∈ data ∧ chr m0 = chr m) as (m0 & Hm0 & <-).
  { destruct upv.
    - apply list_elem_of_fmap in Hm as (m0 & -> & Hm0).
      exists m0. by rewrite <- np_sort_elem.
    - exists m. by rewrite <- np_sort_elem. }
  destruct lines as [|header rest]; [by injection Hlines as <-|].
  unfold read_lines in Hlines.
  destruct (check_columns _ _ _) as [[]|e]; [|done].
  cbn [mbind result_bind] in Hlines.
  destruct (read_rows_elem _ _ _ _ _ _ _ _ Hlines Hm0) as (line & Hline & Hrow).
  by destruct (read_row_kept_label _ _ _ _ _ _ _ Hrow) as (label & _ & _ & Hout).
Qed.

Lemma read_dataset_ok fs args name od :
  read_dataset fs args name = Ok od →
  (name = None ∧ od = None)
  ∨ ∃ n d, name = Some n ∧ od = Some d
           ∧ read_input_file (file_lines fs n) n
               (arg_phys_pos_flag (raw args)) (arg_use_pvalues_flag (raw args))
               (opts args) = Ok d.
Proof.
  destruct name as [n|]; simpl.
  - destruct (read_input_file _ _ _ _ _) as [d|] eqn:E; cbn [mbind result_bind];
      [|done].
    intros [= <-]. right. by exists n, d.
  - intros [= <-]. by left.
Qed.

Lemma available_chromosomes_sorted
    (twopoint multipoint : option (list (marker F))) cs :
  available_chromosomes twopoint multipoint = Ok cs →
  StronglySorted Z.lt cs
  ∧ ∀ d, d ∈ supplied twopoint multipoint → dataset_chromosomes d = cs.
Proof.
  intros [Hne Hall]%available_chromosomes_ok. split; [|done].
  destruct (supplied twopoint multipoint) as [|d0 ds] eqn:Hsup; [done|].
  rewrite <- (Hall d0) by left.
  rewrite dataset_chromosomes_unique. apply np_unique_ascending.
Qed.

Lemma create_manhattan_plot_labels tcl_error
    (twopoint multipoint : option (list (marker F))) flag p :
  create_manhattan_plot tcl_error twopoint multipoint flag = Ok p →
  available_chromosomes twopoint multipoint = Ok (xticklabels (axis p)).
Proof.
  unfold create_manhattan_plot.
  destruct (available_chromosomes twopoint multipoint) as [cs|]; [|done].
  cbn [mbind result_bind].
  destruct tcl_error; cbn [open_figure mbind result_bind]; [done|].
  destruct (conf_limits twopoint multipoint) as [lim|]; [|done].
  cbn [mbind result_bind].
  destruct (plan_layout _ _ _ _) as [layout|] eqn:Hplan; [|done].
  cbn [mbind result_bind]. intros [= <-]. cbn [axis].
  unfold plan_layout in Hplan.
  destruct (layout_loop _ _ _ _ _ _) as [[final ents]|]; [|done].
  cbn [mbind result_bind] in Hplan. by injection Hplan as <-.
Qed.

(** X9. Whatever [main] lays out, the chromosomes on the x axis come
    in strictly ascending order of their codes and none of them is an
    excluded chromosome. *)
Theorem main_skips_excluded fs tcl_error a args p :
  checkArgs format_f fs a = Ok args →
  main format_f fs tcl_error a = Ok p →
  StronglySorted Z.lt (xticklabels (axis p))
  ∧ ∀ c, c ∈ xticklabels (axis p) → c ∉ exclude_chr (opts args).
Proof.
  intros Hargs. unfold main. rewrite Hargs. cbn [mbind result_bind].
  destruct (read_dataset fs args (arg_twopoint a)) as [tp|] eqn:Htp;
    cbn [mbind result_bind]; [|done].
  destruct (read_dataset fs args (arg_multipoint a)) as [mp|] eqn:Hmp;
    cbn [mbind result_bind]; [|done].
  intros Hcs%create_manhattan_plot_labels.
  destruct (available_chromosomes_sorted _ _ _ Hcs) as [Hsorted Hall].
  split; [done|]. intros c Hc.
  destruct (available_chromosomes_ok _ _ _ Hcs) as [Hne _].
  apply read_dataset_ok in Htp, Hmp.
  destruct Htp as [[_ ->]|(n1 & d1 & _ & -> & Hr1)].
  - destruct Hmp as [[_ ->]|(n2 & d2 & _ & -> & Hr2)]; [done|].
    eapply read_chromosomes_not_excluded; [exact Hr2|].
    rewrite (Hall d2); [done|]. unfold supplied. simpl. left.
  - eapply read_chromosomes_not_excluded; [exact Hr1|].
    rewrite (Hall d1); [done|]. unfold supplied. simpl. left.
Qed.


End CommandLineFacts.

Lemma main_succeeds {F : Type} `{!PyFloat F} (format_f : F → string)
    fs (a : raw_args F) args tp mp cs :
  checkArgs format_f fs a = Ok args →
  read_dataset fs args (arg_twopoint a) = Ok tp →
  read_dataset fs args (arg_multipoint a) = Ok mp →
  available_chromosomes tp mp = Ok cs →
  ∃ p, main format_f fs false a = Ok p ∧ xticklabels (axis p) = cs.
Proof.
  intros Hargs Htp Hmp Hcs. unfold main. rewrite Hargs. cbn [mbind result_bind].
  rewrite Htp. cbn [mbind result_bind]. rewrite Hmp. cbn [mbind result_bind].
  destruct (create_manhattan_plot_ok tp mp (arg_phys_pos_flag a) cs Hcs)
    as (p & Hp & _ & Hx & _).
  - unfold supplied. intros d.
    apply read_dataset_ok in Htp, Hmp.
    destruct Htp as [[_ ->]|(n1 & d1 & _ & -> & Hr1)],
             Hmp as [[_ ->]|(n2 & d2 & _ & -> & Hr2)]; simpl;
      rewrite ?elem_of_cons, elem_of_nil.
    + intros [].
    + intros [->|[]]. by eapply read_input_file_nonempty.
    + intros [->|[]]. by eapply read_input_file_nonempty.
    + intros [->|[->|[]]]; by eapply read_input_file_nonempty.
  - by exists p.
Qed.

Lemma two_point_args_checked :
  ∃ args, checkArgs format_any one_file two_point_args = Ok args
          ∧ exclude_chr (opts args) = {[ 23 ]} ∪ ∅.
Proof. eexists. split; [vm_compute; reflexivity|]. reflexivity. Qed.

Lemma checkArgs_accepted_witness :
  ∃ args,
    checkArgs format_any one_file two_point_args = Ok args
    ∧ isfile one_file "two.txt" = true
    ∧ length (abline args) = 2%nat.
Proof.
  destruct two_point_args_checked as (args & Hargs & _).
  exists args. split; [exact Hargs|].
  destruct (checkArgs_accepted format_any one_file two_point_args args Hargs)
    as (_ & _ & _ & Hfile & Hab & _).
  split; [apply Hfile; by left|].
  apply Forall2_length in Hab. by rewrite <- Hab.
Defined.

Lemma two_point_args_main :
  ∃ args p, checkArgs format_any one_file two_point_args = Ok args
            ∧ main format_any one_file false two_point_args = Ok p
            ∧ xticklabels (axis p) = [1].
Proof.
  destruct two_point_args_checked as (args & Hargs & Hex).
  assert (Hread : ∃ d, read_dataset one_file args (arg_twopoint two_point_args)
                       = Ok (Some [d]) ∧ chr d = 1).
  { assert (Hargs' : checkArgs format_any one_file two_point_args = Ok args)
      by exact Hargs.
    revert Hargs'. vm_compute checkArgs at 1. intros [= <-].
    eexists. split; [vm_compute; reflexivity|reflexivity]. }
  destruct Hread as (d & Hread & Hd).
  destruct (main_succeeds format_any one_file two_point_args args
              (Some [d]) None [1] Hargs Hread eq_refl) as (p & Hp & Hx).
  { destruct d as [c ? ? ?]. simpl in Hd. subst c. reflexivity. }
  by exists args, p.
Qed.

Lemma main_skips_excluded_witness :
  ∃ args p,
    checkArgs format_any one_file two_point_args = Ok args
    ∧ main format_any one_file false two_point_args = Ok p
    ∧ ∀ c, c ∈ xticklabels (axis p) → c ∉ exclude_chr (opts args).
Proof.
  destruct two_point_args_main as (args & p & Hargs & Hp & _).
  exists args, p. split; [exact Hargs|]. split; [exact Hp|].
  exact (proj2 (main_skips_excluded format_any one_file false two_point_args
                  args p Hargs Hp)).
Defined.


(** * The drawing *)

Lemma bind_join_imap {A B C} (f : nat → A → list B) (g : B → list C) l :
  mjoin (imap f l) ≫= g = mjoin (imap (λ k x, f k x ≫= g) l).
Proof.
  revert f. induction l as [|x l IH]; intros f; [done|].
  cbn [imap mjoin list_join]. by rewrite bind_app, IH.
Qed.

Lemma join_imap_const {A B} (h : A → list B) l :
  mjoin (imap (λ _, h) l) = l ≫= h.
Proof. induction l as [|x l IH]; [done|]. simpl. f_equal. exact IH. Qed.

Lemma bind_nil_in {A B} (f : A → list B) l :
  (∀ x, x ∈ l → f x = []) → l ≫= f = [].
Proof.
  induction l as [|x l IH]; intros Hf; [done|].
  rewrite bind_cons, Hf by left. apply IH. intros y Hy. apply Hf. by right.
Qed.

Lemma bind_singleton {A B} (f : A → B) l : l ≫= (λ x, [f x]) = f <$> l.
Proof. induction l as [|x l IH]; [done|]. rewrite bind_cons, IH. done. Qed.

Lemma zip_fmap_diag {A B C} (f : A → B) (g : A → C) l :
  zip (f <$> l) (g <$> l) = (λ x, (f x, g x)) <$> l.
Proof.
  induction l as [|x l IH]; [done|]. rewrite !fmap_cons. simpl. f_equal. exact IH.
Qed.

Section DrawingFacts.
Context {F : Type} `{!PyFloat F}.
Variable format_3f : F → string.
Variable str_pow10_neg : F → string.
Implicit Types (d : list (marker F)) (twopoint multipoint : option (list (marker F))).

(** The loop lays out what [layout_loop] lays out, and makes the
    calls of every entry in turn. *)
Lemma plot_loop_layout args twopoint multipoint conf_min conf_max chr_spacing
    cs i startingPos done calls :
  plot_loop format_3f str_pow10_neg args twopoint multipoint conf_min conf_max
    chr_spacing i cs startingPos done calls
  = '(final, L) ← layout_loop twopoint multipoint chr_spacing cs startingPos [];
    Ok (final, done ++ L,
        calls ++ mjoin (imap (λ k e,
                   draw_chromosome format_3f str_pow10_neg args twopoint
                     multipoint conf_min conf_max (i + k) e) L)).
Proof.
  revert i startingPos done calls.
  induction cs as [|c cs IH]; intros i s done calls.
  - simpl. by rewrite !app_nil_r.
  - cbn [plot_loop layout_loop].
    destruct (max_position twopoint multipoint c) as [m|e];
      cbn [mbind result_bind]; [|done].
    rewrite IH, (layout_loop_nil_acc _ _ _ _ _ ([] ++ _)).
    destruct (layout_loop _ _ _ cs _ []) as [[final L]|e];
      cbn [mbind result_bind]; [|done].
    rewrite <- !app_assoc. cbn [app imap mjoin list_join].
    rewrite Nat.add_0_r.
    set (f := λ k e, draw_chromosome _ _ _ _ _ _ _ (S i + k) e).
    set (g := λ k e, draw_chromosome _ _ _ _ _ _ _ (i + k) e).
    assert (E : imap f L = imap (g ∘ S) L).
    { apply imap_ext. intros k e _. unfold f, g. simpl. f_equal. lia. }
    by rewrite E.
Qed.

(** What a drawn figure is made of. *)
Lemma draw_manhattan_plot_inv tcl_error args twopoint multipoint fig :
  draw_manhattan_plot format_3f str_pow10_neg tcl_error args twopoint multipoint = Ok fig →
  ∃ cs limits,
    available_chromosomes twopoint multipoint = Ok cs
    ∧ conf_limits twopoint multipoint = Ok limits
    ∧ plan_layout twopoint multipoint
        (spacing_preset (arg_phys_pos_flag (raw args))) cs = Ok (fig_axis fig)
    ∧ chromosome <$> chromosomes (fig_axis fig) = cs
    ∧ fig_calls fig
      = mjoin (imap (λ k e,
                  draw_chromosome format_3f str_pow10_neg args twopoint
                    multipoint (fst (y_limits (raw args) limits))
                    (snd (y_limits (raw args) limits)) k e)
                  (chromosomes (fig_axis fig)))
    ∧ fig_ylim fig
      = (fsub (fst (y_limits (raw args) limits)) (y_padding (raw args)),
         fadd (snd (y_limits (raw args) limits)) (y_padding (raw args)))
    ∧ fig_shown fig
      = negb (arg_no_annotation (raw args)
              || match twopoint with None => true | _ => false end).
Proof.
  unfold draw_manhattan_plot.
  destruct (available_chromosomes twopoint multipoint) as [cs|] eqn:Hcs;
    cbn [mbind result_bind]; [|done].
  destruct tcl_error; cbn [open_figure mbind result_bind]; [done|].
  destruct (conf_limits twopoint multipoint) as [limits|] eqn:Hlim;
    cbn [mbind result_bind]; [|done].
  rewrite plot_loop_layout.
  destruct (layout_loop _ _ _ cs _ []) as [[final L]|] eqn:Hloop;
    cbn [mbind result_bind]; [|done].
  intros [= <-]. exists cs, limits. simpl.
  split; [done|]. split; [done|].
  split; [unfold plan_layout; by rewrite Hloop|].
  split; [|done].
  destruct (layout_loop_ok twopoint multipoint
              (spacing_preset (arg_phys_pos_flag (raw args))) cs (of_Z 0) [])
    as (final' & L' & Hloop' & HL).
  { by eapply layout_loop_inv. }
  rewrite Hloop in Hloop'. by injection Hloop' as _ ->.
Qed.

(** The figure is drawn exactly when the layout of
    [create_manhattan_plot] is computed, with that layout. *)
Lemma draw_manhattan_plot_layout tcl_error args twopoint multipoint :
  (∀ fig,
     draw_manhattan_plot format_3f str_pow10_neg tcl_error args twopoint multipoint
     = Ok fig →
     ∃ limits,
       create_manhattan_plot tcl_error twopoint multipoint
         (arg_phys_pos_flag (raw args))
       = Ok {| conf_range := limits; axis := fig_axis fig |})
  ∧ (∀ p,
       create_manhattan_plot tcl_error twopoint multipoint
         (arg_phys_pos_flag (raw args))
       = Ok p →
       ∃ fig,
         draw_manhattan_plot format_3f str_pow10_neg tcl_error args twopoint multipoint
         = Ok fig
         ∧ fig_axis fig = axis p).
Proof.
  split.
  - intros fig Hfig.
    assert (Htcl : tcl_error = false).
    { unfold draw_manhattan_plot in Hfig.
      destruct (available_chromosomes twopoint multipoint);
        cbn [mbind result_bind] in Hfig; [|done].
      by destruct tcl_error. }
    apply draw_manhattan_plot_inv in Hfig
      as (cs & limits & Hcs & Hlim & Hplan & _).
    exists limits. unfold create_manhattan_plot.
    rewrite Hcs, Htcl. cbn [mbind result_bind open_figure].
    rewrite Hlim. cbn [mbind result_bind]. by rewrite Hplan.
  - intros p. unfold create_manhattan_plot, draw_manhattan_plot.
    destruct (available_chromosomes twopoint multipoint) as [cs|] eqn:Hcs;
      cbn [mbind result_bind]; [|done].
    destruct tcl_error; cbn [open_figure mbind result_bind]; [done|].
    destruct (conf_limits twopoint multipoint) as [limits|] eqn:Hlim;
      cbn [mbind result_bind]; [|done].
    unfold plan_layout. rewrite plot_loop_layout.
    destruct (layout_loop _ _ _ cs _ []) as [[final L]|] eqn:Hloop;
      cbn [mbind result_bind]; [|done].
    intros [= <-]. eexists. split; [done|]. done.
Qed.


(** ** What one iteration draws *)

Lemma draw_twopoint_points args twopoint multipoint conf_min conf_max i e :
  draw_chromosome format_3f str_pow10_neg args twopoint multipoint conf_min conf_max i e ≫= twopoint_points
  = match twopoint with
    | Some d => (λ m, (fadd (pos m) (start_offset e), conf m))
                <$> chr_rows d (chromosome e)
    | None => []
    end.
Proof.
  unfold draw_chromosome. rewrite !bind_app.
  rewrite (bind_nil_in _ (Axhline_abline <$> _))
    by (by intros ? (? & -> & _)%list_elem_of_fmap).
  destruct twopoint as [d|], multipoint as [d'|];
    repeat case_decide; cbn [mbind list_bind twopoint_points app];
    rewrite ?app_nil_r, ?zip_fmap_diag;
    try (destruct (arg_no_annotation _));
    rewrite ?(bind_nil_in _ (annotate_marker _ _ _ _ _ <$> _))
      by (by intros ? (? & -> & _)%list_elem_of_fmap);
    by rewrite ?app_nil_r.
Qed.

Lemma draw_multipoint_points args twopoint multipoint conf_min conf_max i e :
  draw_chromosome format_3f str_pow10_neg args twopoint multipoint conf_min conf_max i e ≫= multipoint_points
  = match multipoint with
    | Some d => (λ m, (fadd (pos m) (start_offset e), conf m))
                <$> chr_rows d (chromosome e)
    | None => []
    end.
Proof.
  unfold draw_chromosome. rewrite !bind_app.
  rewrite (bind_nil_in _ (Axhline_abline <$> _))
    by (by intros ? (? & -> & _)%list_elem_of_fmap).
  destruct twopoint as [d|], multipoint as [d'|];
    repeat case_decide; cbn [mbind list_bind multipoint_points app];
    rewrite ?app_nil_r, ?zip_fmap_diag;
    try (destruct (arg_no_annotation _));
    rewrite ?(bind_nil_in _ (annotate_marker _ _ _ _ _ <$> _))
      by (by intros ? (? & -> & _)%list_elem_of_fmap);
    by rewrite ?app_nil_r.
Qed.

Lemma draw_significant_points args twopoint multipoint conf_min conf_max i e :
  draw_chromosome format_3f str_pow10_neg args twopoint multipoint conf_min conf_max i e ≫= significant_points
  = match twopoint with
    | Some d => (λ m, (fadd (pos m) (start_offset e), conf m))
                <$> filter (significant (raw args)) (chr_rows d (chromosome e))
    | None => []
    end.
Proof.
  unfold draw_chromosome. rewrite !bind_app.
  rewrite (bind_nil_in _ (Axhline_abline <$> _))
    by (by intros ? (? & -> & _)%list_elem_of_fmap).
  destruct twopoint as [d|], multipoint as [d'|];
    repeat case_decide; cbn [mbind list_bind significant_points app];
    rewrite ?app_nil_r, ?zip_fmap_diag;
    try (destruct (arg_no_annotation _));
    rewrite ?(bind_nil_in _ (annotate_marker _ _ _ _ _ <$> _))
      by (by intros ? (? & -> & _)%list_elem_of_fmap);
    by rewrite ?app_nil_r.
Qed.

Lemma draw_annotated_points args twopoint multipoint conf_min conf_max i e :
  draw_chromosome format_3f str_pow10_neg args twopoint multipoint conf_min conf_max i e ≫= annotated_points
  = if arg_no_annotation (raw args) then []
    else draw_chromosome format_3f str_pow10_neg args twopoint multipoint conf_min conf_max i e
         ≫= significant_points.
Proof.
  rewrite draw_significant_points.
  unfold draw_chromosome. rewrite !bind_app.
  rewrite (bind_nil_in _ (Axhline_abline <$> _))
    by (by intros ? (? & -> & _)%list_elem_of_fmap).
  destruct twopoint as [d|], multipoint as [d'|];
    repeat case_decide; cbn [mbind list_bind annotated_points app];
    rewrite ?app_nil_r;
    destruct (arg_no_annotation _); try done;
    rewrite list_fmap_bind; unfold compose, annotate_marker;
    cbn [annotated_points]; by rewrite bind_singleton.
Qed.

(** ** The records of a chromosome *)

Lemma chr_rows_cons d (m : marker F) c :
  chr_rows (m :: d) c
  = if decide (chr m = c) then m :: chr_rows d c else chr_rows d c.
Proof. unfold chr_rows. rewrite filter_cons. by case_decide. Qed.

Lemma chr_rows_elem d c (m : marker F) : m ∈ chr_rows d c ↔ chr m = c ∧ m ∈ d.
Proof. unfold chr_rows. apply (list_elem_of_filter (λ m, chr m = c)). Qed.

Lemma list_filter_comm {A} (P1 P2 : A → Prop)
    `{!∀ x, Decision (P1 x), !∀ x, Decision (P2 x)} (l : list A) :
  filter P1 (filter P2 l) = filter P2 (filter P1 l).
Proof. rewrite !list_filter_filter. apply list_filter_iff. tauto. Qed.

(** Going through distinct chromosomes that cover the dataset takes
    every record once. *)
Lemma chr_rows_partition d cs :
  NoDup cs → (∀ m, m ∈ d → chr m ∈ cs) → cs ≫= chr_rows d ≡ₚ d.
Proof.
  intros Hnd. induction d as [|m d IH]; intros Hall.
  - by rewrite bind_nil_in.
  - assert (Hstep : ∀ cs', NoDup cs' →
              cs' ≫= chr_rows (m :: d)
              ≡ₚ (if decide (chr m ∈ cs') then [m] else []) ++ cs' ≫= chr_rows d).
    { clear. induction 1 as [|c cs' Hnotin Hnd' IH'].
      - rewrite decide_False by (by intros ?%elem_of_nil). done.
      - rewrite !bind_cons, chr_rows_cons, IH'.
        destruct (decide (chr m = c)) as [<-|Hne].
        + rewrite (decide_True (P := chr m ∈ chr m :: cs')) by left.
          rewrite (decide_False (P := chr m ∈ cs')) by done. done.
        + destruct (decide (chr m ∈ cs')) as [Hin|Hnin].
          * rewrite (decide_True (P := chr m ∈ c :: cs')) by (by right). simpl.
            by rewrite Permutation_middle.
          * rewrite (decide_False (P := chr m ∈ c :: cs')); [done|].
            by intros [?|?]%elem_of_cons. }
    rewrite Hstep by done. rewrite decide_True by (apply Hall; left).
    simpl. f_equiv. apply IH. intros m' Hm'. apply Hall. by right.
Qed.

Lemma offset_of_entry (entries : list (chromosome_layout F)) e :
  NoDup (chromosome <$> entries) → e ∈ entries →
  offset_of entries (chromosome e) = start_offset e.
Proof.
  unfold offset_of. induction entries as [|a l IH]; intros Hnd Hin.
  - by apply elem_of_nil in Hin.
  - rewrite fmap_cons in Hnd. apply NoDup_cons in Hnd as [Hnotin Hnd].
    cbn [list_find]. apply elem_of_cons in Hin as [->|Hin].
    + by rewrite decide_True.
    + rewrite decide_False.
      * specialize (IH Hnd Hin).
        destruct (list_find _ l) as [[j x]|]; simpl in *; done.
      * intros E. apply Hnotin. rewrite E. apply list_elem_of_fmap. eauto.
Qed.

(** Per chromosome, the records are drawn where [drawn_at] says. *)
Lemma drawn_at_rows (entries : list (chromosome_layout F)) d :
  NoDup (chromosome <$> entries) →
  (∀ m, m ∈ d → chr m ∈ chromosome <$> entries) →
  entries ≫= (λ e, (λ m, (fadd (pos m) (start_offset e), conf m))
                   <$> chr_rows d (chromosome e))
  ≡ₚ drawn_at entries <$> d.
Proof.
  intros Hnd Hall.
  transitivity (drawn_at entries <$> ((chromosome <$> entries) ≫= chr_rows d)).
  - rewrite list_fmap_bind. unfold compose.
    assert (E : ∀ l, (∀ e, e ∈ l → e ∈ entries) →
              l ≫= (λ e, (λ m, (fadd (pos m) (start_offset e), conf m))
                         <$> chr_rows d (chromosome e))
              = drawn_at entries <$> (l ≫= λ e, chr_rows d (chromosome e))).
    { induction l as [|e l IH]; intros Hl; [done|].
      rewrite !bind_cons, fmap_app, IH by (intros; apply Hl; by right).
      f_equal. apply list_fmap_ext. intros k m Hk. unfold drawn_at.
      apply list_elem_of_lookup_2, chr_rows_elem in Hk as [Hc _].
      rewrite Hc, offset_of_entry; [done..|]. apply Hl. left. }
    by rewrite E.
  - f_equiv. by apply chr_rows_partition.
Qed.

Lemma chr_rows_filter (P : marker F → Prop) `{!∀ m, Decision (P m)} d c :
  filter P (chr_rows d c) = chr_rows (filter P d) c.
Proof. unfold chr_rows. apply list_filter_comm. Qed.

(** The chromosomes of a drawn figure are distinct and cover every
    supplied dataset. *)
Lemma draw_manhattan_plot_chromosomes tcl_error args twopoint multipoint fig :
  draw_manhattan_plot format_3f str_pow10_neg tcl_error args twopoint multipoint = Ok fig →
  NoDup (chromosome <$> chromosomes (fig_axis fig))
  ∧ ∀ d m, d ∈ supplied twopoint multipoint → m ∈ d →
           chr m ∈ chromosome <$> chromosomes (fig_axis fig).
Proof.
  intros (cs & limits & Hcs & _ & _ & -> & _)%draw_manhattan_plot_inv.
  destruct (available_chromosomes_ok _ _ _ Hcs) as [Hne Hall]. split.
  - destruct (supplied twopoint multipoint) as [|d0 ds] eqn:Hsup; [done|].
    rewrite <- (Hall d0) by left.
    rewrite dataset_chromosomes_unique. apply np_unique_NoDup.
  - intros d m Hd Hm. rewrite <- (Hall d Hd).
    apply dataset_chromosomes_elem. eauto.
Qed.

(** X11. Every record of a supplied dataset is drawn exactly once:
    the two-point records as points and the multipoint records along
    the line, each at its position shifted by the start offset of its
    chromosome and at the height of its confidence. *)
Theorem every_record_drawn_once tcl_error args twopoint multipoint fig :
  draw_manhattan_plot format_3f str_pow10_neg tcl_error args twopoint multipoint = Ok fig →
  (∀ d, twopoint = Some d →
        fig_calls fig ≫= twopoint_points
        ≡ₚ drawn_at (chromosomes (fig_axis fig)) <$> d)
  ∧ (∀ d, multipoint = Some d →
          fig_calls fig ≫= multipoint_points
          ≡ₚ drawn_at (chromosomes (fig_axis fig)) <$> d).
Proof.
  intros Hfig.
  destruct (draw_manhattan_plot_chromosomes _ _ _ _ _ Hfig) as [Hnd Hall].
  destruct (draw_manhattan_plot_inv _ _ _ _ _ Hfig)
    as (cs & limits & _ & _ & _ & _ & -> & _).
  rewrite !bind_join_imap. split; intros d ->.
  - erewrite imap_ext; [|intros; apply draw_twopoint_points].
    rewrite join_imap_const. apply drawn_at_rows; [done|].
    intros m. apply Hall. unfold supplied. simpl. left.
  - erewrite imap_ext; [|intros; apply draw_multipoint_points].
    rewrite join_imap_const. apply drawn_at_rows; [done|].
    intros m. apply Hall. unfold supplied.
    destruct twopoint; simpl; [right|]; left.
Qed.

(** X12. The significant markers are the two-point records whose
    confidence reaches the threshold, drawn once more where they
    stand.  When the figure is shown every one of them carries an
    annotation pointing at it; a figure that is saved carries none.
    The text of every annotation is placed straight above its marker,
    at the upper confidence limit. *)
Theorem significant_markers_annotated tcl_error args twopoint multipoint fig :
  draw_manhattan_plot format_3f str_pow10_neg tcl_error args twopoint multipoint = Ok fig →
  (∀ d, twopoint = Some d →
        fig_calls fig ≫= significant_points
        ≡ₚ drawn_at (chromosomes (fig_axis fig))
           <$> filter (significant (raw args)) d)
  ∧ fig_calls fig ≫= annotated_points
    = (if fig_shown fig then fig_calls fig ≫= significant_points else [])
  ∧ ∃ conf_max,
      snd (fig_ylim fig) = fadd conf_max (y_padding (raw args))
      ∧ ∀ label xy xytext,
          Annotate label xy xytext ∈ fig_calls fig →
          xytext = (fst xy, conf_max).
Proof.
  intros Hfig.
  destruct (draw_manhattan_plot_chromosomes _ _ _ _ _ Hfig) as [Hnd Hall].
  destruct (draw_manhattan_plot_inv _ _ _ _ _ Hfig)
    as (cs & limits & _ & _ & _ & _ & Hcalls & Hylim & Hshown).
  rewrite Hcalls, Hylim, Hshown. split; [|split].
  - intros d ->. rewrite bind_join_imap.
    erewrite imap_ext; [|intros; apply draw_significant_points].
    rewrite join_imap_const.
    erewrite list_bind_ext;
      [|intros e; by rewrite chr_rows_filter|reflexivity].
    apply drawn_at_rows; [done|].
    intros m [_ Hm]%list_elem_of_filter. apply (Hall d); [|done].
    unfold supplied. simpl. left.
  - rewrite !bind_join_imap.
    erewrite imap_ext; [|intros; apply draw_annotated_points].
    destruct (arg_no_annotation (raw args)); simpl.
    + by rewrite join_imap_const, bind_nil_in.
    + destruct twopoint as [d|]; simpl; [done|].
      erewrite imap_ext; [|intros; apply draw_significant_points].
      by rewrite join_imap_const, bind_nil_in.
  - eexists. split; [reflexivity|]. simpl.
    intros label xy xytext Hin.
    apply list_elem_of_join in Hin as (l & Hl & Hin).
    apply list_elem_of_lookup in Hin as [k Hk].
    rewrite list_lookup_imap in Hk.
    destruct (chromosomes (fig_axis fig) !! k) as [e|]; [|done].
    injection Hk as <-. unfold draw_chromosome in Hl.
    rewrite !elem_of_app in Hl.
    destruct Hl as [Hl|[Hl|[Hl|[Hl|[Hl|Hl]]]]].
    + case_decide; [|by apply elem_of_nil in Hl].
      by apply list_elem_of_singleton in Hl.
    + destruct twopoint; [|by apply elem_of_nil in Hl].
      by apply list_elem_of_singleton in Hl.
    + destruct multipoint; [|by apply elem_of_nil in Hl].
      by apply list_elem_of_singleton in Hl.
    + by apply list_elem_of_fmap in Hl as (? & ? & _).
    + case_decide; [|by apply elem_of_nil in Hl].
      by apply list_elem_of_singleton in Hl.
    + destruct twopoint; [|by apply elem_of_nil in Hl].
      apply elem_of_cons in Hl as [?|Hl]; [done|].
      destruct (arg_no_annotation _); [by apply elem_of_nil in Hl|].
      apply list_elem_of_fmap in Hl as (m & Hm & _).
      unfold annotate_marker in Hm. by injection Hm as -> -> ->.
Qed.

(** ** Threshold lines, colours and boxes *)

Lemma draw_abline_levels args twopoint multipoint conf_min conf_max i e :
  draw_chromosome format_3f str_pow10_neg args twopoint multipoint
    conf_min conf_max i e ≫= abline_levels
  = abline args.
Proof.
  unfold draw_chromosome. rewrite !bind_app.
  rewrite (list_fmap_bind _ _ (abline args)). unfold compose.
  cbn [abline_levels].
  assert (Hid : ∀ l : list F, l ≫= (λ x, [x]) = l).
  { intros l. rewrite (bind_singleton (λ x, x)). apply list_fmap_id. }
  rewrite Hid.
  destruct twopoint as [d|], multipoint as [d'|];
    repeat case_decide; cbn [mbind list_bind abline_levels app];
    rewrite ?app_nil_r;
    try (destruct (arg_no_annotation _));
    rewrite ?(bind_nil_in _ (annotate_marker _ _ _ _ _ <$> _))
      by (by intros ? (? & -> & _)%list_elem_of_fmap);
    by rewrite ?app_nil_r.
Qed.

Lemma draw_twopoint_color args twopoint multipoint conf_min conf_max i e :
  draw_chromosome format_3f str_pow10_neg args twopoint multipoint
    conf_min conf_max i e ≫= twopoint_color
  = match twopoint with
    | Some _ => [chromosome_color (raw args) i]
    | None => []
    end.
Proof.
  unfold draw_chromosome. rewrite !bind_app.
  rewrite (bind_nil_in _ (Axhline_abline <$> _))
    by (by intros ? (? & -> & _)%list_elem_of_fmap).
  destruct twopoint as [d|], multipoint as [d'|];
    repeat case_decide; cbn [mbind list_bind twopoint_color app];
    rewrite ?app_nil_r;
    try (destruct (arg_no_annotation _));
    rewrite ?(bind_nil_in _ (annotate_marker _ _ _ _ _ <$> _))
      by (by intros ? (? & -> & _)%list_elem_of_fmap);
    by rewrite ?app_nil_r.
Qed.

Lemma draw_multipoint_line_color args twopoint multipoint conf_min conf_max i e :
  draw_chromosome format_3f str_pow10_neg args twopoint multipoint
    conf_min conf_max i e ≫= multipoint_line_color
  = match multipoint with
    | Some _ => [match twopoint with
                 | Some _ => arg_multipoint_color (raw args)
                 | None => chromosome_color (raw args) i
                 end]
    | None => []
    end.
Proof.
  unfold draw_chromosome. rewrite !bind_app.
  rewrite (bind_nil_in _ (Axhline_abline <$> _))
    by (by intros ? (? & -> & _)%list_elem_of_fmap).
  destruct twopoint as [d|], multipoint as [d'|];
    repeat case_decide; cbn [mbind list_bind multipoint_line_color app];
    rewrite ?app_nil_r;
    try (destruct (arg_no_annotation _));
    rewrite ?(bind_nil_in _ (annotate_marker _ _ _ _ _ <$> _))
      by (by intros ? (? & -> & _)%list_elem_of_fmap);
    by rewrite ?app_nil_r.
Qed.

Lemma draw_shaded_box args twopoint multipoint conf_min conf_max i e :
  draw_chromosome format_3f str_pow10_neg args twopoint multipoint
    conf_min conf_max i e ≫= shaded_box
  = if decide (i mod 2 = 1)%nat then [(box_min e, box_max e)] else [].
Proof.
  unfold draw_chromosome. rewrite !bind_app.
  rewrite (bind_nil_in _ (Axhline_abline <$> _))
    by (by intros ? (? & -> & _)%list_elem_of_fmap).
  destruct twopoint as [d|], multipoint as [d'|];
    repeat case_decide; cbn [mbind list_bind shaded_box app];
    rewrite ?app_nil_r;
    try (destruct (arg_no_annotation _));
    rewrite ?(bind_nil_in _ (annotate_marker _ _ _ _ _ <$> _))
      by (by intros ? (? & -> & _)%list_elem_of_fmap);
    by rewrite ?app_nil_r.
Qed.

Lemma even_rank k : ((2 * k) mod 2 = 0)%nat.
Proof. rewrite Nat.mul_comm. apply Nat.Div0.mod_mul. Qed.

Lemma odd_rank k : ((2 * k + 1) mod 2 = 1)%nat.
Proof. rewrite Nat.add_comm, Nat.mul_comm, Nat.Div0.mod_add. done. Qed.

Lemma chromosome_color_even (a : raw_args F) i :
  chromosome_color a i
  = if Nat.even i then arg_odd_chromosome_color a
    else arg_even_chromosome_color a.
Proof.
  unfold chromosome_color. destruct (Nat.even i) eqn:E.
  - apply Nat.even_spec in E as [k ->].
    rewrite decide_True; [done|apply even_rank].
  - rewrite <- Nat.negb_odd in E. apply negb_false_iff, Nat.odd_spec in E as [k ->].
    rewrite decide_False; [done|]. by rewrite odd_rank.
Qed.

Lemma flt_irrefl (x : F) : ¬ flt x x.
Proof. by intros [? ?]. Qed.

(** X13. The threshold lines are drawn anew for every chromosome:
    the levels of the dashed lines, in the order the calls are made,
    are the whole [abline] list once per chromosome of the x axis.
    The solid line at zero is only ever drawn in LOD mode with
    negative values allowed. *)
Theorem threshold_lines_per_chromosome tcl_error args twopoint multipoint fig :
  draw_manhattan_plot format_3f str_pow10_neg tcl_error args twopoint multipoint = Ok fig →
  fig_calls fig ≫= abline_levels
  = xticklabels (fig_axis fig) ≫= (λ _, abline args)
  ∧ (Axhline_zero ∈ fig_calls fig →
     arg_no_negative_values (raw args) = false
     ∧ arg_use_pvalues_flag (raw args) = false).
Proof.
  intros Hfig.
  destruct (draw_manhattan_plot_inv _ _ _ _ _ Hfig)
    as (cs & limits & _ & _ & Hplan & Hchrs & -> & _).
  assert (Hx : xticklabels (fig_axis fig) = cs).
  { unfold plan_layout in Hplan.
    destruct (layout_loop _ _ _ _ _ _) as [[? ?]|]; [|done].
    by injection Hplan as <-. }
  split.
  - rewrite bind_join_imap.
    erewrite imap_ext; [|intros; apply draw_abline_levels].
    rewrite join_imap_const, Hx, <- Hchrs. by rewrite list_fmap_bind.
  - intros Hin.
    apply list_elem_of_join in Hin as (l & Hl & Hin).
    apply list_elem_of_lookup in Hin as [k Hk].
    rewrite list_lookup_imap in Hk.
    destruct (chromosomes (fig_axis fig) !! k) as [e|]; [|done].
    injection Hk as <-. unfold draw_chromosome in Hl.
    rewrite !elem_of_app in Hl.
    destruct Hl as [Hl|[Hl|[Hl|[Hl|[Hl|Hl]]]]].
    + case_decide; [|by apply elem_of_nil in Hl].
      by apply list_elem_of_singleton in Hl.
    + destruct twopoint; [|by apply elem_of_nil in Hl].
      by apply list_elem_of_singleton in Hl.
    + destruct multipoint; [|by apply elem_of_nil in Hl].
      by apply list_elem_of_singleton in Hl.
    + by apply list_elem_of_fmap in Hl as (? & ? & _).
    + case_decide as Hlt; [|by apply elem_of_nil in Hl].
      unfold y_limits in Hlt. simpl in Hlt.
      destruct (arg_no_negative_values _), (arg_use_pvalues_flag _);
        simpl in Hlt; try done; by apply flt_irrefl in Hlt.
    + destruct twopoint; [|by apply elem_of_nil in Hl].
      apply elem_of_cons in Hl as [?|Hl]; [done|].
      destruct (arg_no_annotation _); [by apply elem_of_nil in Hl|].
      by apply list_elem_of_fmap in Hl as (m & Hm & _).
Qed.

(** X14. Colours and shading go by the rank of a chromosome among
    those drawn, counted from zero, not by its code: the two-point
    series at an even rank takes the odd-chromosome colour and the
    one at an odd rank the even-chromosome colour; the multipoint
    line takes the multipoint colour throughout when two-point data
    is drawn too, and alternates like the points otherwise; the boxes
    at odd ranks, and only those, are shaded. *)
Theorem colours_by_rank tcl_error args twopoint multipoint fig :
  draw_manhattan_plot format_3f str_pow10_neg tcl_error args twopoint multipoint = Ok fig →
  let a := raw args in
  let alternate (i : nat) := if Nat.even i then arg_odd_chromosome_color a
                             else arg_even_chromosome_color a in
  (is_Some twopoint →
   fig_calls fig ≫= twopoint_color
   = imap (λ i _, alternate i) (xticklabels (fig_axis fig)))
  ∧ (is_Some multipoint →
     fig_calls fig ≫= multipoint_line_color
     = imap (λ i _, if twopoint is Some _ then arg_multipoint_color a
                    else alternate i) (xticklabels (fig_axis fig)))
  ∧ fig_calls fig ≫= shaded_box
    = mjoin (imap (λ i e, if Nat.odd i then [(box_min e, box_max e)] else [])
               (chromosomes (fig_axis fig))).
Proof.
  intros Hfig a alternate.
  destruct (draw_manhattan_plot_inv _ _ _ _ _ Hfig)
    as (cs & limits & _ & _ & Hplan & Hchrs & -> & _).
  assert (Hx : xticklabels (fig_axis fig) = cs).
  { unfold plan_layout in Hplan.
    destruct (layout_loop _ _ _ _ _ _) as [[? ?]|]; [|done].
    by injection Hplan as <-. }
  assert (Hsingle : ∀ {A B} (f : nat → A → B) (l : list A),
            mjoin (imap (λ i x, [f i x]) l) = imap f l).
  { intros A B f l. revert f. induction l as [|x l IH]; intros f; [done|].
    cbn [imap mjoin list_join]. rewrite <- (IH (f ∘ S)). done. }
  rewrite !bind_join_imap, Hx, <- Hchrs, !imap_fmap.
  split; [|split].
  - intros [d ->].
    erewrite imap_ext; [|intros; apply draw_twopoint_color].
    cbv beta iota. rewrite Hsingle. apply imap_ext. intros i e _. simpl.
    apply chromosome_color_even.
  - intros [d ->].
    erewrite imap_ext; [|intros; apply draw_multipoint_line_color].
    cbv beta iota. rewrite Hsingle. apply imap_ext. intros i e _. simpl.
    destruct twopoint; [done|]. apply chromosome_color_even.
  - erewrite imap_ext; [|intros; apply draw_shaded_box]. f_equal.
    apply imap_ext. intros i e _. cbv beta.
    destruct (Nat.odd i) eqn:E.
    + apply Nat.odd_spec in E as [k ->].
      rewrite decide_True; [done|apply odd_rank].
    + rewrite <- Nat.negb_even in E.
      apply negb_false_iff, Nat.even_spec in E as [k ->].
      rewrite decide_False; [done|]. by rewrite even_rank.
Qed.

End DrawingFacts.

(** The figure is drawn for datasets that have rows and agree on
    their chromosomes. *)
Lemma draw_manhattan_plot_ok {F : Type} `{!PyFloat F}
    (format_3f str_pow10_neg : F → string) (args : checked_args F)
    twopoint multipoint cs :
  available_chromosomes twopoint multipoint = Ok cs →
  (∀ d, d ∈ supplied twopoint multipoint → d ≠ []) →
  ∃ fig,
    draw_manhattan_plot format_3f str_pow10_neg false args twopoint multipoint
    = Ok fig
    ∧ xticklabels (fig_axis fig) = cs.
Proof.
  intros Hcs Hne.
  destruct (create_manhattan_plot_ok twopoint multipoint
              (arg_phys_pos_flag (raw args)) cs Hcs Hne) as (p & Hp & _ & Hx & _).
  destruct (proj2 (draw_manhattan_plot_layout format_3f str_pow10_neg false args
                     twopoint multipoint) p Hp) as (fig & Hfig & Hax).
  exists fig. split; [done|]. by rewrite Hax.
Qed.

Lemma example_figure :
  ∃ fig,
    draw_manhattan_plot format_any format_any false two_point_checked
      (Some [r1; r2; r5]) (Some [r5; r1]) = Ok fig
    ∧ xticklabels (fig_axis fig) = [1; 5].
Proof.
  apply draw_manhattan_plot_ok; [vm_compute; reflexivity|].
  unfold supplied. simpl. intros d.
  rewrite !elem_of_cons, elem_of_nil. by intros [->|[->|[]]].
Qed.

Lemma every_record_drawn_once_witness :
  ∃ fig,
    draw_manhattan_plot format_any format_any false two_point_checked
      (Some [r1; r2; r5]) (Some [r5; r1]) = Ok fig
    ∧ fig_calls fig ≫= twopoint_points
      ≡ₚ drawn_at (chromosomes (fig_axis fig)) <$> [r1; r2; r5].
Proof.
  destruct example_figure as (fig & Hfig & _).
  exists fig. split; [exact Hfig|].
  exact (proj1 (every_record_drawn_once format_any format_any _ _ _ _ _ Hfig)
           _ eq_refl).
Defined.

Lemma significant_markers_annotated_witness :
  ∃ fig,
    draw_manhattan_plot format_any format_any false two_point_checked
      (Some [r1; r2; r5]) (Some [r5; r1]) = Ok fig
    ∧ fig_calls fig ≫= annotated_points
      = (if fig_shown fig then fig_calls fig ≫= significant_points else []).
Proof.
  destruct example_figure as (fig & Hfig & _).
  exists fig. split; [exact Hfig|].
  exact (proj1 (proj2 (significant_markers_annotated format_any format_any
                         _ _ _ _ _ Hfig))).
Defined.

Lemma threshold_lines_per_chromosome_witness :
  ∃ fig,
    draw_manhattan_plot format_any format_any false two_point_checked
      (Some [r1; r2; r5]) (Some [r5; r1]) = Ok fig
    ∧ fig_calls fig ≫= abline_levels = [3; -2; 3; -2]%R.
Proof.
  destruct example_figure as (fig & Hfig & Hx).
  exists fig. split; [exact Hfig|].
  rewrite (proj1 (threshold_lines_per_chromosome format_any format_any
                    _ _ _ _ _ Hfig)), Hx.
  reflexivity.
Defined.

Lemma colours_by_rank_witness :
  ∃ fig,
    draw_manhattan_plot format_any format_any false two_point_checked
      (Some [r1; r2; r5]) (Some [r5; r1]) = Ok fig
    ∧ fig_calls fig ≫= twopoint_color = ["#4D4D4D"; "#1874CD"]
    ∧ fig_calls fig ≫= multipoint_line_color = ["#FF8C00"; "#FF8C00"].
Proof.
  destruct example_figure as (fig & Hfig & Hx).
  exists fig. split; [exact Hfig|].
  destruct (colours_by_rank format_any format_any _ _ _ _ _ Hfig)
    as (Htp & Hmp & _).
  rewrite Htp, Hmp, Hx by (by eexists). by split.
Defined.

(** ** The drawing over the reals *)

Local Open Scope R_scope.

Lemma spacing_preset_pos (flag : bool) : 0 < spacing_preset (F:=R) flag.
Proof. unfold spacing_preset. destruct flag; cbn [of_Z RealFloat]; lra. Qed.

(** Where the loop puts the entries, from a non-negative largest
    position per chromosome. *)
Lemma layout_loop_bounds twopoint multipoint (sp : R) cs :
  0 < sp →
  ∀ s final L,
    (∀ c m, c ∈ cs → max_position twopoint multipoint c = Ok m → 0 <= m) →
    layout_loop twopoint multipoint sp cs s [] = Ok (final, L) →
    s <= final
    ∧ ∀ e, e ∈ L →
        ∃ m, max_position twopoint multipoint (chromosome e) = Ok m
             ∧ s <= start_offset e
             ∧ box_min e = start_offset e - sp / 2
             ∧ box_max e = start_offset e + m + sp / 2
             ∧ box_max e + sp / 2 <= final.
Proof.
  intros Hsp. induction cs as [|c cs IH]; intros s final L Hpos Hloop.
  - simpl in Hloop. injection Hloop as <- <-. split; [lra|].
    by intros e ?%elem_of_nil.
  - cbn [layout_loop] in Hloop.
    destruct (max_position twopoint multipoint c) as [m|] eqn:Hm;
      cbn [mbind result_bind] in Hloop; [|done].
    rewrite layout_loop_nil_acc in Hloop.
    destruct (layout_loop _ _ _ cs _ []) as [[f L']|] eqn:Hl';
      cbn [mbind result_bind] in Hloop; [|done].
    injection Hloop as <- <-.
    assert (Hm0 : 0 <= m) by (apply (Hpos c); [left|done]).
    apply IH in Hl' as [Hf HL']; [|intros c' m' Hc'; apply Hpos; by right].
    cbn [fadd fsub fdiv of_Z RealFloat] in *.
    split; [lra|]. intros e [->|He]%elem_of_cons.
    + exists m. simpl. split; [done|]. lra.
    + destruct (HL' e He) as (m' & Hm' & Hs & Hbmin & Hbmax & Hfin).
      exists m'. split; [done|]. lra.
Qed.

(** X15. When no position is negative, every record of a supplied
    dataset is drawn strictly inside the box of its chromosome, and
    every box lies strictly inside the limits of the x axis. *)
Theorem records_inside_boxes (format_3f str_pow10_neg : R → string)
    (tcl_error : bool) (args : checked_args R) twopoint multipoint fig :
  draw_manhattan_plot format_3f str_pow10_neg tcl_error args twopoint multipoint = Ok fig →
  (∀ d m, d ∈ supplied twopoint multipoint → m ∈ d → 0 <= pos m) →
  ∀ d m, d ∈ supplied twopoint multipoint → m ∈ d →
    ∃ e, e ∈ chromosomes (fig_axis fig)
         ∧ chromosome e = chr m
         ∧ box_min e < fst (drawn_at (chromosomes (fig_axis fig)) m) < box_max e
         ∧ fst (xlim (fig_axis fig)) < box_min e
         ∧ box_max e < snd (xlim (fig_axis fig)).
Proof.
  intros Hfig Hpos d m Hd Hm.
  destruct (draw_manhattan_plot_chromosomes _ _ _ _ _ _ _ Hfig) as [Hnd Hall].
  destruct (draw_manhattan_plot_inv _ _ _ _ _ _ _ Hfig)
    as (cs & limits & Hcs & _ & Hplan & Hchrs & _).
  pose proof (spacing_preset_pos (arg_phys_pos_flag (raw args))) as Hsp.
  set (sp := spacing_preset (arg_phys_pos_flag (raw args))) in *.
  unfold plan_layout in Hplan.
  destruct (layout_loop _ _ _ cs _ []) as [[final L]|] eqn:Hloop;
    cbn [mbind result_bind] in Hplan; [|done].
  injection Hplan as Hax. rewrite <- Hax in *. simpl in *.
  destruct (layout_loop_bounds twopoint multipoint sp cs Hsp (of_Z 0) final L)
    as [Hfinal HL]; [|exact Hloop|].
  { intros c mx _ Hmx.
    apply max_position_real in Hmx as [(d' & r & Hd' & Hr & _ & <-) _].
    by apply (Hpos d'). }
  pose proof (Hall d m Hd Hm) as Hin.
  apply list_elem_of_fmap in Hin as (e & He & HeL).
  destruct (HL e HeL) as (mx & Hmx & Hs & Hbmin & Hbmax & Hfin).
  apply max_position_real in Hmx as [_ Hub].
  assert (Hle : pos m <= mx) by (by apply (Hub d)).
  assert (H0 : 0 <= pos m) by (by apply (Hpos d)).
  exists e. split; [done|]. split; [done|].
  unfold drawn_at. rewrite He, offset_of_entry by done.
  cbn [fadd fsub fdiv of_Z RealFloat fst snd] in *. lra.
Qed.

Lemma records_inside_boxes_witness :
  ∃ fig e,
    draw_manhattan_plot format_any format_any false two_point_checked
      (Some [r1; r2; r5]) (Some [r5; r1]) = Ok fig
    ∧ e ∈ chromosomes (fig_axis fig)
    ∧ chromosome e = 5%Z
    ∧ box_min e < fst (drawn_at (chromosomes (fig_axis fig)) r5) < box_max e.
Proof.
  destruct example_figure as (fig & Hfig & _).
  destruct (records_inside_boxes format_any format_any _ _ _ _ _ Hfig)
    with (d := [r1; r2; r5]) (m := r5) as (e & He & Hc & Hbox & _).
  - unfold supplied. simpl. intros d m.
    rewrite !elem_of_cons, elem_of_nil.
    intros [->|[->|[]]]; rewrite !elem_of_cons, elem_of_nil;
      intros Hm; repeat destruct Hm as [->|Hm]; try done; simpl; lra.
  - unfold supplied. simpl. left.
  - do 2 right. left.
  - exists fig, e. done.
Defined.

(** ** The limits of the y axis *)

Lemma fmin_real (a b : R) :
  (fmin a b = a ∨ fmin a b = b) ∧ fmin a b <= a ∧ fmin a b <= b.
Proof.
  unfold fmin. destruct (decide (fle a b)) as [H|H]; simpl in H; lra.
Qed.

Lemma foldl_fmin_real (l : list R) (x : R) :
  foldl fmin x l ∈ x :: l ∧ ∀ y, y ∈ x :: l → foldl fmin x l <= y.
Proof.
  revert x. induction l as [|a l IH]; intros x; simpl.
  - split; [left|]. intros y ->%list_elem_of_singleton. lra.
  - destruct (IH (fmin x a)) as [Hin Hlb].
    destruct (fmin_real x a) as (Hor & Hx & Ha). split.
    + apply elem_of_cons in Hin as [E|Hin]; [|by do 2 right].
      rewrite E. destruct Hor as [-> | ->]; [left | right; left].
    + intros y [->|[->|Hy]%elem_of_cons]%elem_of_cons.
      * etrans; [|exact Hx]. apply Hlb. left.
      * etrans; [|exact Ha]. apply Hlb. left.
      * apply Hlb. by right.
Qed.

Lemma np_min_real (l : list R) (m : R) :
  np_min l = Ok m → m ∈ l ∧ ∀ y, y ∈ l → m <= y.
Proof.
  destruct l as [|x l]; [done|]. intros [= <-]. apply foldl_fmin_real.
Qed.

Lemma dataset_conf_limits_real (d : list (marker R)) lo hi :
  dataset_conf_limits d = Ok (lo, hi) →
  (∃ m, m ∈ d ∧ conf m = lo) ∧ (∃ m, m ∈ d ∧ conf m = hi)
  ∧ ∀ m, m ∈ d → lo <= conf m <= hi.
Proof.
  unfold dataset_conf_limits.
  destruct (np_min (conf <$> d)) as [lo'|] eqn:Hlo; cbn [mbind result_bind]; [|done].
  destruct (np_max (conf <$> d)) as [hi'|] eqn:Hhi; cbn [mbind result_bind]; [|done].
  intros [= <- <-].
  apply np_min_real in Hlo as [Hlo_in Hlo].
  apply np_max_real in Hhi as [Hhi_in Hhi].
  apply list_elem_of_fmap in Hlo_in as (m1 & -> & Hm1).
  apply list_elem_of_fmap in Hhi_in as (m2 & -> & Hm2).
  split; [by exists m1|]. split; [by exists m2|].
  intros m Hm. split; [apply Hlo | apply Hhi]; apply list_elem_of_fmap; eauto.
Qed.

(** [conf_min] is zero or the smallest confidence, whichever is
    smaller; [conf_max] is the largest confidence. *)
Lemma conf_limits_real (twopoint multipoint : option (list (marker R))) lo hi :
  conf_limits twopoint multipoint = Ok (lo, hi) →
  lo <= 0
  ∧ (∃ d m, d ∈ supplied twopoint multipoint ∧ m ∈ d ∧ conf m = hi)
  ∧ ∀ d m, d ∈ supplied twopoint multipoint → m ∈ d → lo <= conf m <= hi.
Proof.
  unfold conf_limits, supplied.
  destruct twopoint as [d1|], multipoint as [d2|]; simpl.
  - destruct (dataset_conf_limits d1) as [[lo1 hi1]|] eqn:H1;
      cbn [mbind result_bind]; [|done].
    destruct (dataset_conf_limits d2) as [[lo2 hi2]|] eqn:H2;
      cbn [mbind result_bind]; [|done].
    simpl. intros [= <- <-].
    apply dataset_conf_limits_real in H1 as (_ & (m1 & Hm1 & Hc1) & Hb1).
    apply dataset_conf_limits_real in H2 as (_ & (m2 & Hm2 & Hc2) & Hb2).
    destruct (fmin_real 0 lo1) as (_ & Ha & Hb).
    destruct (fmin_real (fmin 0 lo1) lo2) as (_ & Hc & Hd).
    destruct (fmax_real hi1 hi2) as (Hor & He & Hf).
    cbn [of_Z RealFloat] in *.
    split; [lra|]. split.
    + destruct Hor as [-> | ->].
      * exists d1, m1. split; [left|done].
      * exists d2, m2. split; [right; left|done].
    + intros d m. rewrite !elem_of_cons, elem_of_nil.
      intros [->|[->|[]]] Hm.
      * specialize (Hb1 m Hm). lra.
      * specialize (Hb2 m Hm). lra.
  - destruct (dataset_conf_limits d1) as [[lo1 hi1]|] eqn:H1;
      cbn [mbind result_bind]; [|done].
    simpl. intros [= <- <-].
    apply dataset_conf_limits_real in H1 as (_ & (m1 & Hm1 & Hc1) & Hb1).
    destruct (fmin_real 0 lo1) as (_ & Ha & Hb).
    cbn [of_Z RealFloat] in *.
    split; [lra|]. split.
    + exists d1, m1. split; [left|done].
    + intros d m. rewrite !elem_of_cons, elem_of_nil.
      intros [->|[]] Hm. specialize (Hb1 m Hm). lra.
  - destruct (dataset_conf_limits d2) as [[lo2 hi2]|] eqn:H2;
      cbn [mbind result_bind]; [|done].
    simpl. intros [= <- <-].
    apply dataset_conf_limits_real in H2 as (_ & (m2 & Hm2 & Hc2) & Hb2).
    destruct (fmin_real 0 lo2) as (_ & Ha & Hb).
    cbn [of_Z RealFloat] in *.
    split; [lra|]. split.
    + exists d2, m2. split; [left|done].
    + intros d m. rewrite !elem_of_cons, elem_of_nil.
      intros [->|[]] Hm. specialize (Hb2 m Hm). lra.
  - done.
Qed.

Lemma y_padding_real (a : raw_args R) : 0 <= y_padding a.
Proof.
  unfold y_padding. destruct (arg_no_y_padding a);
    cbn [of_Z fdiv RealFloat]; lra.
Qed.

(** X16. The limits of the y axis.  Without an upper limit on the
    command line, the top is the padding above the largest
    confidence, so no record is cut off and the tallest one is exactly
    the padding below the top.  In p-value mode or when negative
    values are refused, the bottom is the padding below zero whatever
    lower limit was asked for.  Otherwise, without a lower limit on
    the command line, the bottom is at least the padding below zero
    and below every record; and with both limits given, the upper
    above the lower as [checkArgs] demands, the bottom is below the
    top. *)
Theorem y_axis_limits (format_3f str_pow10_neg : R → string)
    (tcl_error : bool) (args : checked_args R) twopoint multipoint fig :
  draw_manhattan_plot format_3f str_pow10_neg tcl_error args twopoint multipoint = Ok fig →
  let a := raw args in
  let lo := fst (fig_ylim fig) in
  let hi := snd (fig_ylim fig) in
  let forced := arg_no_negative_values a || arg_use_pvalues_flag a in
  (arg_max_ylim a = None →
     (∀ d m, d ∈ supplied twopoint multipoint → m ∈ d →
             conf m + y_padding a <= hi)
     ∧ ∃ d m, d ∈ supplied twopoint multipoint ∧ m ∈ d
              ∧ hi = conf m + y_padding a)
  ∧ (forced = true → lo = 0 - y_padding a)
  ∧ (forced = false → arg_min_ylim a = None →
       lo + y_padding a <= 0
       ∧ ∀ d m, d ∈ supplied twopoint multipoint → m ∈ d →
                lo + y_padding a <= conf m)
  ∧ (forced = false →
     ∀ mx mn, arg_max_ylim a = Some mx → arg_min_ylim a = Some mn →
              ¬ fle mx mn → lo < hi).
Proof.
  intros Hfig a lo hi forced.
  destruct (draw_manhattan_plot_inv _ _ _ _ _ _ _ Hfig)
    as (cs & [cmin cmax] & _ & Hlim & _ & _ & _ & Hylim & _).
  apply conf_limits_real in Hlim as (Hmin0 & (d0 & m0 & Hd0 & Hm0 & Hc0) & Hb).
  pose proof (y_padding_real a) as Hpad.
  subst lo hi forced. rewrite Hylim. unfold y_limits. fold a.
  cbn [fst snd fadd fsub of_Z RealFloat].
  split; [|split; [|split]].
  - intros ->. split.
    + intros d m Hd Hm. specialize (Hb d m Hd Hm). lra.
    + exists d0, m0. split; [done|]. split; [done|]. lra.
  - intros ->. lra.
  - intros -> ->. split; [lra|].
    intros d m Hd Hm. specialize (Hb d m Hd Hm). lra.
  - intros -> mx mn -> -> Hle. cbn [fle RealFloat] in Hle. lra.
Qed.

Lemma y_axis_limits_witness :
  ∃ fig,
    draw_manhattan_plot format_any format_any false two_point_checked
      (Some [r1; r2; r5]) (Some [r5; r1]) = Ok fig
    ∧ ∀ d m, d ∈ supplied (Some [r1; r2; r5]) (Some [r5; r1]) → m ∈ d →
             conf m + 39 / 100 <= snd (fig_ylim fig).
Proof.
  destruct example_figure as (fig & Hfig & _).
  exists fig. split; [exact Hfig|].
  exact (proj1 (proj1 (y_axis_limits format_any format_any _ _ _ _ _ Hfig)
                  eq_refl)).
Defined.

Local Close Scope R_scope.


(** * Draggable annotations *)

Section DraggingFacts.
Context {F : Type} `{!PyFloat F}.
Variable contains : nat → draggable F → mouse_event F → bool.
Variable handler_order : gui_event F → canvas F → list nat.

(** Every connected instance is called once for an event. *)
Hypothesis handler_order_once :
  ∀ ev st, handler_order ev st ≡ₚ seq 0 (length (drs st)).

Lemma handler_order_split ev (st : canvas F) h :
  (h < length (drs st))%nat →
  ∃ pre post, handler_order ev st = pre ++ h :: post ∧ (h ∉ pre) ∧ (h ∉ post).
Proof.
  intros Hlt.
  assert (Hin : h ∈ handler_order ev st).
  { rewrite handler_order_once, elem_of_seq. lia. }
  apply list_elem_of_split in Hin as (pre & post & E).
  exists pre, post. split; [done|].
  assert (Hnd : NoDup (handler_order ev st)).
  { rewrite handler_order_once. apply NoDup_seq. }
  rewrite E in Hnd. apply NoDup_app in Hnd as (_ & Hpre & Hnd).
  apply NoDup_cons in Hnd as [Hpost _]. split; [|done].
  intros Hp. apply (Hpre h Hp). left.
Qed.

Lemma process_app (ev : gui_event F) l1 l2 st :
  process contains ev (l1 ++ l2) st
  = process contains ev l1 st ≫= process contains ev l2.
Proof.
  revert st. induction l1 as [|i l1 IH]; intros st; [done|].
  cbn [app process]. destruct (callback contains ev i st); simpl; [apply IH|done].
Qed.

Lemma run_app (evs1 evs2 : list (gui_event F)) st :
  run contains handler_order (evs1 ++ evs2) st = run contains handler_order evs1 st ≫= run contains handler_order evs2.
Proof.
  revert st. induction evs1 as [|ev evs1 IH]; intros st; [done|].
  cbn [app run]. destruct (dispatch contains handler_order ev st); simpl; [apply IH|done].
Qed.

(** ** The lock *)

Lemma callback_consistent (ev : gui_event F) self st :
  consistent st →
  ∃ st', callback contains ev self st = Some st'
         ∧ consistent st'
         ∧ annot_axes <$> drs st' = annot_axes <$> drs st.
Proof.
  intros [Hheld Hrest].
  assert (Hins : ∀ d d', drs st !! self = Some d → annot_axes d' = annot_axes d →
            annot_axes <$> <[self := d']> (drs st) = annot_axes <$> drs st).
  { intros d d' Hd E. rewrite list_fmap_insert, E.
    apply list_insert_id. by rewrite list_lookup_fmap, Hd. }
  destruct ev as [event|event|event]; cbn [callback].
  - eexists. split; [done|]. unfold on_press.
    destruct (drs st !! self) as [d|] eqn:Hd; [|done].
    case_decide; [done|]. case_decide as Hlock; [done|].
    destruct (contains self d event); simpl; [|done].
    destruct (xyann d) as [x0 y0] eqn:Hxy.
    assert (Hnone : lock st = None) by (by destruct (lock st); [destruct Hlock|]).
    pose proof (lookup_lt_Some _ _ _ Hd) as Hlt.
    split; [split|]; simpl.
    + intros h [= <-]. rewrite list_lookup_insert_eq by done.
      eexists. split; [done|]. by split; [eexists|].
    + intros i d' Hi Hne.
      rewrite list_lookup_insert_ne in Hi by congruence.
      apply (Hrest i d' Hi). by rewrite Hnone.
    + by eapply Hins.
  - unfold on_motion.
    destruct (drs st !! self) as [d|] eqn:Hd; [|by eexists].
    case_decide as Hlock; [by eexists|].
    case_decide; [by eexists|].
    assert (Hself : lock st = Some self)
      by (destruct (decide (lock st = Some self)); [done|by destruct Hlock]).
    destruct (Hheld self Hself) as (d0 & Hd0 & [x Hx] & Han & Hbg).
    rewrite Hd in Hd0. injection Hd0 as <-.
    rewrite Hx. destruct x as [[[x0 y0] xpress] ypress]. simpl.
    pose proof (lookup_lt_Some _ _ _ Hd) as Hlt.
    eexists. split; [done|]. split; [split|]; simpl.
    + intros h Hh. rewrite Hself in Hh. injection Hh as <-.
      rewrite list_lookup_insert_eq by done.
      eexists. split; [done|]. split; [by eexists|done].
    + intros i d' Hi Hne.
      rewrite list_lookup_insert_ne in Hi by congruence. by apply (Hrest i).
    + by eapply Hins.
  - eexists. split; [done|]. unfold on_release.
    destruct (drs st !! self) as [d|] eqn:Hd; [|done].
    case_decide as Hlock; [done|].
    assert (Hself : lock st = Some self)
      by (destruct (decide (lock st = Some self)); [done|by destruct Hlock]).
    pose proof (lookup_lt_Some _ _ _ Hd) as Hlt.
    split; [split|]; simpl.
    + done.
    + intros i d' Hi _. destruct (decide (i = self)) as [->|Hne].
      * rewrite list_lookup_insert_eq in Hi by done. by injection Hi as <-.
      * rewrite list_lookup_insert_ne in Hi by done.
        apply (Hrest i d' Hi). congruence.
    + by eapply Hins.
Qed.

Lemma process_consistent (ev : gui_event F) selves st :
  consistent st →
  ∃ st', process contains ev selves st = Some st'
         ∧ consistent st'
         ∧ annot_axes <$> drs st' = annot_axes <$> drs st.
Proof.
  revert st. induction selves as [|self selves IH]; intros st Hst.
  - by exists st.
  - destruct (callback_consistent ev self st Hst) as (st1 & H1 & Hc1 & Ha1).
    destruct (IH st1 Hc1) as (st2 & H2 & Hc2 & Ha2).
    exists st2. cbn [process]. rewrite H1. simpl.
    split; [done|]. split; [done|]. by rewrite Ha2.
Qed.

Lemma run_consistent (evs : list (gui_event F)) st :
  consistent st →
  ∃ st', run contains handler_order evs st = Some st'
         ∧ consistent st'
         ∧ annot_axes <$> drs st' = annot_axes <$> drs st.
Proof.
  revert st. induction evs as [|ev evs IH]; intros st Hst.
  - by exists st.
  - destruct (process_consistent ev (handler_order ev st) st Hst)
      as (st1 & H1 & Hc1 & Ha1).
    destruct (IH st1 Hc1) as (st2 & H2 & Hc2 & Ha2).
    exists st2. cbn [run]. unfold dispatch. rewrite H1. simpl.
    split; [done|]. split; [done|]. by rewrite Ha2.
Qed.

(** X17. Whatever the mouse does, the handlers never fail (the
    press data is there whenever a motion needs it) and the lock
    stays exclusive: the instance it names is the only one being
    dragged, with its press data, its animated flag and its pixel
    buffer set; every other instance is at rest; and no annotation
    changes axes. *)
Theorem dragging_never_fails (annots : list (nat * (F * F)))
    (evs : list (gui_event F)) :
  ∃ st, run contains handler_order evs (connect_all annots) = Some st
        ∧ consistent st
        ∧ annot_axes <$> drs st = fst <$> annots.
Proof.
  destruct (run_consistent evs (connect_all annots)) as (st & Hrun & Hc & Ha).
  - split; simpl; [done|].
    intros i d Hi _. rewrite list_lookup_fmap in Hi.
    destruct (annots !! i); [|done]. by injection Hi as <-.
  - exists st. split; [done|]. split; [done|].
    rewrite Ha. simpl. rewrite <- list_fmap_compose. done.
Qed.

(** ** Button press *)

Lemma on_press_locked self (event : mouse_event F) st :
  lock st ≠ None → on_press contains self event st = st.
Proof.
  intros Hlock. unfold on_press. destruct (drs st !! self); [|done].
  case_decide; [done|]. by case_decide.
Qed.

Lemma on_press_miss self (event : mouse_event F) st :
  (∀ d, drs st !! self = Some d → ¬ hit contains event self d) →
  on_press contains self event st = st.
Proof.
  intros Hmiss. unfold on_press. destruct (drs st !! self) as [d|]; [|done].
  case_decide as Hax; [done|]. case_decide; [done|].
  destruct (contains self d event) eqn:Hc; [|done].
  destruct (Hmiss d eq_refl). split; [|done].
  by destruct (decide (inaxes event = Some (annot_axes d))); [|destruct Hax].
Qed.

Lemma process_press_locked (event : mouse_event F) selves st :
  lock st ≠ None → process contains (Button_press event) selves st = Some st.
Proof.
  intros Hlock. induction selves as [|self selves IH]; [done|].
  cbn [process callback]. by rewrite on_press_locked.
Qed.

Lemma process_press_miss (event : mouse_event F) selves st :
  (∀ i d, i ∈ selves → drs st !! i = Some d → ¬ hit contains event i d) →
  process contains (Button_press event) selves st = Some st.
Proof.
  induction selves as [|self selves IH]; intros Hmiss; [done|].
  cbn [process callback]. rewrite on_press_miss.
  - simpl. apply IH. intros i d Hi. apply Hmiss. by right.
  - intros d. apply Hmiss. left.
Qed.

(** X18. A button press is taken by at most one annotation: by none
    while the lock is held or when the pointer is on no annotation,
    and otherwise by the one whose handler the canvas calls first
    among those that are on the axes of the event and under the
    pointer.  That one records where it stood and where the pointer
    was; no annotation moves. *)
Theorem press_grabs_first_hit (event : mouse_event F) (st : canvas F) :
  (lock st ≠ None →
   dispatch contains handler_order (Button_press event) st = Some st)
  ∧ (lock st = None →
     (∀ i d, drs st !! i = Some d → ¬ hit contains event i d) →
     dispatch contains handler_order (Button_press event) st = Some st)
  ∧ (lock st = None →
     ∀ called_before i called_after d,
       handler_order (Button_press event) st
       = called_before ++ i :: called_after →
       drs st !! i = Some d →
       hit contains event i d →
       (∀ j d', j ∈ called_before → drs st !! j = Some d' →
                ¬ hit contains event j d') →
       dispatch contains handler_order (Button_press event) st
       = Some {| lock := Some i;
                 drs := <[i := {| annot_axes := annot_axes d;
                                  xyann := xyann d;
                                  animated := true;
                                  press := Some (fst (xyann d), snd (xyann d),
                                                 xdata event, ydata event);
                                  background := true |}]> (drs st) |}).
Proof.
  unfold dispatch. split; [|split].
  - apply process_press_locked.
  - intros _ Hmiss. apply process_press_miss. intros i d _. apply Hmiss.
  - intros Hnone pre i post d -> Hd [Hax Hc] Hfirst.
    rewrite process_app, process_press_miss by done.
    simpl. cbn [callback]. unfold on_press at 1. rewrite Hd.
    rewrite decide_False by (by intros []).
    rewrite decide_False by (by intros []).
    rewrite Hc. simpl. destruct (xyann d) as [x0 y0] eqn:Hxy. simpl.
    by rewrite process_press_locked.
Qed.

(** ** Motion and release *)

Lemma process_motion_others (event : mouse_event F) h selves st :
  lock st = Some h → h ∉ selves →
  process contains (Motion_notify event) selves st = Some st.
Proof.
  intros Hlock. induction selves as [|j selves IH]; intros Hnotin; [done|].
  apply not_elem_of_cons in Hnotin as [Hne Hnotin].
  cbn [process callback]. unfold on_motion at 1.
  destruct (drs st !! j).
  - rewrite decide_True by congruence. simpl. by apply IH.
  - simpl. by apply IH.
Qed.

Lemma process_release_others (event : mouse_event F) selves st :
  (∀ j, j ∈ selves → lock st ≠ Some j) →
  process contains (Button_release event) selves st = Some st.
Proof.
  induction selves as [|j selves IH]; intros Hnot; [done|].
  cbn [process callback]. unfold on_release at 1.
  destruct (drs st !! j).
  - rewrite decide_True by (apply Hnot; left). simpl.
    apply IH. intros ??. apply Hnot. by right.
  - simpl. apply IH. intros ??. apply Hnot. by right.
Qed.

(** A motion moves the held annotation when the pointer is on its
    axes, and does nothing otherwise. *)
Lemma dispatch_motion (event : mouse_event F) h st d x0 y0 xpress ypress :
  lock st = Some h → drs st !! h = Some d →
  press d = Some (x0, y0, xpress, ypress) →
  dispatch contains handler_order (Motion_notify event) st
  = Some (if decide (inaxes event = Some (annot_axes d))
          then {| lock := Some h;
                  drs := <[h := {| annot_axes := annot_axes d;
                                   xyann := (fadd x0 (fsub (xdata event) xpress),
                                             fadd y0 (fsub (ydata event) ypress));
                                   animated := animated d;
                                   press := press d;
                                   background := background d |}]> (drs st) |}
          else st).
Proof.
  intros Hlock Hd Hpress. unfold dispatch.
  pose proof (lookup_lt_Some _ _ _ Hd) as Hlt.
  destruct (handler_order_split (Motion_notify event) st h Hlt)
    as (pre & post & -> & Hpre & Hpost).
  rewrite process_app.
  rewrite (process_motion_others _ h) by done.
  simpl. cbn [callback]. unfold on_motion at 1. rewrite Hd.
  rewrite (decide_False (P := lock st ≠ Some h)) by (by intros []).
  destruct (decide (inaxes event = Some (annot_axes d))) as [Hax|Hax].
  - rewrite (decide_False (P := inaxes event ≠ Some (annot_axes d)))
      by (by intros []).
    rewrite Hpress. simpl. rewrite Hlock.
    by apply (process_motion_others _ h).
  - rewrite (decide_True (P := inaxes event ≠ Some (annot_axes d))) by done.
    simpl. by apply (process_motion_others _ h).
Qed.

(** A release frees the lock and puts the held annotation to rest
    where it is. *)
Lemma dispatch_release (event : mouse_event F) h st d :
  lock st = Some h → drs st !! h = Some d →
  dispatch contains handler_order (Button_release event) st
  = Some {| lock := None;
            drs := <[h := {| annot_axes := annot_axes d;
                             xyann := xyann d;
                             animated := false;
                             press := None;
                             background := false |}]> (drs st) |}.
Proof.
  intros Hlock Hd. unfold dispatch.
  pose proof (lookup_lt_Some _ _ _ Hd) as Hlt.
  destruct (handler_order_split (Button_release event) st h Hlt)
    as (pre & post & -> & Hpre & Hpost).
  rewrite process_app.
  rewrite process_release_others.
  - simpl. cbn [callback]. unfold on_release at 1. rewrite Hd.
    rewrite decide_False by (by intros []). simpl.
    by apply process_release_others.
  - intros j Hj. rewrite Hlock. intros [= ->]. done.
Qed.

(** Where a run of motions leaves the held annotation. *)
Lemma run_motions h x0 y0 xpress ypress (motions : list (mouse_event F)) :
  ∀ st d,
    lock st = Some h → drs st !! h = Some d →
    press d = Some (x0, y0, xpress, ypress) →
    ∃ st' d',
      run contains handler_order (Motion_notify <$> motions) st = Some st'
      ∧ lock st' = Some h
      ∧ drs st' !! h = Some d'
      ∧ annot_axes d' = annot_axes d
      ∧ xyann d'
        = match last (filter (λ e, inaxes e = Some (annot_axes d)) motions) with
          | Some e => (fadd x0 (fsub (xdata e) xpress),
                       fadd y0 (fsub (ydata e) ypress))
          | None => xyann d
          end
      ∧ ∀ j, j ≠ h → drs st' !! j = drs st !! j.
Proof.
  induction motions as [|e motions IH]; intros st d Hlock Hd Hpress.
  - exists st, d. by repeat split.
  - rewrite fmap_cons. cbn [run].
    rewrite (dispatch_motion e h st d x0 y0 xpress ypress) by done.
    pose proof (lookup_lt_Some _ _ _ Hd) as Hlt.
    destruct (decide (inaxes e = Some (annot_axes d))) as [Hax|Hax]; simpl.
    + set (d1 := {| annot_axes := annot_axes d;
                    xyann := (fadd x0 (fsub (xdata e) xpress),
                              fadd y0 (fsub (ydata e) ypress));
                    animated := animated d;
                    press := press d;
                    background := background d |}).
      destruct (IH {| lock := Some h; drs := <[h := d1]> (drs st) |} d1)
        as (st' & d' & Hrun & Hl' & Hd' & Hax' & Hxy & Hothers);
        [reflexivity|simpl; by apply list_lookup_insert_eq|exact Hpress|].
      exists st', d'. split; [exact Hrun|]. split; [done|]. split; [done|].
      split; [done|]. split.
      * rewrite Hxy. simpl. rewrite filter_cons_True by done.
        rewrite last_cons. by destruct (last _).
      * intros j Hj. rewrite Hothers by done. simpl.
        by rewrite list_lookup_insert_ne.
    + destruct (IH st d Hlock Hd Hpress)
        as (st' & d' & Hrun & Hl' & Hd' & Hax' & Hxy & Hothers).
      exists st', d'. split; [exact Hrun|]. split; [done|]. split; [done|].
      split; [done|]. split; [|done].
      by rewrite filter_cons_False.
Qed.

(** X19. Dragging does not drift: while an annotation is held, the
    motions that happen on its axes each place it at the press
    position of the text plus the displacement of the pointer since
    the press, so after any number of motions it stands where the
    last such motion put it (or where it stood if there was none);
    the release frees the lock and leaves it there, the position of
    the pointer at the release playing no part; no other annotation
    is touched. *)
Theorem drag_gesture (st : canvas F) h d x0 y0 xpress ypress
    (motions : list (mouse_event F)) (release : mouse_event F) :
  lock st = Some h →
  drs st !! h = Some d →
  press d = Some (x0, y0, xpress, ypress) →
  ∃ st' d',
    run contains handler_order ((Motion_notify <$> motions) ++ [Button_release release]) st
    = Some st'
    ∧ lock st' = None
    ∧ drs st' !! h = Some d'
    ∧ press d' = None
    ∧ xyann d'
      = match last (filter (λ e, inaxes e = Some (annot_axes d)) motions) with
        | Some e => (fadd x0 (fsub (xdata e) xpress),
                     fadd y0 (fsub (ydata e) ypress))
        | None => xyann d
        end
    ∧ ∀ j, j ≠ h → drs st' !! j = drs st !! j.
Proof.
  intros Hlock Hd Hpress.
  destruct (run_motions h x0 y0 xpress ypress motions st d Hlock Hd Hpress)
    as (st1 & d1 & Hrun & Hl1 & Hd1 & Hax1 & Hxy1 & Hothers).
  pose proof (lookup_lt_Some _ _ _ Hd1) as Hlt.
  eexists _, _. rewrite run_app, Hrun. simpl.
  rewrite (dispatch_release release h st1 d1) by done. simpl.
  split; [reflexivity|]. simpl. split; [done|].
  split; [by apply list_lookup_insert_eq|]. simpl.
  split; [done|]. split; [done|].
  intros j Hj. rewrite list_lookup_insert_ne by done. by apply Hothers.
Qed.

End DraggingFacts.

Lemma last_connected_first_once (ev : gui_event R) (st : canvas R) :
  last_connected_first ev st ≡ₚ seq 0 (length (drs st)).
Proof. unfold last_connected_first. apply reverse_Permutation. Qed.

Lemma press_grabs_first_hit_witness :
  ∃ st,
    dispatch always_hit last_connected_first (Button_press (pointer_at 11 4))
      two_annotations = Some st
    ∧ lock st = Some 1%nat.
Proof.
  eexists. split.
  - apply (proj2 (proj2 (press_grabs_first_hit always_hit last_connected_first
                           (pointer_at 11 4) two_annotations))
             eq_refl [] 1%nat [0%nat]
             {| annot_axes := 0; xyann := (20, 4)%R; animated := false;
                press := None; background := false |}).
    + reflexivity.
    + reflexivity.
    + split; reflexivity.
    + intros j d' Hj. by apply elem_of_nil in Hj.
  - reflexivity.
Defined.

Lemma drag_gesture_witness :
  ∃ st d,
    run always_hit last_connected_first
      ((Motion_notify <$> [pointer_at 15 9; pointer_at 12 5; pointer_outside])
       ++ [Button_release (pointer_at 0 0)]) first_held = Some st
    ∧ lock st = None
    ∧ drs st !! 0%nat = Some d
    ∧ xyann d = (10 + (12 - 11), 4 + (5 - 4))%R.
Proof.
  destruct (drag_gesture always_hit last_connected_first
              last_connected_first_once first_held 0%nat
              {| annot_axes := 0; xyann := (10, 4)%R; animated := true;
                 press := Some (10, 4, 11, 4)%R; background := true |}
              10%R 4%R 11%R 4%R
              [pointer_at 15 9; pointer_at 12 5; pointer_outside]
              (pointer_at 0 0) eq_refl eq_refl eq_refl)
    as (st & d & Hrun & Hlock & Hd & _ & Hxy & _).
  exists st, d. split; [exact Hrun|]. split; [exact Hlock|].
  split; [exact Hd|]. rewrite Hxy. reflexivity.
Defined.

(** * Reading and drawing together *)

(** The records of one chromosome, taken from a dataset that ascends
    on (chromosome, position), ascend on the position. *)
Lemma chr_rows_ascending (d : list (marker R)) c :
  StronglySorted key_le d → StronglySorted (on Rle pos) (chr_rows d c).
Proof.
  induction 1 as [|a l Hl IH Ha]; [constructor|].
  rewrite chr_rows_cons. case_decide as Hc; [|done].
  constructor; [done|]. apply Forall_forall. intros b [Hb Hin]%chr_rows_elem.
  eapply Forall_forall in Ha; [|done]. destruct Ha as [_ Hp].
  apply Hp. unfold on. lia.
Qed.

Lemma plot_multipoint_elem {F : Type} `{!PyFloat F}
    (format_3f str_pow10_neg : F → string) (args : checked_args F)
    twopoint multipoint conf_min conf_max i e xs ys color :
  Plot_multipoint xs ys color
    ∈ draw_chromosome format_3f str_pow10_neg args twopoint multipoint
        conf_min conf_max i e →
  ∃ d, multipoint = Some d
       ∧ xs = (λ m, fadd (pos m) (start_offset e)) <$> chr_rows d (chromosome e)
       ∧ ys = conf <$> chr_rows d (chromosome e).
Proof.
  unfold draw_chromosome. rewrite !elem_of_app.
  intros [Hl|[Hl|[Hl|[Hl|[Hl|Hl]]]]].
  - case_decide; [|by apply elem_of_nil in Hl].
    by apply list_elem_of_singleton in Hl.
  - destruct twopoint; [|by apply elem_of_nil in Hl].
    by apply list_elem_of_singleton in Hl.
  - destruct multipoint as [d|]; [|by apply elem_of_nil in Hl].
    apply list_elem_of_singleton in Hl. injection Hl as -> -> _. by exists d.
  - by apply list_elem_of_fmap in Hl as (? & ? & _).
  - case_decide; [|by apply elem_of_nil in Hl].
    by apply list_elem_of_singleton in Hl.
  - destruct twopoint; [|by apply elem_of_nil in Hl].
    apply elem_of_cons in Hl as [?|Hl]; [done|].
    destruct (arg_no_annotation _); [by apply elem_of_nil in Hl|].
    by apply list_elem_of_fmap in Hl as (m & Hm & _).
Qed.

(** X20. Reading and drawing fit together when the positions are
    read as real numbers, whatever [float] makes of their text:
    because the reader returns its records in ascending order of
    (chromosome, position), every multipoint line drawn from a file
    that was read runs from left to right, its x coordinates never
    decreasing. *)
Theorem multipoint_line_left_to_right (parse : string → option R) (lg : R → R)
    (format_3f str_pow10_neg : R → string) (tcl_error : bool)
    (args : checked_args R) lines f upp upv o twopoint d fig :
  @read_input_file R (real_float parse lg) lines f upp upv o = Ok d →
  @draw_manhattan_plot R (real_float parse lg) format_3f str_pow10_neg
    tcl_error args twopoint (Some d) = Ok fig →
  ∀ xs ys color,
    Plot_multipoint xs ys color ∈ fig_calls fig → StronglySorted Rle xs.
Proof.
  intros Hsorted%read_input_file_key_sorted Hfig xs ys color Hin.
  destruct (draw_manhattan_plot_inv _ _ _ _ _ _ _ Hfig)
    as (cs & limits & _ & _ & _ & _ & Hcalls & _).
  rewrite Hcalls in Hin.
  apply list_elem_of_join in Hin as (l & Hl & Hin).
  apply list_elem_of_lookup in Hin as [k Hk].
  rewrite list_lookup_imap in Hk.
  destruct (chromosomes (fig_axis fig) !! k) as [e|]; [|done].
  injection Hk as <-.
  apply plot_multipoint_elem in Hl as (d' & [= <-] & -> & _).
  apply (StronglySorted_fmap _ (on Rle pos) Rle).
  - intros a b Hab. unfold on in Hab. cbn [fadd real_float]. lra.
  - by apply chr_rows_ascending.
Qed.

(** The file of three unordered lines, drawn as a multipoint dataset:
    the line of chromosome 1 has two points, the smaller position
    first. *)
Lemma multipoint_line_left_to_right_witness :
  ∃ d fig xs ys color,
    @read_input_file R (real_float decimal_literal log10)
      (iter_lines unordered_file) "f.txt" false false default_options = Ok d
    ∧ @draw_manhattan_plot R (real_float decimal_literal log10)
        format_any format_any false two_point_checked None (Some d) = Ok fig
    ∧ Plot_multipoint xs ys color ∈ fig_calls fig
    ∧ length xs = 2%nat
    ∧ StronglySorted Rle xs.
Proof.
  destruct unordered_file_read as (a & b & c & Hread & Ha & Hb & Hc).
  set (d := @np_sort R (real_float decimal_literal log10) [a; b; c]) in *.
  destruct (@draw_manhattan_plot_ok R (real_float decimal_literal log10)
              format_any format_any two_point_checked
              None (Some d) (dataset_chromosomes d) eq_refl)
    as (fig & Hfig & _).
  { unfold supplied. simpl. intros d' ->%list_elem_of_singleton.
    by eapply read_input_file_nonempty. }
  destruct (draw_manhattan_plot_inv _ _ _ _ _ _ _ Hfig)
    as (cs & limits & Hcs & _ & _ & Hchr & Hcalls & _).
  change (Ok (dataset_chromosomes d) = Ok cs) in Hcs. injection Hcs as <-.
  assert (H1 : 1 ∈ chromosome <$> chromosomes (fig_axis fig)).
  { rewrite Hchr. apply dataset_chromosomes_elem. exists b. split; [|done].
    apply np_sort_elem. set_solver. }
  apply list_elem_of_fmap in H1 as (e & He & [k Hk]%list_elem_of_lookup).
  exists d, fig, ((λ m, (pos m + start_offset e)%R) <$> chr_rows d (chromosome e)),
    (conf <$> chr_rows d (chromosome e)),
    (chromosome_color (raw two_point_checked) k).
  assert (Hin : Plot_multipoint
                  ((λ m, (pos m + start_offset e)%R) <$> chr_rows d (chromosome e))
                  (conf <$> chr_rows d (chromosome e))
                  (chromosome_color (raw two_point_checked) k)
                ∈ fig_calls fig).
  { rewrite Hcalls. apply list_elem_of_join.
    eexists. split; [|apply list_elem_of_lookup; exists k;
                       by rewrite list_lookup_imap, Hk].
    unfold draw_chromosome. rewrite !elem_of_app. right. right. left.
    by apply list_elem_of_singleton. }
  split; [exact Hread|]. split; [exact Hfig|]. split; [exact Hin|]. split.
  - rewrite length_fmap, <- He. unfold chr_rows, d.
    rewrite (Permutation_length
               (filter_Permutation _ _ _ (np_sort_perm [a; b; c]))).
    rewrite !filter_cons, Ha, Hb, Hc. reflexivity.
  - exact (multipoint_line_left_to_right _ _ format_any format_any
             _ _ _ _ _ _ _ _ _ _ Hread Hfig _ _ _ Hin).
Defined.

(** * Whitespace around a chromosome label *)

Lemma lstrip_spaces ws t :
  all_chars PyStr.isspace ws = true → PyStr.lstrip (ws +:+ t) = PyStr.lstrip t.
Proof.
  induction ws as [|c ws IH]; simpl; [done|].
  intros [-> Hws]%andb_true_iff. by apply IH.
Qed.

Lemma strip_padded ws1 ws2 c t :
  all_chars PyStr.isspace ws1 = true → all_chars PyStr.isspace ws2 = true →
  PyStr.isspace c = false →
  PyStr.strip (ws1 +:+ (String c t +:+ ws2)) = PyStr.strip (String c t).
Proof.
  intros H1 H2 Hc. unfold PyStr.strip. rewrite lstrip_spaces by done.
  change (String c t +:+ ws2) with (String c (t +:+ ws2)).
  cbn [PyStr.lstrip]. rewrite Hc.
  change (String c (t +:+ ws2)) with (String c t +:+ ws2).
  by apply rstrip_with_app.
Qed.

Lemma py_int_padded ws1 ws2 c t :
  all_chars PyStr.isspace ws1 = true → all_chars PyStr.isspace ws2 = true →
  PyStr.isspace c = false →
  py_int (ws1 +:+ (String c t +:+ ws2)) = py_int (String c t).
Proof. intros H1 H2 Hc. unfold py_int. by rewrite strip_padded. Qed.

Lemma upper_length s : String.length (PyStr.upper s) = String.length s.
Proof. induction s as [|c s IH]; simpl; [done|]. by rewrite IH. Qed.

Lemma append_length s t :
  String.length (s +:+ t) = (String.length s + String.length t)%nat.
Proof. induction s as [|c s IH]; simpl; [done|]. by rewrite IH. Qed.

Lemma special_label_shape label :
  PyStr.upper label ∈ ["X"; "Y"; "XY"; "MT"] →
  ∃ c t, label = String c t ∧ PyStr.isspace c = false
         ∧ py_int label = None
         ∧ PyStr.strip (PyStr.upper label) = PyStr.upper label.
Proof.
  intros Hin. destruct label as [|c t].
  { rewrite !elem_of_cons, elem_of_nil in Hin. simpl in Hin.
    destruct Hin as [?|[?|[?|[?|[]]]]]; done. }
  exists c, t. split; [done|].
  assert (Hsp : PyStr.isspace (PyStr.upper_char c) = false).
  { rewrite !elem_of_cons, elem_of_nil in Hin. cbn [PyStr.upper] in Hin.
    destruct Hin as [E|[E|[E|[E|[]]]]]; injection E as -> _; done. }
  rewrite isspace_upper_char in Hsp. split; [done|].
  rewrite <- (py_int_upper (String c t)).
  rewrite !elem_of_cons, elem_of_nil in Hin.
  destruct Hin as [->|[->|[->|[->|[]]]]]; by split.
Qed.

(** X21. Whitespace around a chromosome label: a number is accepted
    with any whitespace before and after it, as [int] ignores it; one
    of the labels X, Y, XY and MT, in any letter case, is rejected as
    soon as a single whitespace byte stands before or after it. *)
Theorem encode_chr_padding (ws1 ws2 : string) :
  all_chars PyStr.isspace ws1 = true →
  all_chars PyStr.isspace ws2 = true →
  (∀ z, encode_chr (ws1 +:+ (PyStr.of_Z z +:+ ws2)) = Ok z)
  ∧ (∀ label,
       PyStr.upper label ∈ ["X"; "Y"; "XY"; "MT"] →
       ws1 ≠ "" ∨ ws2 ≠ "" →
       encode_chr (ws1 +:+ (label +:+ ws2))
       = Err (ProgramError (PyStr.upper (ws1 +:+ (label +:+ ws2))
                            +:+ ": not a valid chromosome"))).
Proof.
  intros H1 H2. split.
  - intros z. destruct (of_Z_shape z) as (c & t & E & Hc & _).
    assert (Hsp : PyStr.isspace c = false).
    { destruct Hc as [Hc | [-> _]]; [|done].
      apply digit_not_space in Hc. by apply negb_true_iff in Hc. }
    assert (Hint : py_int (PyStr.upper (ws1 +:+ (PyStr.of_Z z +:+ ws2))) = Some z).
    { rewrite py_int_upper, E, py_int_padded by done.
      rewrite <- E. apply py_int_of_Z. }
    unfold encode_chr. rewrite Hint.
    repeat match goal with
           | |- context [String.eqb ?a ?b] =>
               destruct (String.eqb_spec a b) as [Eq|_];
               [rewrite Eq in Hint; discriminate Hint|]
           end.
    done.
  - intros label Hin Hpad.
    destruct (special_label_shape label Hin) as (c & t & -> & Hsp & Hint & Hstrip).
    set (padded := ws1 +:+ (String c t +:+ ws2)).
    assert (Hnone : py_int (PyStr.upper padded) = None).
    { rewrite py_int_upper. unfold padded. by rewrite py_int_padded. }
    assert (Hstr : PyStr.strip (PyStr.upper padded) = PyStr.upper (String c t)).
    { rewrite strip_upper. unfold padded. rewrite strip_padded by done.
      by rewrite <- strip_upper. }
    assert (Hlen : String.length (PyStr.upper padded)
                   ≠ String.length (PyStr.upper (String c t))).
    { rewrite !upper_length. unfold padded. rewrite !append_length.
      destruct Hpad as [Hne|Hne].
      - destruct ws1; [done|]. simpl. lia.
      - destruct ws2; [done|]. simpl. lia. }
    assert (Hnot : ∀ w, w ∈ ["X"; "Y"; "XY"; "MT"] → PyStr.upper padded ≠ w).
    { intros w Hw Eq. apply Hlen. rewrite <- Hstr, Eq.
      rewrite !elem_of_cons, elem_of_nil in Hw.
      destruct Hw as [->|[->|[->|[->|[]]]]]; done. }
    unfold encode_chr. fold padded. rewrite Hnone.
    repeat match goal with
           | |- context [String.eqb ?a ?b] =>
               destruct (String.eqb_spec a b) as [Eq|_];
               [exfalso; apply (Hnot b); [rewrite !elem_of_cons; tauto|exact Eq]|]
           end.
    done.
Qed.

Lemma encode_chr_padding_witness :
  encode_chr (" " +:+ (PyStr.of_Z 7 +:+ " ")) = Ok 7
  ∧ encode_chr ("" +:+ ("x" +:+ " "))
    = Err (ProgramError (PyStr.upper ("" +:+ ("x" +:+ " "))
                         +:+ ": not a valid chromosome")).
Proof.
  destruct (encode_chr_padding " " " " eq_refl eq_refl) as [Hnum _].
  destruct (encode_chr_padding "" " " eq_refl eq_refl) as [_ Hlab].
  split; [apply Hnum|]. apply Hlab; [|by right].
  rewrite !elem_of_cons. by left.
Defined.
